(** * The entity transform engine of the canvas (CanvasEntityTransformer.ts)

    A shallow embedding of the geometry kernel, the affine snapping and fit
    operations, the bounding-box calculator and the transform lifecycle of
    [CanvasEntityTransformer], with the properties the design document states
    about them.

    Numbers.  A JavaScript [number] is modelled as an exact rational ([Q],
    compared with [==]).  Every division of the source that is studied here is
    guarded against a zero divisor, either by the source itself (a pivot, a
    denominator) or by a hypothesis of the theorem, so that no infinity or NaN
    arises on the paths below; binary64 rounding is outside the model, and a
    statement over [Q] is a statement in exact arithmetic.  Where a property
    turns on the rounding, module [Binary64] has the same arithmetic on the
    doubles themselves, which the kernel computes with. *)

From Stdlib Require Import String QArith Qabs Qround Qminmax ZArith List Bool Lia Lqa.
From Stdlib Require PrimFloat.
Import ListNotations.

Local Open Scope Q_scope.

(** ** JavaScript numbers and arrays *)

Module JS.

(** [a > b] and [a === 0] on numbers. *)
Definition gtb (a b : Q) : bool := negb (Qle_bool a b).
Definition is_zero (a : Q) : bool := Qeq_bool a 0.

(** [Math.round]: the nearest integer, ties towards plus infinity. *)
Definition round (x : Q) : Q := inject_Z (Qfloor (x + (1 # 2))).

(** [Math.sign]. *)
Definition sign (x : Q) : Q :=
  if gtb x 0 then 1 else if gtb 0 x then -1 else 0.

(** [Math.ceil]. *)
Definition ceil (x : Q) : Q := inject_Z (Qceiling x).

(** [a % b]: the remainder of the truncated division; it has the sign of [a]. *)
Definition trunc (x : Q) : Z := if Qle_bool 0 x then Qfloor x else Qceiling x.
Definition rem (a b : Q) : Q := a - b * inject_Z (trunc (a / b)).

(** [l[i] ?? 0] *)
Definition get (l : list Q) (i : nat) : Q := nth i l 0.

(** [l[i] = v].  An assignment past the end extends the array; the holes it
    leaves read as [d] through [?? d]. *)
Fixpoint set {A : Type} (d : A) (i : nat) (v : A) (l : list A) : list A :=
  match i, l with
  | O, [] => [v]
  | O, _ :: t => v :: t
  | S i', [] => d :: set d i' v []
  | S i', h :: t => h :: set d i' v t
  end.

(** [for (let c = from; c <= to_; c++) l[c] = f(c, l[c] ?? 0)] *)
Definition updateRange (from to_ : nat) (f : nat -> Q -> Q) (l : list Q) : list Q :=
  fold_left (fun acc c => set 0 c (f c (get acc c)) acc) (seq from (S to_ - from)) l.

End JS.

(** ** Coordinates and rectangles (features/controlLayers/store/types) *)

Module Coordinate.
Record t : Type := mk { x : Q; y : Q }.
End Coordinate.

Module Rect.
Record t : Type := mk { x : Q; y : Q; width : Q; height : Q }.
End Rect.

(** ** Geometry kernel: the homography solver *)

Module Homography.

Definition Matrix : Type := list (list Q).

(** [M[r]?.[c] ?? 0] *)
Definition at2 (M : Matrix) (r c : nat) : Q := JS.get (nth r M []) c.

(** The search of the pivot row of [solveLinearSystem]: the row at or below
    [col] with the largest absolute value in column [col]. *)
Definition findPivot (M : Matrix) (col n : nat) : Q * nat :=
  fold_left
    (fun (acc : Q * nat) row =>
       let val := Qabs (at2 M row col) in
       if JS.gtb val (fst acc) then (val, row) else acc)
    (seq (S col) (n - S col))
    (Qabs (at2 M col col), col).

(** [tmp = M[col]; M[col] = M[pivotRow]; M[pivotRow] = tmp].  The source swaps
    only when [pivotRow !== col], and then both rows exist. *)
Definition swapRows (col pivotRow : nat) (M : Matrix) : Matrix :=
  let tmp := nth col M [] in
  JS.set [] pivotRow tmp (JS.set [] col (nth pivotRow M []) M).

(** [colData[c] = colData[c] / pivot] for [c] from [col] to [n]. *)
Definition normalizeRow (pivot : Q) (col n : nat) (colData : list Q) : list Q :=
  JS.updateRange col n (fun _ value => value / pivot) colData.

(** [rowData[c] = rowData[c] - factor * colData[c]] for [c] from [col] to [n]. *)
Definition eliminateRow (colData : list Q) (col n : nat) (rowData : list Q) : list Q :=
  let factor := JS.get rowData col in
  JS.updateRange col n (fun c rowValue => rowValue - factor * JS.get colData c) rowData.

(** The loop over [row] from [0] to [n - 1] that skips [row === col] and the
    rows that do not exist. *)
Definition eliminateRows (colData : list Q) (col n : nat) (M : Matrix) : Matrix :=
  fold_left
    (fun acc row =>
       if Nat.eqb row col then acc
       else match nth_error acc row with
            | None => acc
            | Some rowData => JS.set [] row (eliminateRow colData col n rowData) acc
            end)
    (seq 0 n) M.

(** One iteration of the loop over [col]; [None] is the early
    [return new Array(n).fill(0)]. *)
Definition pivotStep (n col : nat) (M : Matrix) : option Matrix :=
  let (maxVal, pivotRow) := findPivot M col n in
  if JS.is_zero maxVal then None
  else
    let M1 := if Nat.eqb pivotRow col then M else swapRows col pivotRow M in
    match nth_error M1 col with
    | None => None
    | Some colData =>
        let pivot := JS.get colData col in
        let colData' := normalizeRow pivot col n colData in
        Some (eliminateRows colData' col n (JS.set [] col colData' M1))
    end.

Fixpoint eliminate (n : nat) (cols : list nat) (M : Matrix) : option Matrix :=
  match cols with
  | [] => Some M
  | col :: rest =>
      match pivotStep n col M with
      | None => None
      | Some M' => eliminate n rest M'
      end
  end.

(** [A.map((row, i) => [...row, b[i]])] *)
Fixpoint augment (i : nat) (A : Matrix) (b : list Q) : Matrix :=
  match A with
  | [] => []
  | row :: rest => (row ++ [JS.get b i]) :: augment (S i) rest b
  end.

(** The Gauss-Jordan elimination of [solveLinearSystem], before the result is
    read off: [None] when some pivot is zero. *)
Definition gaussJordan (A : Matrix) (b : list Q) : option Matrix :=
  eliminate (length b) (seq 0 (length b)) (augment 0 A b).

Definition solveLinearSystem (A : Matrix) (b : list Q) : list Q :=
  let n := length b in
  match gaussJordan A b with
  | None => repeat 0 n
  | Some M => map (fun row => JS.get row n) M
  end.

(** The rows of the 8x8 system of [computeHomography]; [None] is the early
    return when a point is missing. *)
Fixpoint buildSystem (idx : list nat) (src dst : list Coordinate.t)
    (A : Matrix) (b : list Q) : option (Matrix * list Q) :=
  match idx with
  | [] => Some (A, b)
  | i :: rest =>
      match nth_error src i, nth_error dst i with
      | Some s, Some d =>
          let x := Coordinate.x s in let y := Coordinate.y s in
          let u := Coordinate.x d in let v := Coordinate.y d in
          buildSystem rest src dst
            (A ++ [[x; y; 1; 0; 0; 0; - u * x; - u * y];
                   [0; 0; 0; x; y; 1; - v * x; - v * y]])
            (b ++ [u; v])
      | _, _ => None
      end
  end.

Definition homographySystem (src dst : list Coordinate.t) : option (Matrix * list Q) :=
  if negb (Nat.eqb (length src) (length dst)) || Nat.ltb (length src) 4 then None
  else buildSystem (seq 0 (length src)) src dst [] [].

Definition computeHomography (src dst : list Coordinate.t) : list Q :=
  match homographySystem src dst with
  | None => repeat 0 8%nat
  | Some (A, b) => solveLinearSystem A b
  end.

(** The correspondences are non-degenerate when the system is built and the
    elimination meets no zero pivot. *)
Definition nonDegenerate (src dst : list Coordinate.t) : bool :=
  match homographySystem src dst with
  | None => false
  | Some (A, b) => match gaussJordan A b with None => false | Some _ => true end
  end.

(** The denominator of the projective map at a point. *)
Definition denominator (h : list Q) (p : Coordinate.t) : Q :=
  JS.get h 6 * Coordinate.x p + JS.get h 7 * Coordinate.y p + 1.

Definition applyHomography (h : list Q) (p : Coordinate.t) : Coordinate.t :=
  let h11 := JS.get h 0 in let h12 := JS.get h 1 in let h13 := JS.get h 2 in
  let h21 := JS.get h 3 in let h22 := JS.get h 4 in let h23 := JS.get h 5 in
  let h31 := JS.get h 6 in let h32 := JS.get h 7 in
  let denom := h31 * Coordinate.x p + h32 * Coordinate.y p + 1 in
  if JS.is_zero denom then Coordinate.mk 0 0
  else Coordinate.mk ((h11 * Coordinate.x p + h12 * Coordinate.y p + h13) / denom)
                     ((h21 * Coordinate.x p + h22 * Coordinate.y p + h23) / denom).

(** [Number.isFinite]: every rational is finite. *)
Definition isFinite (_ : Q) : bool := true.

Definition isValidHomography (h : list Q) : bool :=
  Nat.eqb (length h) 8 && forallb isFinite h.

End Homography.

(** ** Helpers imported by the transformer *)

Module Util.

(** Modelled from the spec: [roundToMultiple] of common/util/roundDownToMultiple
    is not among the sources; the design document gives it as
    [round(value / gridSize) * gridSize]. *)
Definition roundToMultiple (value gridSize : Q) : Q :=
  JS.round (value / gridSize) * gridSize.

(** Modelled from the spec: [getEmptyRect] of konva/util is not among the
    sources; the design document gives the empty rect as [{0,0,0,0}]. *)
Definition getEmptyRect : Rect.t := Rect.mk 0 0 0 0.

(** [clamp(value, lower, upper)] of es-toolkit. *)
Definition clamp (value lower upper : Q) : Q := Qmin (Qmax value lower) upper.

End Util.

(** ** Warp transform controller: the resampler *)

Module WarpCorners.
Record t : Type := mk { tl : Coordinate.t; tr : Coordinate.t; br : Coordinate.t; bl : Coordinate.t }.
End WarpCorners.

(** An [HTMLCanvasElement]; only its size is modelled. *)
Module Canvas.
Record t : Type := mk { width : Q; height : Q }.
End Canvas.

Module Warp.
Import Homography.

Inductive Quality : Type := preview | final.

(** What is painted on the output canvas.  [DrawImageStretched w h] is
    [ctx.drawImage(source, 0, 0, w, h)].  [DrawTriangle] is the clipped
    [drawImage] of [drawWarpTriangle]: the six coefficients given to
    [setTransform], and the destination triangle [d0 d1 d2] that the clip path
    is made of.  The source inflates each vertex by [pad] away from the
    centroid through [Math.hypot]; a vertex that coincides with the centroid is
    left where it is.  The inflation is not rational and is not carried out
    here: the operation records the triangle and the pad. *)
Inductive DrawOp : Type :=
| DrawImageStretched (w h : Q)
| DrawTriangle (a b c d e f : Q) (d0 d1 d2 : Coordinate.t) (pad : Q).

Definition getWarpSegments (width height : Q) (quality : Quality) : nat :=
  let targetSize := match quality with preview => 128 | final => 64 end in
  let maxDim := Qmax width height in
  Z.to_nat (Z.max 4 (Qceiling (maxDim / targetSize))).

Definition drawWarpTriangle (s0 s1 s2 d0 d1 d2 : Coordinate.t) : list DrawOp :=
  let sx0 := Coordinate.x s0 in let sy0 := Coordinate.y s0 in
  let sx1 := Coordinate.x s1 in let sy1 := Coordinate.y s1 in
  let sx2 := Coordinate.x s2 in let sy2 := Coordinate.y s2 in
  let dx0 := Coordinate.x d0 in let dy0 := Coordinate.y d0 in
  let dx1 := Coordinate.x d1 in let dy1 := Coordinate.y d1 in
  let dx2 := Coordinate.x d2 in let dy2 := Coordinate.y d2 in
  let denom := sx0 * (sy1 - sy2) + sx1 * (sy2 - sy0) + sx2 * (sy0 - sy1) in
  if JS.is_zero denom then []
  else
    let a := (dx0 * (sy1 - sy2) + dx1 * (sy2 - sy0) + dx2 * (sy0 - sy1)) / denom in
    let b := (dy0 * (sy1 - sy2) + dy1 * (sy2 - sy0) + dy2 * (sy0 - sy1)) / denom in
    let c := (dx0 * (sx2 - sx1) + dx1 * (sx0 - sx2) + dx2 * (sx1 - sx0)) / denom in
    let d := (dy0 * (sx2 - sx1) + dy1 * (sx0 - sx2) + dy2 * (sx1 - sx0)) / denom in
    let e := (dx0 * (sx1 * sy2 - sx2 * sy1) + dx1 * (sx2 * sy0 - sx0 * sy2)
              + dx2 * (sx0 * sy1 - sx1 * sy0)) / denom in
    let f := (dy0 * (sx1 * sy2 - sx2 * sy1) + dy1 * (sx2 * sy0 - sx0 * sy2)
              + dy2 * (sx0 * sy1 - sx1 * sy0)) / denom in
    [DrawTriangle a b c d e f d0 d1 d2 (3 # 4)].

Definition min4 (a b c d : Q) : Q := Qmin (Qmin (Qmin a b) c) d.
Definition max4 (a b c d : Q) : Q := Qmax (Qmax (Qmax a b) c) d.

Definition ofNat (k : nat) : Q := inject_Z (Z.of_nat k).

(** The two triangles of the grid cell in column [cx] and row [cy]. *)
Definition drawCell (h : list Q) (stepX stepY : Q) (cy cx : nat) : list DrawOp :=
  let x0 := ofNat cx * stepX in
  let x1 := ofNat (cx + 1) * stepX in
  let y0 := ofNat cy * stepY in
  let y1 := ofNat (cy + 1) * stepY in
  let p00 := Coordinate.mk x0 y0 in
  let p10 := Coordinate.mk x1 y0 in
  let p11 := Coordinate.mk x1 y1 in
  let p01 := Coordinate.mk x0 y1 in
  let d00 := applyHomography h p00 in
  let d10 := applyHomography h p10 in
  let d11 := applyHomography h p11 in
  let d01 := applyHomography h p01 in
  drawWarpTriangle p00 p10 p11 d00 d10 d11 ++ drawWarpTriangle p00 p11 p01 d00 d11 d01.

Record Warped : Type := mkWarped {
  canvas : Canvas.t;        (* the size of the new canvas *)
  painted : list DrawOp;    (* what was drawn on it, in order *)
  rect : Rect.t
}.

(** [getWarpedCanvas]; [None] is the failed [assert] on a missing warp source.
    The 2D context is taken to exist. *)
Definition getWarpedCanvas (warpSourceCanvas : option Canvas.t)
    (warpCorners : option WarpCorners.t) (arg : option Quality) : option Warped :=
  match warpSourceCanvas, warpCorners with
  | Some source, Some corners =>
      let quality := match arg with Some quality => quality | None => final end in
      let tl := WarpCorners.tl corners in let tr := WarpCorners.tr corners in
      let br := WarpCorners.br corners in let bl := WarpCorners.bl corners in
      let minX := min4 (Coordinate.x tl) (Coordinate.x tr) (Coordinate.x br) (Coordinate.x bl) in
      let maxX := max4 (Coordinate.x tl) (Coordinate.x tr) (Coordinate.x br) (Coordinate.x bl) in
      let minY := min4 (Coordinate.y tl) (Coordinate.y tr) (Coordinate.y br) (Coordinate.y bl) in
      let maxY := max4 (Coordinate.y tl) (Coordinate.y tr) (Coordinate.y br) (Coordinate.y bl) in
      let rect := Rect.mk minX minY (maxX - minX) (maxY - minY) in
      let canvas := Canvas.mk (Qmax 1 (JS.ceil (Rect.width rect)))
                              (Qmax 1 (JS.ceil (Rect.height rect))) in
      let srcW := Canvas.width source in
      let srcH := Canvas.height source in
      let srcPts := [Coordinate.mk 0 0; Coordinate.mk srcW 0;
                     Coordinate.mk srcW srcH; Coordinate.mk 0 srcH] in
      let dstPts :=
        [Coordinate.mk (Coordinate.x tl - Rect.x rect) (Coordinate.y tl - Rect.y rect);
         Coordinate.mk (Coordinate.x tr - Rect.x rect) (Coordinate.y tr - Rect.y rect);
         Coordinate.mk (Coordinate.x br - Rect.x rect) (Coordinate.y br - Rect.y rect);
         Coordinate.mk (Coordinate.x bl - Rect.x rect) (Coordinate.y bl - Rect.y rect)] in
      let h := computeHomography srcPts dstPts in
      if negb (isValidHomography h) then
        Some (mkWarped canvas
                [DrawImageStretched (Canvas.width canvas) (Canvas.height canvas)] rect)
      else
        let segments := getWarpSegments srcW srcH quality in
        let stepX := srcW / ofNat segments in
        let stepY := srcH / ofNat segments in
        let painted :=
          flat_map (fun cy => flat_map (fun cx => drawCell h stepX stepY cy cx)
                                       (seq 0 segments))
                   (seq 0 segments) in
        Some (mkWarped canvas painted rect)
  | _, _ => None
  end.

End Warp.

(** ** The transformer and its surroundings *)

(** The attributes of [konva.proxyRect] that the transformer reads back. *)
Module ProxyRect.

Record t : Type := mk {
  x : Q; y : Q; width : Q; height : Q; scaleX : Q; scaleY : Q; rotation : Q
}.

Definition set_x (v : Q) (r : t) : t :=
  mk v (y r) (width r) (height r) (scaleX r) (scaleY r) (rotation r).

Definition set_y (v : Q) (r : t) : t :=
  mk (x r) v (width r) (height r) (scaleX r) (scaleY r) (rotation r).

Definition set_width (v : Q) (r : t) : t :=
  mk (x r) (y r) v (height r) (scaleX r) (scaleY r) (rotation r).

Definition set_height (v : Q) (r : t) : t :=
  mk (x r) (y r) (width r) v (scaleX r) (scaleY r) (rotation r).

Definition set_scaleX (v : Q) (r : t) : t :=
  mk (x r) (y r) (width r) (height r) v (scaleY r) (rotation r).

Definition set_scaleY (v : Q) (r : t) : t :=
  mk (x r) (y r) (width r) (height r) (scaleX r) v (rotation r).

Definition set_rotation (v : Q) (r : t) : t :=
  mk (x r) (y r) (width r) (height r) (scaleX r) (scaleY r) v.

End ProxyRect.

(** [transformMutex], a single-holder lock (async-mutex).  A caller that finds
    it taken waits in [waiting]; what it does once it holds the lock is named
    by its [Waiter]. *)
Module Mutex.

Inductive Waiter : Type :=
| StartTransform (silent : bool)
| RequestRectCalculation.

Record t : Type := mk { locked : bool; waiting : list Waiter }.

End Mutex.

Module Transformer.

(** The [id] of an entity adapter. *)
Definition EntityId : Type := string.

Inductive TransformMode : Type := affine | warp.

Inductive InteractionMode : Type := all | drag | off.

(** The extents answered by the bounding-box worker. *)
Record Extents : Type := mkExtents { minX : Q; minY : Q; maxX : Q; maxY : Q }.

(** What the transformer reads from its manager, its parent adapter and the
    scene graph.  None of it is written by the transformer; the functions
    stand for geometry computed by Konva and for the rasterizer. *)
Record Env : Type := mkEnv {
  isStaging : bool;                  (* manager.stagingArea.$isStaging *)
  isSegmenting : option bool;        (* parent.segmentAnything?.$isSegmenting *)
  isFiltering : option bool;         (* parent.filterer?.$isFiltering *)
  stateApi_isTransforming : bool;    (* manager.stateApi.$isTransforming *)
  tool : string;                     (* manager.tool.$tool *)
  isSelected : bool;                 (* manager.stateApi.getIsSelected(parent.id) *)
  isEmpty : bool;                    (* parent.$isEmpty *)
  isLocked : bool;                   (* parent.$isLocked *)
  hasObjects : bool;                 (* parent.renderer.hasObjects() *)
  needsPixelBbox : bool;             (* parent.renderer.needsPixelBbox() *)
  position : Coordinate.t;           (* parent.state.position *)
  positionGridSize : Q;              (* manager.stateApi.getPositionGridSize() *)
  shiftKey : bool;                   (* manager.stateApi.$shiftKey *)
  stageScale : Q;                    (* manager.stage.getScale() *)
  stagePosition : Coordinate.t;      (* manager.stage.getPosition() *)
  bbox : Rect.t;                     (* manager.stateApi.getBbox().rect *)
  rotaterActive : bool;              (* konva.transformer.getActiveAnchor() === 'rotater' *)
  getCanvasFails : bool;             (* parent.getCanvas() throws *)
  objectGroupClientRect : Rect.t;    (* objectGroup.getClientRect({ skipTransform: true }) *)
  proxyClientRect : ProxyRect.t -> Rect.t;        (* proxyRect.getClientRect(...) *)
  proxyRectCorners : ProxyRect.t -> WarpCorners.t;  (* getProxyRectCorners *)
  rendererCanvas : Rect.t -> Canvas.t;            (* parent.renderer.getCanvas(...) *)
  rasterizeFails : bool;             (* parent.renderer.rasterize rejects *)
  rasterizeCanvasFails : bool        (* parent.renderer.rasterizeCanvas rejects *)
}.

(** The fields of one [CanvasEntityTransformer].  [calculateRectTimer] is the
    armed timer of the debounced [calculateRect]; [bboxRequest] is the [rect]
    captured by the callback given to the worker while its answer is awaited. *)
Record t : Type := mk {
  nodeRect : Rect.t;
  pixelRect : Rect.t;
  isPendingRectCalculation : bool;
  isTransforming : bool;
  transformMode : TransformMode;
  interactionMode : InteractionMode;
  isDragEnabled : bool;
  isTransformEnabled : bool;
  isProcessing : bool;
  silentTransform : bool;
  transformMutex : Mutex.t;
  proxyRect : ProxyRect.t;
  warpSourceCanvas : option Canvas.t;
  warpSourceRect : option Rect.t;
  warpCorners : option WarpCorners.t;
  calculateRectTimer : bool;
  bboxRequest : option Rect.t
}.

Definition set_nodeRect (v : Rect.t) (r : t) : t :=
  mk v (pixelRect r) (isPendingRectCalculation r) (isTransforming r) (transformMode r)
    (interactionMode r) (isDragEnabled r) (isTransformEnabled r) (isProcessing r)
    (silentTransform r) (transformMutex r) (proxyRect r) (warpSourceCanvas r)
    (warpSourceRect r) (warpCorners r) (calculateRectTimer r) (bboxRequest r).

Definition set_pixelRect (v : Rect.t) (r : t) : t :=
  mk (nodeRect r) v (isPendingRectCalculation r) (isTransforming r) (transformMode r)
    (interactionMode r) (isDragEnabled r) (isTransformEnabled r) (isProcessing r)
    (silentTransform r) (transformMutex r) (proxyRect r) (warpSourceCanvas r)
    (warpSourceRect r) (warpCorners r) (calculateRectTimer r) (bboxRequest r).

Definition set_isPendingRectCalculation (v : bool) (r : t) : t :=
  mk (nodeRect r) (pixelRect r) v (isTransforming r) (transformMode r)
    (interactionMode r) (isDragEnabled r) (isTransformEnabled r) (isProcessing r)
    (silentTransform r) (transformMutex r) (proxyRect r) (warpSourceCanvas r)
    (warpSourceRect r) (warpCorners r) (calculateRectTimer r) (bboxRequest r).

Definition set_isTransforming (v : bool) (r : t) : t :=
  mk (nodeRect r) (pixelRect r) (isPendingRectCalculation r) v (transformMode r)
    (interactionMode r) (isDragEnabled r) (isTransformEnabled r) (isProcessing r)
    (silentTransform r) (transformMutex r) (proxyRect r) (warpSourceCanvas r)
    (warpSourceRect r) (warpCorners r) (calculateRectTimer r) (bboxRequest r).

Definition set_transformMode (v : TransformMode) (r : t) : t :=
  mk (nodeRect r) (pixelRect r) (isPendingRectCalculation r) (isTransforming r) v
    (interactionMode r) (isDragEnabled r) (isTransformEnabled r) (isProcessing r)
    (silentTransform r) (transformMutex r) (proxyRect r) (warpSourceCanvas r)
    (warpSourceRect r) (warpCorners r) (calculateRectTimer r) (bboxRequest r).

Definition set_interactionMode (v : InteractionMode) (r : t) : t :=
  mk (nodeRect r) (pixelRect r) (isPendingRectCalculation r) (isTransforming r)
    (transformMode r) v (isDragEnabled r) (isTransformEnabled r) (isProcessing r)
    (silentTransform r) (transformMutex r) (proxyRect r) (warpSourceCanvas r)
    (warpSourceRect r) (warpCorners r) (calculateRectTimer r) (bboxRequest r).

Definition set_isDragEnabled (v : bool) (r : t) : t :=
  mk (nodeRect r) (pixelRect r) (isPendingRectCalculation r) (isTransforming r)
    (transformMode r) (interactionMode r) v (isTransformEnabled r) (isProcessing r)
    (silentTransform r) (transformMutex r) (proxyRect r) (warpSourceCanvas r)
    (warpSourceRect r) (warpCorners r) (calculateRectTimer r) (bboxRequest r).

Definition set_isTransformEnabled (v : bool) (r : t) : t :=
  mk (nodeRect r) (pixelRect r) (isPendingRectCalculation r) (isTransforming r)
    (transformMode r) (interactionMode r) (isDragEnabled r) v (isProcessing r)
    (silentTransform r) (transformMutex r) (proxyRect r) (warpSourceCanvas r)
    (warpSourceRect r) (warpCorners r) (calculateRectTimer r) (bboxRequest r).

Definition set_isProcessing (v : bool) (r : t) : t :=
  mk (nodeRect r) (pixelRect r) (isPendingRectCalculation r) (isTransforming r)
    (transformMode r) (interactionMode r) (isDragEnabled r) (isTransformEnabled r) v
    (silentTransform r) (transformMutex r) (proxyRect r) (warpSourceCanvas r)
    (warpSourceRect r) (warpCorners r) (calculateRectTimer r) (bboxRequest r).

Definition set_silentTransform (v : bool) (r : t) : t :=
  mk (nodeRect r) (pixelRect r) (isPendingRectCalculation r) (isTransforming r)
    (transformMode r) (interactionMode r) (isDragEnabled r) (isTransformEnabled r)
    (isProcessing r) v (transformMutex r) (proxyRect r) (warpSourceCanvas r)
    (warpSourceRect r) (warpCorners r) (calculateRectTimer r) (bboxRequest r).

Definition set_transformMutex (v : Mutex.t) (r : t) : t :=
  mk (nodeRect r) (pixelRect r) (isPendingRectCalculation r) (isTransforming r)
    (transformMode r) (interactionMode r) (isDragEnabled r) (isTransformEnabled r)
    (isProcessing r) (silentTransform r) v (proxyRect r) (warpSourceCanvas r)
    (warpSourceRect r) (warpCorners r) (calculateRectTimer r) (bboxRequest r).

Definition set_proxyRect (v : ProxyRect.t) (r : t) : t :=
  mk (nodeRect r) (pixelRect r) (isPendingRectCalculation r) (isTransforming r)
    (transformMode r) (interactionMode r) (isDragEnabled r) (isTransformEnabled r)
    (isProcessing r) (silentTransform r) (transformMutex r) v (warpSourceCanvas r)
    (warpSourceRect r) (warpCorners r) (calculateRectTimer r) (bboxRequest r).

Definition set_warpSourceCanvas (v : option Canvas.t) (r : t) : t :=
  mk (nodeRect r) (pixelRect r) (isPendingRectCalculation r) (isTransforming r)
    (transformMode r) (interactionMode r) (isDragEnabled r) (isTransformEnabled r)
    (isProcessing r) (silentTransform r) (transformMutex r) (proxyRect r) v
    (warpSourceRect r) (warpCorners r) (calculateRectTimer r) (bboxRequest r).

Definition set_warpSourceRect (v : option Rect.t) (r : t) : t :=
  mk (nodeRect r) (pixelRect r) (isPendingRectCalculation r) (isTransforming r)
    (transformMode r) (interactionMode r) (isDragEnabled r) (isTransformEnabled r)
    (isProcessing r) (silentTransform r) (transformMutex r) (proxyRect r)
    (warpSourceCanvas r) v (warpCorners r) (calculateRectTimer r) (bboxRequest r).

Definition set_warpCorners (v : option WarpCorners.t) (r : t) : t :=
  mk (nodeRect r) (pixelRect r) (isPendingRectCalculation r) (isTransforming r)
    (transformMode r) (interactionMode r) (isDragEnabled r) (isTransformEnabled r)
    (isProcessing r) (silentTransform r) (transformMutex r) (proxyRect r)
    (warpSourceCanvas r) (warpSourceRect r) v (calculateRectTimer r) (bboxRequest r).

Definition set_calculateRectTimer (v : bool) (r : t) : t :=
  mk (nodeRect r) (pixelRect r) (isPendingRectCalculation r) (isTransforming r)
    (transformMode r) (interactionMode r) (isDragEnabled r) (isTransformEnabled r)
    (isProcessing r) (silentTransform r) (transformMutex r) (proxyRect r)
    (warpSourceCanvas r) (warpSourceRect r) (warpCorners r) v (bboxRequest r).

Definition set_bboxRequest (v : option Rect.t) (r : t) : t :=
  mk (nodeRect r) (pixelRect r) (isPendingRectCalculation r) (isTransforming r)
    (transformMode r) (interactionMode r) (isDragEnabled r) (isTransformEnabled r)
    (isProcessing r) (silentTransform r) (transformMutex r) (proxyRect r)
    (warpSourceCanvas r) (warpSourceRect r) (warpCorners r) (calculateRectTimer r) v.

(** Calls on the collaborators, in the order they are made.  A scene-graph
    node that the transformer only writes is not part of its state: a write is
    recorded as an event. *)
Inductive Level : Type := trace | debug | warn | error.

Inductive Node : Type :=
| outlineRect | transformerNode | proxyRectNode | warpGroup | warpDragArea
| warpAnchors | warpSideAnchors | warpPreview | warpOutline
| objectGroup | bufferGroup | layer.

Inductive Event : Type :=
| Log (level : Level) (msg : string)
| Listening (node : Node) (on : bool)
| Visible (node : Node) (on : bool)
| SetAttrs (node : Node)
| Draw (node : Node)
| TransformerNodes (attached : bool)
| HideObjects
| ShowObjects
| ResetEntity
| Rasterize
| RasterizeCanvas (warped : Warp.Warped)
| WarpPreviewImage (warped : Warp.Warped)
| WaitForRasterizationToFinish
| SyncObjects
| Toast (title : string)
| CanvasCacheSet
| RequestBbox
| RunBboxUpdatedCallbacks.

(** The canvas as far as transforms go: the pointer to the adapter being
    transformed ([manager.stateApi.$transformingAdapter]), the transformer of
    every entity, and the calls made so far. *)
Record World : Type := mkWorld {
  transformingAdapter : option EntityId;
  transformers : EntityId -> t;
  events : list Event
}.

(** A method either returns, or throws, or is left waiting on the lock. *)
Inductive Outcome (A : Type) : Type :=
| Done (a : A)
| Thrown (msg : string)
| Awaiting.

Arguments Done {A} a.
Arguments Thrown {A} msg.
Arguments Awaiting {A}.

Definition Op (A : Type) : Type := World -> Outcome A * World.

Definition ret {A : Type} (a : A) : Op A := fun w => (Done a, w).

Definition bind {A B : Type} (m : Op A) (k : A -> Op B) : Op B :=
  fun w =>
    match m w with
    | (Done a, w') => k a w'
    | (Thrown msg, w') => (Thrown msg, w')
    | (Awaiting, w') => (Awaiting, w')
    end.

Notation "x <- m ;; k" := (bind m (fun x => k))
  (at level 61, m at next level, right associativity).
Notation "m ;; k" := (bind m (fun _ => k))
  (at level 61, right associativity).

Definition throw {A : Type} (msg : string) : Op A := fun w => (Thrown msg, w).

Definition await {A : Type} : Op A := fun w => (Awaiting, w).

(** A call of an async method that is not awaited. *)
Definition detached (m : Op unit) : Op unit := fun w => (Done tt, snd (m w)).

(** [withResultAsync]: a thrown error becomes a value. *)
Definition withResultAsync (m : Op unit) : Op (option string) :=
  fun w =>
    match m w with
    | (Done _, w') => (Done None, w')
    | (Thrown msg, w') => (Done (Some msg), w')
    | (Awaiting, w') => (Awaiting, w')
    end.

Definition emit (e : Event) : Op unit :=
  fun w => (Done tt, mkWorld (transformingAdapter w) (transformers w) (events w ++ [e])).

Definition log (level : Level) (msg : string) : Op unit := emit (Log level msg).

Definition getTransformingAdapter : Op (option EntityId) :=
  fun w => (Done (transformingAdapter w), w).

Definition setTransformingAdapter (a : option EntityId) : Op unit :=
  fun w => (Done tt, mkWorld a (transformers w) (events w)).

Definition isTrue (o : option bool) : bool :=
  match o with Some true => true | _ => false end.

Section Methods.

Variable env : Env.
Variable self : EntityId.

Definition this : Op t := fun w => (Done (transformers w self), w).

Definition modify (f : t -> t) : Op unit :=
  fun w =>
    (Done tt,
     mkWorld (transformingAdapter w)
       (fun id => if String.eqb id self then f (transformers w id) else transformers w id)
       (events w)).

Definition _enableTransform : Op unit :=
  modify (set_isTransformEnabled true) ;;
  emit (Visible transformerNode true) ;;
  emit (Listening transformerNode true) ;;
  emit (TransformerNodes true).

Definition _disableTransform : Op unit :=
  modify (set_isTransformEnabled false) ;;
  emit (Visible transformerNode false) ;;
  emit (Listening transformerNode false) ;;
  emit (TransformerNodes false).

Definition _enableDrag : Op unit :=
  modify (set_isDragEnabled true) ;;
  emit (Visible proxyRectNode true) ;;
  emit (Listening proxyRectNode true).

Definition _disableDrag : Op unit :=
  modify (set_isDragEnabled false) ;;
  emit (Visible proxyRectNode false) ;;
  emit (Listening proxyRectNode false).

Definition _disableWarp : Op unit :=
  emit (Visible warpGroup false) ;;
  emit (Listening warpGroup false) ;;
  emit (Listening warpDragArea false) ;;
  emit (Listening warpAnchors false) ;;
  emit (Listening warpSideAnchors false).

Definition _showBboxOutline : Op unit := emit (Visible outlineRect true).

Definition _hideBboxOutline : Op unit := emit (Visible outlineRect false).

Definition syncWarpScale : Op unit :=
  emit (SetAttrs warpOutline) ;;
  emit (SetAttrs warpAnchors) ;;
  emit (SetAttrs warpSideAnchors).

Definition updateWarpPreviewImage : Op unit :=
  me <- this ;;
  match Warp.getWarpedCanvas (warpSourceCanvas me) (warpCorners me) (Some Warp.preview) with
  | None => ret tt
  | Some warped => emit (SetAttrs warpPreview) ;; emit (WarpPreviewImage warped)
  end.

Definition updateWarpNodes : Op unit :=
  me <- this ;;
  match warpCorners me with
  | None => ret tt
  | Some _ =>
      emit (SetAttrs warpOutline) ;;
      emit (SetAttrs warpDragArea) ;;
      emit (SetAttrs warpAnchors) ;;
      emit (SetAttrs warpSideAnchors) ;;
      updateWarpPreviewImage ;;
      emit (Draw layer) ;;
      emit (Draw warpPreview)
  end.

(** The 2D context of the scratch canvas is taken to exist. *)
Definition prepareWarpPreview : Op unit :=
  me <- this ;;
  if negb (isTransforming me) then ret tt
  else
    let rect := proxyClientRect env (proxyRect me) in
    if JS.is_zero (Rect.width rect) || JS.is_zero (Rect.height rect) then ret tt
    else
      let canvas := rendererCanvas env rect in
      let rotation := ProxyRect.rotation (proxyRect me) in
      let source :=
        if negb (JS.is_zero rotation) then
          Canvas.mk
            (Qmax 1 (JS.round (Qabs (ProxyRect.width (proxyRect me)
                                      * ProxyRect.scaleX (proxyRect me)))))
            (Qmax 1 (JS.round (Qabs (ProxyRect.height (proxyRect me)
                                      * ProxyRect.scaleY (proxyRect me)))))
        else canvas in
      modify (set_warpSourceCanvas (Some source)) ;;
      modify (set_warpSourceRect (Some rect)) ;;
      modify (set_warpCorners (Some (proxyRectCorners env (proxyRect me)))) ;;
      emit (Visible warpGroup true) ;;
      emit (Listening warpGroup true) ;;
      emit (Listening warpDragArea true) ;;
      emit (Listening warpAnchors true) ;;
      emit (Listening warpSideAnchors true) ;;
      emit HideObjects ;;
      syncWarpScale ;;
      updateWarpNodes.

Definition _enableWarp : Op unit :=
  emit (Visible warpGroup true) ;;
  emit (Listening warpGroup true) ;;
  emit (Listening warpDragArea true) ;;
  emit (Listening warpAnchors true) ;;
  emit (Listening warpSideAnchors true) ;;
  emit HideObjects ;;
  me <- this ;;
  match warpSourceCanvas me with
  | None => prepareWarpPreview
  | Some _ => ret tt
  end.

Definition _setInteractionMode (interactionMode : InteractionMode) : Op unit :=
  modify (set_interactionMode interactionMode) ;;
  match interactionMode with
  | drag =>
      _enableDrag ;; _disableTransform ;; _disableWarp ;; _showBboxOutline
  | all =>
      me <- this ;;
      match transformMode me with
      | warp => _disableDrag ;; _disableTransform ;; _enableWarp
      | affine => _enableDrag ;; _disableWarp ;; _enableTransform
      end ;;
      _hideBboxOutline
  | off =>
      _disableDrag ;; _disableTransform ;; _disableWarp ;; _hideBboxOutline
  end.

Definition syncInteractionState : Op unit :=
  log trace "Syncing interaction state" ;;
  me <- this ;;
  if isStaging env then
    emit (Listening layer false) ;; _setInteractionMode off
  else if isTrue (isSegmenting env) then
    emit (Listening layer true) ;; _setInteractionMode off
  else if isTrue (isFiltering env) then
    emit (Listening layer false) ;; _setInteractionMode off
  else if stateApi_isTransforming env && negb (isTransforming me) then
    emit (Listening layer false) ;; _setInteractionMode off
  else if isPendingRectCalculation me
          || JS.is_zero (Rect.width (pixelRect me))
          || JS.is_zero (Rect.height (pixelRect me)) then
    emit (Listening layer false) ;; _setInteractionMode off
  else if negb (isSelected env) then
    emit (Listening layer false) ;; _setInteractionMode off
  else if isEmpty env then
    emit (Listening layer false) ;; _setInteractionMode off
  else if isLocked env then
    emit (Listening layer false) ;; _setInteractionMode off
  else if negb (isTransforming me) && String.eqb (tool env) "move" then
    emit (Listening layer true) ;; _setInteractionMode drag
  else if isTransforming me then
    if String.eqb (tool env) "view" then
      emit (Listening layer false) ;; _setInteractionMode off
    else
      emit (Listening layer true) ;; _setInteractionMode all
  else
    emit (Listening layer false) ;; _setInteractionMode off.

Definition syncObjectGroupWithProxyRect : Op unit := emit (SetAttrs objectGroup).

Definition update (position : Coordinate.t) (bbox : Rect.t) : Op unit :=
  emit (SetAttrs outlineRect) ;;
  modify (fun me =>
    set_proxyRect
      (ProxyRect.set_x (Coordinate.x position + Rect.x bbox)
         (ProxyRect.set_y (Coordinate.y position + Rect.y bbox)
            (ProxyRect.set_width (Rect.width bbox)
               (ProxyRect.set_height (Rect.height bbox) (proxyRect me)))))
      me).

Definition updatePosition (arg : option Coordinate.t) : Op unit :=
  log trace "Updating position" ;;
  let position := match arg with Some p => p | None => position env end in
  me <- this ;;
  let pixelRect := pixelRect me in
  emit (SetAttrs objectGroup) ;;
  emit (SetAttrs bufferGroup) ;;
  update position pixelRect.

Definition updateBbox : Op unit :=
  me <- this ;;
  let pixelRect := pixelRect me in
  log trace "Updating bbox" ;;
  if isPendingRectCalculation me then syncInteractionState
  else if JS.is_zero (Rect.width pixelRect) || JS.is_zero (Rect.height pixelRect) then
    (if negb (isTransforming me) && negb (isProcessing me) then
       if hasObjects env then emit ResetEntity else ret tt
     else ret tt) ;;
    syncInteractionState
  else
    syncInteractionState ;;
    update (position env) pixelRect ;;
    emit (SetAttrs objectGroup) ;;
    emit (SetAttrs bufferGroup) ;;
    emit RunBboxUpdatedCallbacks.

Definition resetScale : Op unit :=
  emit (SetAttrs objectGroup) ;;
  emit (SetAttrs bufferGroup) ;;
  emit (SetAttrs outlineRect) ;;
  modify (fun me =>
    set_proxyRect
      (ProxyRect.set_scaleX 1
         (ProxyRect.set_scaleY 1 (ProxyRect.set_rotation 0 (proxyRect me))))
      me).

Definition resetTransform : Op unit :=
  resetScale ;; updatePosition None ;; updateBbox.

Definition teardownWarpPreview : Op unit :=
  modify (set_warpSourceCanvas None) ;;
  modify (set_warpSourceRect None) ;;
  modify (set_warpCorners None) ;;
  emit (Visible warpGroup false) ;;
  emit (Listening warpGroup false) ;;
  emit (Listening warpDragArea false) ;;
  emit (Listening warpAnchors false) ;;
  emit (Listening warpSideAnchors false) ;;
  emit ShowObjects.

(** [transformMutex.acquire()]: [true] when the lock is taken at once,
    [false] when the caller is queued behind the holder. *)
Definition acquire (waiter : Mutex.Waiter) : Op bool :=
  me <- this ;;
  let mutex := transformMutex me in
  if Mutex.locked mutex then
    modify (set_transformMutex (Mutex.mk true (Mutex.waiting mutex ++ [waiter]))) ;;
    ret false
  else
    modify (set_transformMutex (Mutex.mk true (Mutex.waiting mutex))) ;;
    ret true.

(** The part of [startTransform] after the lock is held. *)
Definition startTransform_locked (silent : bool) : Op unit :=
  log debug "Starting transform" ;;
  modify (set_silentTransform silent) ;;
  modify (set_isTransforming true) ;;
  setTransformingAdapter (Some self) ;;
  me <- this ;;
  match transformMode me with
  | affine => ret tt
  | warp => modify (set_transformMode affine)
  end ;;
  teardownWarpPreview ;;
  syncInteractionState.

Definition startTransform (arg : option bool) : Op unit :=
  transformingAdapter <- getTransformingAdapter ;;
  match transformingAdapter with
  | Some adapter => throw ("Already transforming an entity: " ++ adapter)%string
  | None =>
      let silent := match arg with Some silent => silent | None => false end in
      acquired <- acquire (Mutex.StartTransform silent) ;;
      if acquired then startTransform_locked silent else await
  end.

(** The part of [requestRectCalculation] after the lock is held; the call of
    the debounced [calculateRect] arms its timer. *)
Definition requestRectCalculation_locked : Op unit :=
  modify (set_isPendingRectCalculation true) ;;
  syncInteractionState ;;
  modify (set_calculateRectTimer true).

Definition requestRectCalculation : Op unit :=
  acquired <- acquire Mutex.RequestRectCalculation ;;
  if acquired then requestRectCalculation_locked else await.

(** [transformMutex.release()]: the lock goes to the first waiter, which then
    runs on, or is freed when nobody waits. *)
Definition release : Op unit :=
  me <- this ;;
  match Mutex.waiting (transformMutex me) with
  | [] => modify (set_transformMutex (Mutex.mk false []))
  | waiter :: rest =>
      modify (set_transformMutex (Mutex.mk true rest)) ;;
      detached
        match waiter with
        | Mutex.StartTransform silent => startTransform_locked silent
        | Mutex.RequestRectCalculation => requestRectCalculation_locked
        end
  end.

Definition stopTransform : Op unit :=
  log debug "Stopping transform" ;;
  modify (set_isTransforming false) ;;
  teardownWarpPreview ;;
  emit ShowObjects ;;
  resetTransform ;;
  syncInteractionState ;;
  setTransformingAdapter None ;;
  modify (set_isProcessing false) ;;
  release.

Definition updateWarpBBoxFromCorners : Op unit :=
  me <- this ;;
  match warpCorners me with
  | None => ret tt
  | Some corners =>
      let tl := WarpCorners.tl corners in let tr := WarpCorners.tr corners in
      let br := WarpCorners.br corners in let bl := WarpCorners.bl corners in
      let minX := Warp.min4 (Coordinate.x tl) (Coordinate.x tr) (Coordinate.x br) (Coordinate.x bl) in
      let maxX := Warp.max4 (Coordinate.x tl) (Coordinate.x tr) (Coordinate.x br) (Coordinate.x bl) in
      let minY := Warp.min4 (Coordinate.y tl) (Coordinate.y tr) (Coordinate.y br) (Coordinate.y bl) in
      let maxY := Warp.max4 (Coordinate.y tl) (Coordinate.y tr) (Coordinate.y br) (Coordinate.y bl) in
      let width := Qmax 1 (maxX - minX) in
      let height := Qmax 1 (maxY - minY) in
      modify (set_proxyRect (ProxyRect.mk minX minY width height 1 1 0)) ;;
      emit (SetAttrs outlineRect)
  end.

Definition applyWarpTransform : Op unit :=
  me <- this ;;
  match warpSourceCanvas me, warpCorners me with
  | Some _, Some _ =>
      updateWarpBBoxFromCorners ;;
      match Warp.getWarpedCanvas (warpSourceCanvas me) (warpCorners me) (Some Warp.final) with
      | None => throw "Missing warp source"
      | Some warped =>
          if rasterizeCanvasFails env then throw "rasterizeCanvas"
          else
            emit (RasterizeCanvas warped) ;;
            emit WaitForRasterizationToFinish ;;
            emit SyncObjects ;;
            detached requestRectCalculation
      end
  | _, _ => throw "Missing warp source"
  end.

Definition applyWarning : string :=
  "Cannot apply transform when not transforming. Did you forget to call `await adapter.transformer.startTransform()`?".

Definition applyTransform : Op unit :=
  me <- this ;;
  if negb (isTransforming me) then log warn applyWarning
  else
    log debug "Applying transform" ;;
    modify (set_isProcessing true) ;;
    match transformMode me with
    | warp =>
        modify (set_interactionMode off) ;;
        _disableDrag ;;
        _disableTransform ;;
        emit (Listening warpGroup false) ;;
        emit (Listening warpDragArea false) ;;
        emit (Listening warpAnchors false) ;;
        emit (Listening warpSideAnchors false) ;;
        result <- withResultAsync applyWarpTransform ;;
        match result with
        | Some _ =>
            emit (Toast "Failed to apply transform") ;;
            log error "Failed to apply warp transform"
        | None => ret tt
        end
    | affine =>
        _setInteractionMode off ;;
        if rasterizeFails env then
          emit (Toast "Failed to apply transform") ;;
          log error "Failed to rasterize entity"
        else emit Rasterize
    end ;;
    detached requestRectCalculation ;;
    stopTransform.

(** The body of the debounced [calculateRect], up to the request sent to the
    worker. *)
Definition calculateRect : Op unit :=
  log debug "Calculating bbox" ;;
  if getCanvasFails env then
    log error "Failed to get canvas, resetting bbox" ;;
    modify (set_nodeRect Util.getEmptyRect) ;;
    modify (set_pixelRect Util.getEmptyRect) ;;
    modify (set_isPendingRectCalculation false) ;;
    release
  else if negb (hasObjects env) then
    log trace "No objects, resetting bbox" ;;
    modify (set_nodeRect Util.getEmptyRect) ;;
    modify (set_pixelRect Util.getEmptyRect) ;;
    emit CanvasCacheSet ;;
    modify (set_isPendingRectCalculation false) ;;
    updateBbox ;;
    release
  else
    let rect := objectGroupClientRect env in
    if negb (needsPixelBbox env) then
      modify (set_nodeRect rect) ;;
      modify (set_pixelRect rect) ;;
      log trace "Got bbox from client rect" ;;
      emit CanvasCacheSet ;;
      modify (set_isPendingRectCalculation false) ;;
      updateBbox ;;
      release
    else
      emit RequestBbox ;;
      modify (set_bboxRequest (Some rect)).

(** The callback given to [worker.requestBbox], run with the worker's answer. *)
Definition bboxCallback (extents : option Extents) : Op unit :=
  me <- this ;;
  match bboxRequest me with
  | None => ret tt
  | Some rect =>
      modify (set_bboxRequest None) ;;
      match extents with
      | Some e =>
          modify (set_nodeRect rect) ;;
          modify (set_pixelRect
                    (Rect.mk (JS.round (Rect.x rect) + minX e)
                             (JS.round (Rect.y rect) + minY e)
                             (maxX e - minX e)
                             (maxY e - minY e)))
      | None =>
          let fallback :=
            Rect.mk (JS.round (Rect.x rect)) (JS.round (Rect.y rect))
                    (JS.round (Rect.width rect)) (JS.round (Rect.height rect)) in
          modify (set_nodeRect rect) ;;
          modify (set_pixelRect fallback)
      end ;;
      log trace "Got bbox from worker" ;;
      emit CanvasCacheSet ;;
      modify (set_isPendingRectCalculation false) ;;
      updateBbox ;;
      release
  end.

(** The timer of the debounced [calculateRect] fires. *)
Definition calculateRect_fire : Op unit :=
  me <- this ;;
  if calculateRectTimer me then
    modify (set_calculateRectTimer false) ;; calculateRect
  else ret tt.

(** *** Affine transform controller *)

Definition snapProxyRectToPixelGrid : Op unit :=
  me <- this ;;
  let x := ProxyRect.x (proxyRect me) in
  let y := ProxyRect.y (proxyRect me) in
  let snappedX := JS.round x in
  let snappedY := JS.round y in
  let width := ProxyRect.width (proxyRect me) in
  let height := ProxyRect.height (proxyRect me) in
  let scaleX := ProxyRect.scaleX (proxyRect me) in
  let scaleY := ProxyRect.scaleY (proxyRect me) in
  let targetWidth := Qmax (Qabs (JS.round (width * scaleX))) 1 in
  let targetHeight := Qmax (Qabs (JS.round (height * scaleY))) 1 in
  let snappedScaleX := (targetWidth / width) * JS.sign scaleX in
  let snappedScaleY := (targetHeight / height) * JS.sign scaleY in
  modify (fun me =>
    set_proxyRect
      (ProxyRect.set_x snappedX
         (ProxyRect.set_y snappedY
            (ProxyRect.set_scaleX snappedScaleX
               (ProxyRect.set_scaleY snappedScaleY (proxyRect me)))))
      me) ;;
  syncObjectGroupWithProxyRect.

Definition fitWarning : string :=
  "Cannot fit to bbox contain when transform is disabled. Did you forget to call `await adapter.transformer.startTransform()`?".

Definition fitToBboxFill : Op unit :=
  me <- this ;;
  if negb (isTransformEnabled me) then log warn fitWarning
  else
    let rect := bbox env in
    let scaleX := Rect.width rect / ProxyRect.width (proxyRect me) in
    let scaleY := Rect.height rect / ProxyRect.height (proxyRect me) in
    modify (fun me =>
      set_proxyRect
        (ProxyRect.set_x (Rect.x rect)
           (ProxyRect.set_y (Rect.y rect)
              (ProxyRect.set_scaleX scaleX
                 (ProxyRect.set_scaleY scaleY
                    (ProxyRect.set_rotation 0 (proxyRect me))))))
        me) ;;
    syncObjectGroupWithProxyRect.

Definition fitToBboxContain : Op unit :=
  me <- this ;;
  if negb (isTransformEnabled me) then log warn fitWarning
  else
    let rect := bbox env in
    let gridSize := positionGridSize env in
    let width := ProxyRect.width (proxyRect me) in
    let height := ProxyRect.height (proxyRect me) in
    let scaleX := Rect.width rect / width in
    let scaleY := Rect.height rect / height in
    let scale := Qmin scaleX scaleY in
    let scaledWidth := width * scale in
    let scaledHeight := height * scale in
    let centerX := Rect.x rect + (Rect.width rect - scaledWidth) / 2 in
    let centerY := Rect.y rect + (Rect.height rect - scaledHeight) / 2 in
    let roundedX := if JS.gtb gridSize 1 then Util.roundToMultiple centerX gridSize else centerX in
    let roundedY := if JS.gtb gridSize 1 then Util.roundToMultiple centerY gridSize else centerY in
    let x := Util.clamp roundedX (Rect.x rect) (Rect.x rect + Rect.width rect - scaledWidth) in
    let y := Util.clamp roundedY (Rect.y rect) (Rect.y rect + Rect.height rect - scaledHeight) in
    modify (fun me =>
      set_proxyRect
        (ProxyRect.set_x x
           (ProxyRect.set_y y
              (ProxyRect.set_scaleX scale
                 (ProxyRect.set_scaleY scale
                    (ProxyRect.set_rotation 0 (proxyRect me))))))
        me) ;;
    syncObjectGroupWithProxyRect.

Definition fitToBboxCover : Op unit :=
  me <- this ;;
  if negb (isTransformEnabled me) then log warn fitWarning
  else
    let rect := bbox env in
    let gridSize := positionGridSize env in
    let width := ProxyRect.width (proxyRect me) in
    let height := ProxyRect.height (proxyRect me) in
    let scaleX := Rect.width rect / width in
    let scaleY := Rect.height rect / height in
    let scale := Qmax scaleX scaleY in
    let scaledWidth := width * scale in
    let scaledHeight := height * scale in
    let x :=
      if JS.gtb scaledWidth (Rect.width rect) then
        let centerX := Rect.x rect + (Rect.width rect - scaledWidth) / 2 in
        if JS.gtb gridSize 1 then Util.roundToMultiple centerX gridSize else centerX
      else Rect.x rect in
    let y :=
      if JS.gtb scaledHeight (Rect.height rect) then
        let centerY := Rect.y rect + (Rect.height rect - scaledHeight) / 2 in
        if JS.gtb gridSize 1 then Util.roundToMultiple centerY gridSize else centerY
      else Rect.y rect in
    modify (fun me =>
      set_proxyRect
        (ProxyRect.set_x x
           (ProxyRect.set_y y
              (ProxyRect.set_scaleX scale
                 (ProxyRect.set_scaleY scale
                    (ProxyRect.set_rotation 0 (proxyRect me))))))
        me) ;;
    syncObjectGroupWithProxyRect.

(** *** Grid snapping of anchors *)

Definition snapWarpAnchor (pos : Coordinate.t) : Coordinate.t :=
  let gridSize := positionGridSize env in
  if Qle_bool gridSize 1 then pos
  else
    let stageScale := stageScale env in
    let stagePos := stagePosition env in
    let targetX := Util.roundToMultiple (Coordinate.x pos / stageScale) gridSize in
    let targetY := Util.roundToMultiple (Coordinate.y pos / stageScale) gridSize in
    let scaledOffsetX := JS.rem (Coordinate.x stagePos) (stageScale * gridSize) in
    let scaledOffsetY := JS.rem (Coordinate.y stagePos) (stageScale * gridSize) in
    Coordinate.mk (targetX * stageScale + scaledOffsetX)
                  (targetY * stageScale + scaledOffsetY).


End Methods.

End Transformer.

(** ** The affine controller in binary64 *)

(** The numbers of the source are IEEE 754 doubles; elsewhere they are taken
    as exact rationals.  This module has the arithmetic of the affine
    controller on the doubles themselves, statement by statement as the source
    has it, with the operations of the processor: it shows where the doubles
    leave the rationals. *)
Module Binary64.
Import PrimFloat.
Local Open Scope float_scope.

(** Beyond [2^52] every double is whole. *)
Definition two52 : float := 4503599627370496.

(** [Math.floor]: the nearest whole number, found by adding and taking off
    [2^52], and one less when that is above. *)
Definition floor (x : float) : float :=
  if two52 <=? abs x then x
  else
    let nearest := if 0 <=? x then (x + two52) - two52 else (x - two52) + two52 in
    if x <? nearest then nearest - 1 else nearest.

(** [Math.round]: the nearest whole number, ties towards plus infinity (a
    zero is answered without the sign that [Math.round] gives it). *)
Definition round (x : float) : float :=
  let below := floor x in
  if 0.5 <=? x - below then below + 1 else below.

(** [Math.sign]: a zero and NaN are answered as they are. *)
Definition sign (x : float) : float :=
  if 0 <? x then 1 else if x <? 0 then -1 else x.

(** [Math.max] and [Math.min] of two numbers, neither of them NaN. *)
Definition max (a b : float) : float := if a <? b then b else a.

Definition min (a b : float) : float := if b <? a then b else a.

(** Modelled from the spec: [roundToMultiple], as in [Util]. *)
Definition roundToMultiple (value gridSize : float) : float :=
  round (value / gridSize) * gridSize.

(** [clamp] of es-toolkit, as in [Util]. *)
Definition clamp (value lower upper : float) : float := min (max value lower) upper.

Record Rect : Type := mkRect { rx : float; ry : float; rwidth : float; rheight : float }.

Record ProxyRect : Type := mkProxyRect {
  x : float; y : float; width : float; height : float;
  scaleX : float; scaleY : float; rotation : float
}.

(** The attributes that [snapProxyRectToPixelGrid] writes. *)
Definition snapProxyRectToPixelGrid (p : ProxyRect) : ProxyRect :=
  let snappedX := round (x p) in
  let snappedY := round (y p) in
  let targetWidth := max (abs (round (width p * scaleX p))) 1 in
  let targetHeight := max (abs (round (height p * scaleY p))) 1 in
  let snappedScaleX := (targetWidth / width p) * sign (scaleX p) in
  let snappedScaleY := (targetHeight / height p) * sign (scaleY p) in
  mkProxyRect snappedX snappedY (width p) (height p) snappedScaleX snappedScaleY (rotation p).

(** The attributes that [fitToBboxFill], [fitToBboxContain] and
    [fitToBboxCover] write when the transform is enabled. *)
Definition fitToBboxFill (rect : Rect) (p : ProxyRect) : ProxyRect :=
  let scaleX := rwidth rect / width p in
  let scaleY := rheight rect / height p in
  mkProxyRect (rx rect) (ry rect) (width p) (height p) scaleX scaleY 0.

Definition fitToBboxContain (rect : Rect) (gridSize : float) (p : ProxyRect) : ProxyRect :=
  let scaleX := rwidth rect / width p in
  let scaleY := rheight rect / height p in
  let scale := min scaleX scaleY in
  let scaledWidth := width p * scale in
  let scaledHeight := height p * scale in
  let centerX := rx rect + (rwidth rect - scaledWidth) / 2 in
  let centerY := ry rect + (rheight rect - scaledHeight) / 2 in
  let roundedX := if 1 <? gridSize then roundToMultiple centerX gridSize else centerX in
  let roundedY := if 1 <? gridSize then roundToMultiple centerY gridSize else centerY in
  let x := clamp roundedX (rx rect) (rx rect + rwidth rect - scaledWidth) in
  let y := clamp roundedY (ry rect) (ry rect + rheight rect - scaledHeight) in
  mkProxyRect x y (width p) (height p) scale scale 0.

Definition fitToBboxCover (rect : Rect) (gridSize : float) (p : ProxyRect) : ProxyRect :=
  let scaleX := rwidth rect / width p in
  let scaleY := rheight rect / height p in
  let scale := max scaleX scaleY in
  let scaledWidth := width p * scale in
  let scaledHeight := height p * scale in
  let x :=
    if rwidth rect <? scaledWidth then
      let centerX := rx rect + (rwidth rect - scaledWidth) / 2 in
      if 1 <? gridSize then roundToMultiple centerX gridSize else centerX
    else rx rect in
  let y :=
    if rheight rect <? scaledHeight then
      let centerY := ry rect + (rheight rect - scaledHeight) / 2 in
      if 1 <? gridSize then roundToMultiple centerY gridSize else centerY
    else ry rect in
  mkProxyRect x y (width p) (height p) scale scale 0.

(** On one axis, the interval from [pos] to [pos + size] lies inside the one
    from [lo] to [lo + len], or covers it. *)
Definition inside (pos size lo len : float) : bool :=
  (lo <=? pos) && (pos + size <=? lo + len).

Definition covers (pos size lo len : float) : bool :=
  (pos <=? lo) && (lo + len <=? pos + size).

End Binary64.

(** ** Vocabulary of the properties *)

Module Spec.
Import Homography Transformer.

(** *** Linear systems *)

(** The sum of [f 0], ..., [f (n - 1)]. *)
Fixpoint sumQ (n : nat) (f : nat -> Q) : Q :=
  match n with
  | O => 0
  | S k => sumQ k f + f k
  end.

(** The entries of the identity matrix. *)
Definition delta (r c : nat) : Q := if Nat.eqb r c then 1 else 0.

(** [x] solves the first [n] rows of the augmented matrix [M]. *)
Definition satisfies (n : nat) (M : Matrix) (x : nat -> Q) : Prop :=
  forall r, (r < n)%nat -> sumQ n (fun c => at2 M r c * x c) == at2 M r n.

(** The first [k] columns of [M] are those of the identity. *)
Definition reduced (n k : nat) (M : Matrix) : Prop :=
  forall r c, (r < n)%nat -> (c < k)%nat -> at2 M r c == delta r c.

(** *** Points, intervals and grid cells *)

(** Two points with equal coordinates. *)
Definition coord_eq (p q : Coordinate.t) : Prop :=
  Coordinate.x p == Coordinate.x q /\ Coordinate.y p == Coordinate.y q.

(** On one axis, the interval from [pos] to [pos + size] lies inside the one
    from [lo] to [lo + len], or covers it. *)
Definition inside (pos size lo len : Q) : Prop := lo <= pos /\ pos + size <= lo + len.

Definition covers (pos size lo len : Q) : Prop := pos <= lo /\ lo + len <= pos + size.



(** *** Observations of the world *)

(** The proxy rect of an entity after a method has run. *)
Definition proxyRectAfter (self : EntityId) (m : Op unit) (w : World) : ProxyRect.t :=
  proxyRect (transformers (snd (m w)) self).

(** A method keeps an observation of the world when it always returns and the
    observation is the same afterwards. *)
Definition keeps {A B : Type} (obs : World -> A) (m : Op B) : Prop :=
  forall w, (exists b, fst (m w) = Done b) /\ obs (snd (m w)) = obs w.

(** An observation of the fields of one transformer. *)
Definition stateObs {A : Type} (self : EntityId) (f : Transformer.t -> A) : World -> A :=
  fun w => f (transformers w self).

(** The number of times the entity state was reset. *)
Definition isReset (e : Event) : bool :=
  match e with ResetEntity => true | _ => false end.

Definition resets (w : World) : nat := List.length (filter isReset (events w)).

(** The rects and the request pending at the worker. *)
Definition rects (me : Transformer.t) : Rect.t * Rect.t * option Rect.t :=
  (nodeRect me, pixelRect me, bboxRequest me).

(** *** The priority chain of the design document *)

(** The conditions of the chain, in the words of the design document. *)
Definition globallyBusy (env : Env) : bool := isStaging env.

Definition conflictingOperation (env : Env) : bool :=
  isTrue (isSegmenting env) || isTrue (isFiltering env).

Definition anotherEntityMidTransform (env : Env) (me : Transformer.t) : bool :=
  stateApi_isTransforming env && negb (isTransforming me).

Definition bboxPendingOrEntityEmpty (env : Env) (me : Transformer.t) : bool :=
  isPendingRectCalculation me
  || JS.is_zero (Rect.width (pixelRect me))
  || JS.is_zero (Rect.height (pixelRect me))
  || isEmpty env.

Definition entityNotSelected (env : Env) : bool := negb (isSelected env).

Definition entityLocked (env : Env) : bool := isLocked env.

(** The default that depends on the tool: during a transform everything is
    allowed unless the view tool is selected; outside of a transform the move
    tool allows dragging. *)
Definition toolDependentDefault (env : Env) (me : Transformer.t) : InteractionMode :=
  if isTransforming me then
    if String.eqb (tool env) "view" then off else all
  else
    if String.eqb (tool env) "move" then drag else off.

(** The first condition that holds decides. *)
Fixpoint firstMatch (chain : list (bool * InteractionMode)) (default : InteractionMode)
    : InteractionMode :=
  match chain with
  | [] => default
  | (condition, mode) :: rest => if condition then mode else firstMatch rest default
  end.

Definition priorityChain (env : Env) (me : Transformer.t) : InteractionMode :=
  firstMatch
    [(globallyBusy env, off);
     (conflictingOperation env, off);
     (anotherEntityMidTransform env me, off);
     (bboxPendingOrEntityEmpty env me, off);
     (entityNotSelected env, off);
     (entityLocked env, off)]
    (toolDependentDefault env me).

(** *** Bounding box and warp *)

(** One recomputation of the bounding box: the body of [calculateRect] and,
    when the worker was asked, its callback run with the worker's answer. *)
Definition recompute (env : Env) (self : EntityId) (answer : option Extents) : Op unit :=
  calculateRect env self ;; bboxCallback env self answer.




(** A paint operation that leaves the canvas as it was: a triangle whose
    destination is a single point, drawn through the zero transform. *)
Definition paintsNothing (op : Warp.DrawOp) : bool :=
  match op with
  | Warp.DrawImageStretched _ _ => false
  | Warp.DrawTriangle a b c d e f d0 d1 d2 _ =>
      JS.is_zero a && JS.is_zero b && JS.is_zero c && JS.is_zero d
      && JS.is_zero e && JS.is_zero f
      && Qeq_bool (Coordinate.x d0) (Coordinate.x d1)
      && Qeq_bool (Coordinate.y d0) (Coordinate.y d1)
      && Qeq_bool (Coordinate.x d0) (Coordinate.x d2)
      && Qeq_bool (Coordinate.y d0) (Coordinate.y d2)
  end.

End Spec.

(** ** Concrete surroundings and worlds *)

Module Examples.
Import Transformer.

(** Two raster layers. *)
Definition layerA : EntityId := "raster_layer:A"%string.

Definition layerB : EntityId := "raster_layer:B"%string.

(** A selected raster layer with eraser strokes, under the move tool, on a
    stage scaled by 1; Konva's geometry is that of an unrotated rect. *)
Definition exampleEnv (gridSize : Q) (stagePosition : Coordinate.t) : Env :=
  {| isStaging := false;
     isSegmenting := None;
     isFiltering := None;
     stateApi_isTransforming := false;
     tool := "move";
     isSelected := true;
     isEmpty := false;
     isLocked := false;
     hasObjects := true;
     needsPixelBbox := true;
     position := Coordinate.mk 0 0;
     positionGridSize := gridSize;
     shiftKey := true;
     stageScale := 1;
     Transformer.stagePosition := stagePosition;
     bbox := Rect.mk 0 0 512 512;
     rotaterActive := false;
     getCanvasFails := false;
     objectGroupClientRect := Rect.mk 0 0 64 64;
     proxyClientRect := fun p =>
       Rect.mk (ProxyRect.x p) (ProxyRect.y p)
               (ProxyRect.width p * ProxyRect.scaleX p)
               (ProxyRect.height p * ProxyRect.scaleY p);
     proxyRectCorners := fun p =>
       WarpCorners.mk
         (Coordinate.mk (ProxyRect.x p) (ProxyRect.y p))
         (Coordinate.mk (ProxyRect.x p + ProxyRect.width p * ProxyRect.scaleX p)
                        (ProxyRect.y p))
         (Coordinate.mk (ProxyRect.x p + ProxyRect.width p * ProxyRect.scaleX p)
                        (ProxyRect.y p + ProxyRect.height p * ProxyRect.scaleY p))
         (Coordinate.mk (ProxyRect.x p)
                        (ProxyRect.y p + ProxyRect.height p * ProxyRect.scaleY p));
     rendererCanvas := fun r => Canvas.mk (Rect.width r) (Rect.height r);
     rasterizeFails := false;
     rasterizeCanvasFails := false |}.

(** The same layer with the client rect of its objects given. *)
Definition erasedLayerEnv (rect : Rect.t) : Env :=
  let env := exampleEnv 1 (Coordinate.mk 0 0) in
  mkEnv (isStaging env) (isSegmenting env) (isFiltering env) (stateApi_isTransforming env)
    "brush" (isSelected env) (isEmpty env) (isLocked env) (hasObjects env)
    (needsPixelBbox env) (position env) (positionGridSize env) false (stageScale env)
    (Transformer.stagePosition env) (bbox env) (rotaterActive env) (getCanvasFails env)
    rect (proxyClientRect env) (proxyRectCorners env) (rendererCanvas env)
    (rasterizeFails env) (rasterizeCanvasFails env).

(** A transformer with a 64 by 64 bounding box. *)
Definition exampleTransformer (isTransforming isTransformEnabled isPending : bool)
    (interactionMode : InteractionMode) (mutex : Mutex.t) (pixelRect : Rect.t)
    (p : ProxyRect.t) : Transformer.t :=
  {| nodeRect := pixelRect;
     Transformer.pixelRect := pixelRect;
     isPendingRectCalculation := isPending;
     Transformer.isTransforming := isTransforming;
     transformMode := affine;
     Transformer.interactionMode := interactionMode;
     isDragEnabled := match interactionMode with off => false | _ => true end;
     Transformer.isTransformEnabled := isTransformEnabled;
     isProcessing := false;
     silentTransform := false;
     transformMutex := mutex;
     proxyRect := p;
     warpSourceCanvas := None;
     warpSourceRect := None;
     warpCorners := None;
     calculateRectTimer := false;
     bboxRequest := None |}.

(** Entity 0 is being transformed and holds the lock; its proxy rect is [p]. *)
Definition exampleWorld (p : ProxyRect.t) (isTransformEnabled : bool) : World :=
  mkWorld (Some layerA)
    (fun _ => exampleTransformer true isTransformEnabled false all (Mutex.mk true [])
                (Rect.mk 0 0 64 64) p)
    [].

(** Nothing is being transformed and nothing is pending. *)
Definition idleWorld : World :=
  mkWorld None
    (fun _ => exampleTransformer false false false drag (Mutex.mk false [])
                (Rect.mk 0 0 64 64) (ProxyRect.mk 0 0 64 64 1 1 0))
    [].

(** Nothing is being transformed, and every pixel of the layer was erased. *)
Definition erasedWorld : World :=
  mkWorld None
    (fun _ => exampleTransformer false false false off (Mutex.mk false [])
                (Rect.mk 0 0 0 0) (ProxyRect.mk 0 0 64 64 1 1 0))
    [].

(** A recomputation of the bounding box is under way: the lock is held and
    the pending flag is set. *)
Definition pendingWorld : World :=
  mkWorld None
    (fun _ => exampleTransformer false false true off (Mutex.mk true [])
                (Rect.mk 0 0 64 64) (ProxyRect.mk 0 0 64 64 1 1 0))
    [].

End Examples.

(** ** Pointer gestures and the switch between the transform modes *)

Module Gestures.
Import Transformer.

(** The names of the four side anchors. *)
Inductive WarpSide : Type := tm | mr | bm | ml.

(** The fields of the transformer that only the gesture handlers and
    [setTransformMode] use.  Of [affineSnapshot] the attributes of the proxy
    rect are kept; those of the object group are read from a node and written
    back to it, and a write to that node is an event. *)
Record t : Type := mk {
  warpDragStartPointer : option Coordinate.t;
  warpDragStartCorners : option WarpCorners.t;
  warpSideDragStartPointer : option Coordinate.t;
  warpSideDragStartCorners : option WarpCorners.t;
  warpSideDragKey : option WarpSide;
  affineSnapshot : option ProxyRect.t
}.

(** No gesture is under way and no snapshot is held. *)
Definition initial : t := mk None None None None None None.

Definition translate (dx dy : Q) (p : Coordinate.t) : Coordinate.t :=
  Coordinate.mk (Coordinate.x p + dx) (Coordinate.y p + dy).

Section Handlers.

Variable env : Env.
Variable self : EntityId.

(** [syncScale]; [transformer.forceUpdate()] is recorded as a draw of the
    transformer node. *)
Definition syncScale : Op unit :=
  emit (SetAttrs outlineRect) ;;
  emit (Draw transformerNode) ;;
  syncWarpScale.

(** [pointer] is what [getStagePointer] answers. *)
Definition onWarpDragStart (pointer : option Coordinate.t) (g : t) : Op t :=
  me <- this self ;;
  match warpCorners me with
  | None => ret g
  | Some corners =>
      match pointer with
      | None => ret g
      | Some p =>
          ret (mk (Some p) (Some corners)
                 (warpSideDragStartPointer g) (warpSideDragStartCorners g)
                 (warpSideDragKey g) (affineSnapshot g))
      end
  end.

Definition onWarpDragMove (pointer : option Coordinate.t) (g : t) : Op t :=
  match warpDragStartPointer g, warpDragStartCorners g with
  | Some start, Some s =>
      match pointer with
      | None => ret g
      | Some p =>
          let dx := Coordinate.x p - Coordinate.x start in
          let dy := Coordinate.y p - Coordinate.y start in
          modify self
            (set_warpCorners
               (Some (WarpCorners.mk
                        (translate dx dy (WarpCorners.tl s))
                        (translate dx dy (WarpCorners.tr s))
                        (translate dx dy (WarpCorners.br s))
                        (translate dx dy (WarpCorners.bl s))))) ;;
          updateWarpBBoxFromCorners self ;;
          updateWarpNodes self ;;
          ret g
      end
  | _, _ => ret g
  end.

Definition onWarpDragEnd (g : t) : Op t :=
  ret (mk None None
         (warpSideDragStartPointer g) (warpSideDragStartCorners g)
         (warpSideDragKey g) (affineSnapshot g)).

(** [key] is the last part of the name of the anchor that is dragged. *)
Definition onWarpSideDragStart (key : option WarpSide) (pointer : option Coordinate.t)
    (g : t) : Op t :=
  me <- this self ;;
  match warpCorners me with
  | None => ret g
  | Some corners =>
      match key with
      | None => ret g
      | Some key =>
          match pointer with
          | None => ret g
          | Some p =>
              ret (mk (warpDragStartPointer g) (warpDragStartCorners g)
                     (Some p) (Some corners) (Some key) (affineSnapshot g))
          end
      end
  end.

(** The corners after the edge [key] has followed the pointer by [dx], [dy]. *)
Definition moveSide (key : WarpSide) (dx dy : Q) (s : WarpCorners.t) : WarpCorners.t :=
  match key with
  | tm =>
      WarpCorners.mk (translate dx dy (WarpCorners.tl s)) (translate dx dy (WarpCorners.tr s))
        (WarpCorners.br s) (WarpCorners.bl s)
  | mr =>
      WarpCorners.mk (WarpCorners.tl s) (translate dx dy (WarpCorners.tr s))
        (translate dx dy (WarpCorners.br s)) (WarpCorners.bl s)
  | bm =>
      WarpCorners.mk (WarpCorners.tl s) (WarpCorners.tr s)
        (translate dx dy (WarpCorners.br s)) (translate dx dy (WarpCorners.bl s))
  | ml =>
      WarpCorners.mk (translate dx dy (WarpCorners.tl s)) (WarpCorners.tr s)
        (WarpCorners.br s) (translate dx dy (WarpCorners.bl s))
  end.

Definition onWarpSideDragMove (pointer : option Coordinate.t) (g : t) : Op t :=
  match warpSideDragKey g, warpSideDragStartPointer g, warpSideDragStartCorners g with
  | Some key, Some start, Some s =>
      match pointer with
      | None => ret g
      | Some p =>
          let dx := Coordinate.x p - Coordinate.x start in
          let dy := Coordinate.y p - Coordinate.y start in
          modify self (set_warpCorners (Some (moveSide key dx dy s))) ;;
          updateWarpBBoxFromCorners self ;;
          updateWarpNodes self ;;
          ret g
      end
  | _, _, _ => ret g
  end.

Definition onWarpSideDragEnd (g : t) : Op t :=
  ret (mk (warpDragStartPointer g) (warpDragStartCorners g) None None None
         (affineSnapshot g)).

Definition setTransformMode (mode : TransformMode) (g : t) : Op t :=
  me <- this self ;;
  let current := transformMode me in
  match current, mode with
  | affine, affine => ret g
  | warp, warp => ret g
  | _, _ =>
      modify self (set_transformMode mode) ;;
      g' <- (if isTransforming me then
               match mode with
               | warp =>
                   prepareWarpPreview env self ;;
                   ret (mk (warpDragStartPointer g) (warpDragStartCorners g)
                          (warpSideDragStartPointer g) (warpSideDragStartCorners g)
                          (warpSideDragKey g) (Some (proxyRect me)))
               | affine =>
                   match current with
                   | warp =>
                       teardownWarpPreview self ;;
                       match affineSnapshot g with
                       | Some snapshot =>
                           emit (SetAttrs objectGroup) ;;
                           modify self (set_proxyRect snapshot) ;;
                           syncScale ;;
                           emit (Draw transformerNode)
                       | None => ret tt
                       end ;;
                       ret (mk (warpDragStartPointer g) (warpDragStartCorners g)
                              (warpSideDragStartPointer g) (warpSideDragStartCorners g)
                              (warpSideDragKey g) None)
                   | affine => ret g
                   end
               end
             else ret g) ;;
      syncInteractionState env self ;;
      ret g'
  end.

(** The switch to the warp and back, with a drag of the whole quad from
    [start] to [pointer] in between. *)
Definition warpExcursion (start pointer : Coordinate.t) (g : t) : Op t :=
  g1 <- setTransformMode warp g ;;
  g2 <- onWarpDragStart (Some start) g1 ;;
  g3 <- onWarpDragMove (Some pointer) g2 ;;
  g4 <- onWarpDragEnd g3 ;;
  setTransformMode affine g4.



End Handlers.

End Gestures.

(** ** The stage rect of an adapter (RasterLayerMenuItemsExtractMaskedArea.tsx) *)

Module ExtractMaskedArea.

(** [Math.floor]. *)
Definition floor (x : Q) : Q := inject_Z (Qfloor x).

Definition normalizeRect (rect : Rect.t) : Rect.t :=
  let x0 := floor (Rect.x rect) in
  let y0 := floor (Rect.y rect) in
  let x1 := JS.ceil (Rect.x rect + Rect.width rect) in
  let y1 := JS.ceil (Rect.y rect + Rect.height rect) in
  Rect.mk x0 y0 (Qmax 0 (x1 - x0)) (Qmax 0 (y1 - y0)).

(** [adapter.transformer.$pixelRect.get()] and [adapter.state.position] are
    the pixel rect of the transformer and the position of its surroundings. *)
Definition getAdapterStageRect (env : Transformer.Env) (me : Transformer.t) : option Rect.t :=
  let pixelRect := Transformer.pixelRect me in
  if Qle_bool (Rect.width pixelRect) 0 || Qle_bool (Rect.height pixelRect) 0 then None
  else
    let x := Coordinate.x (Transformer.position env) in
    let y := Coordinate.y (Transformer.position env) in
    Some (normalizeRect (Rect.mk (x + Rect.x pixelRect) (y + Rect.y pixelRect)
                           (Rect.width pixelRect) (Rect.height pixelRect))).

End ExtractMaskedArea.

(** ** Vocabulary of the further properties *)

Module Laws.
Import Homography Transformer Spec.

(** *** Linear systems *)

(** [A] has [n] rows of [n] entries. *)
Definition square (n : nat) (A : Matrix) : Prop :=
  length A = n /\ Forall (fun row => length row = n) A.

(** [x] solves the system [A x = b] of [n] equations. *)
Definition solves (n : nat) (A : Matrix) (b : list Q) (x : nat -> Q) : Prop :=
  forall r, (r < n)%nat -> sumQ n (fun c => at2 A r c * x c) == JS.get b r.

(** *** Affine maps of the plane *)

(** The point that the 2D context paints [p] at after
    [setTransform(a, b, c, d, e, f)]. *)
Definition transformPoint (a b c d e f : Q) (p : Coordinate.t) : Coordinate.t :=
  Coordinate.mk (a * Coordinate.x p + c * Coordinate.y p + e)
                (b * Coordinate.x p + d * Coordinate.y p + f).

(** The two corners of the edge that a side anchor drags, and the two of the
    edge across. *)
Definition draggedEdge (key : Gestures.WarpSide) (c : WarpCorners.t)
    : Coordinate.t * Coordinate.t :=
  match key with
  | Gestures.tm => (WarpCorners.tl c, WarpCorners.tr c)
  | Gestures.mr => (WarpCorners.tr c, WarpCorners.br c)
  | Gestures.bm => (WarpCorners.br c, WarpCorners.bl c)
  | Gestures.ml => (WarpCorners.tl c, WarpCorners.bl c)
  end.

Definition oppositeEdge (key : Gestures.WarpSide) (c : WarpCorners.t)
    : Coordinate.t * Coordinate.t :=
  match key with
  | Gestures.tm => (WarpCorners.br c, WarpCorners.bl c)
  | Gestures.mr => (WarpCorners.tl c, WarpCorners.bl c)
  | Gestures.bm => (WarpCorners.tl c, WarpCorners.tr c)
  | Gestures.ml => (WarpCorners.tr c, WarpCorners.br c)
  end.

(** A rect whose four fields are whole numbers. *)
Definition integral (r : Rect.t) : Prop :=
  exists x y width height : Z,
    Rect.x r == inject_Z x /\ Rect.y r == inject_Z y
    /\ Rect.width r == inject_Z width /\ Rect.height r == inject_Z height.

(** Two rects with equal fields. *)
Definition rect_eq (r s : Rect.t) : Prop :=
  Rect.x r == Rect.x s /\ Rect.y r == Rect.y s
  /\ Rect.width r == Rect.width s /\ Rect.height r == Rect.height s.

(** Twice the signed area of a triangle. *)
Definition area2 (s0 s1 s2 : Coordinate.t) : Q :=
  Coordinate.x s0 * (Coordinate.y s1 - Coordinate.y s2)
  + Coordinate.x s1 * (Coordinate.y s2 - Coordinate.y s0)
  + Coordinate.x s2 * (Coordinate.y s0 - Coordinate.y s1).


Definition isTriangle (op : Warp.DrawOp) : bool :=
  match op with Warp.DrawTriangle _ _ _ _ _ _ _ _ _ _ => true | _ => false end.

(** [v] is a whole number of cells of size [cell] away from [origin]. *)
Definition onGrid (v origin cell : Q) : Prop :=
  exists k : Z, v == origin + inject_Z k * cell.

(** *** Frames *)

(** A method maintains an invariant of the world, however it ends. *)
Definition maintains {B : Type} (inv : World -> Prop) (m : Op B) : Prop :=
  forall w, inv w -> inv (snd (m w)).

(** What [syncInteractionState] is not concerned with: everything but the
    interaction mode, the two enablement flags and the state of the warp
    preview. *)
Definition steady (me : Transformer.t)
    : Rect.t * Rect.t * option Rect.t * bool * bool * bool * bool * bool
      * TransformMode * Mutex.t * ProxyRect.t :=
  (nodeRect me, pixelRect me, bboxRequest me, isPendingRectCalculation me,
   calculateRectTimer me, isTransforming me, isProcessing me, silentTransform me,
   transformMode me, transformMutex me, proxyRect me).

(** The state of the warp preview. *)
Definition warpState (me : Transformer.t)
    : option Canvas.t * option Rect.t * option WarpCorners.t :=
  (warpSourceCanvas me, warpSourceRect me, warpCorners me).

(** The enablement flags that belong to an interaction mode. *)
Definition dragEnabledIn (mode : InteractionMode) (transformMode : TransformMode) : bool :=
  match mode, transformMode with
  | drag, _ => true
  | all, affine => true
  | _, _ => false
  end.

Definition transformEnabledIn (mode : InteractionMode) (transformMode : TransformMode)
    : bool :=
  match mode, transformMode with
  | all, affine => true
  | _, _ => false
  end.

(** The interaction mode and the two flags that follow it. *)
Definition modeFlags (me : Transformer.t) : InteractionMode * bool * bool :=
  (interactionMode me, isDragEnabled me, isTransformEnabled me).

(** Setting this interaction mode builds the warp preview: the mode allows
    everything, the transform mode is the warp, a transform is under way and
    no preview was built yet. *)
Definition entersWarp (mode : InteractionMode) (me : Transformer.t) : bool :=
  match mode, transformMode me, warpSourceCanvas me with
  | all, warp, None => isTransforming me
  | _, _, _ => false
  end.

(** A transform in the warp mode is under way. *)
Definition warping (me : Transformer.t) : bool :=
  isTransforming me && match transformMode me with warp => true | affine => false end.

(** *** Runs of a method *)

(** What a method of one transformer can read and write: the pointer to the
    adapter being transformed and the fields of the transformer. *)
Definition Local : Type := option EntityId * Transformer.t.

Definition local (self : EntityId) (w : World) : Local :=
  (transformingAdapter w, transformers w self).

(** From every world whose local part is [s], the method ends with an
    outcome and a local part that satisfy [post]. *)
Definition runs {A : Type} (self : EntityId) (m : Op A)
    (post : Outcome A -> Local -> Prop) (s : Local) : Prop :=
  forall w, local self w = s -> post (fst (m w)) (local self (snd (m w))).

(** One recomputation of the bounding box from the request on: the lock is
    taken, the timer of the debounce fires, and the worker, when it was asked,
    answers. *)
Definition bboxCycle (env : Env) (self : EntityId) (answer : option Extents) : Op unit :=
  requestRectCalculation env self ;;
  calculateRect_fire env self ;;
  bboxCallback env self answer.

(** Nobody waits for a lock that is free. *)
Definition lockDiscipline (mutex : Mutex.t) : Prop :=
  Mutex.locked mutex = false -> Mutex.waiting mutex = [].

Definition disciplined (self : EntityId) (w : World) : Prop :=
  lockDiscipline (transformMutex (transformers w self)).

(** The proxy rect as [updateBbox] leaves it: untouched while a calculation is
    pending or the pixel rect is empty, else moved onto the pixel rect. *)
Definition proxyRectOnBbox (env : Env) (me : Transformer.t) : ProxyRect.t :=
  if isPendingRectCalculation me
     || JS.is_zero (Rect.width (pixelRect me))
     || JS.is_zero (Rect.height (pixelRect me))
  then proxyRect me
  else
    ProxyRect.set_x (Coordinate.x (position env) + Rect.x (pixelRect me))
      (ProxyRect.set_y (Coordinate.y (position env) + Rect.y (pixelRect me))
         (ProxyRect.set_width (Rect.width (pixelRect me))
            (ProxyRect.set_height (Rect.height (pixelRect me)) (proxyRect me)))).

(** The proxy rect of an entity at rest: its pixel rect moved to the position
    of the entity, unscaled and unrotated. *)
Definition restingProxyRect (env : Env) (me : Transformer.t) : ProxyRect.t :=
  ProxyRect.mk (Coordinate.x (position env) + Rect.x (pixelRect me))
               (Coordinate.y (position env) + Rect.y (pixelRect me))
               (Rect.width (pixelRect me)) (Rect.height (pixelRect me)) 1 1 0.

(** Layer A in a transform, with the quad of the warp given. *)
Definition warpedWorld (corners : WarpCorners.t) : World :=
  mkWorld (Some Examples.layerA)
    (fun _ => set_warpCorners (Some corners)
                (Examples.exampleTransformer true false false all (Mutex.mk true [])
                   (Rect.mk 0 0 64 64) (ProxyRect.mk 0 0 64 64 1 1 0)))
    [].

End Laws.

(** ** Correctness of the elimination *)

Module SolverFacts.
Import Homography Spec.

Lemma nth_set {A : Type} (d : A) (i : nat) (v : A) (l : list A) (j : nat) :
  nth j (JS.set d i v l) d = if Nat.eqb j i then v else nth j l d.
Proof.
  revert l j; induction i as [|i IH]; intros [|h t] [|j]; simpl; auto.
  - now destruct j.
  - rewrite IH. now destruct j; destruct (Nat.eqb _ i).
Qed.

Lemma length_set_lt {A : Type} (d : A) (i : nat) (v : A) (l : list A) :
  (i < length l)%nat -> length (JS.set d i v l) = length l.
Proof.
  revert l; induction i as [|i IH]; intros [|h t] Hi; simpl in *; try lia.
  rewrite IH; lia.
Qed.

Lemma get_fold_set (f : nat -> Q -> Q) (len from : nat) (l : list Q) (j : nat) :
  JS.get (fold_left (fun acc c => JS.set 0 c (f c (JS.get acc c)) acc) (seq from len) l) j
  = if Nat.leb from j && Nat.ltb j (from + len) then f j (JS.get l j) else JS.get l j.
Proof.
  revert from l; induction len as [|len IH]; intros from l; simpl.
  - replace (Nat.ltb j (from + 0)) with (Nat.ltb j from) by (f_equal; lia).
    destruct (Nat.leb_spec from j), (Nat.ltb_spec j from); simpl; auto; lia.
  - rewrite IH. unfold JS.get. rewrite !nth_set.
    destruct (Nat.eqb_spec j from) as [->|Hne].
    + replace (Nat.leb (S from) from) with false by (symmetry; apply Nat.leb_gt; lia).
      rewrite Nat.leb_refl. simpl.
      replace (Nat.ltb from (from + S len)) with true
        by (symmetry; apply Nat.ltb_lt; lia).
      reflexivity.
    + replace (Nat.ltb j (S from + len)) with (Nat.ltb j (from + S len)) by (f_equal; lia).
      destruct (Nat.leb_spec (S from) j), (Nat.leb_spec from j); simpl; auto; lia.
Qed.

Lemma get_updateRange (from to_ : nat) (f : nat -> Q -> Q) (l : list Q) (j : nat) :
  JS.get (JS.updateRange from to_ f l) j
  = if Nat.leb from j && Nat.leb j to_ then f j (JS.get l j) else JS.get l j.
Proof.
  unfold JS.updateRange. rewrite get_fold_set.
  destruct (Nat.leb_spec from j); cbn [andb]; auto.
  destruct (Nat.ltb_spec j (from + (S to_ - from))), (Nat.leb_spec j to_); auto; lia.
Qed.

Lemma get_nil (c : nat) : JS.get [] c = 0.
Proof. now destruct c. Qed.

Lemma findPivot_spec (M : Matrix) (col n : nat) :
  fst (findPivot M col n) = Qabs (at2 M (snd (findPivot M col n)) col)
  /\ (col <= snd (findPivot M col n))%nat
  /\ (snd (findPivot M col n) = col \/ (snd (findPivot M col n) < n)%nat).
Proof.
  unfold findPivot.
  assert (Hrows : Forall (fun row => (col < row < n)%nat) (seq (S col) (n - S col)))
    by (apply Forall_forall; intros row Hin; apply in_seq in Hin; lia).
  assert (Hinit : fst (Qabs (at2 M col col), col) = Qabs (at2 M (snd (Qabs (at2 M col col), col)) col)
                  /\ (col <= snd (Qabs (at2 M col col), col))%nat
                  /\ (snd (Qabs (at2 M col col), col) = col
                      \/ (snd (Qabs (at2 M col col), col) < n)%nat))
    by (simpl; auto).
  revert Hrows Hinit.
  generalize (Qabs (at2 M col col), col) as acc.
  generalize (seq (S col) (n - S col)) as rows.
  induction rows as [|row rows IH]; intros acc Hrows Hinit; simpl; auto.
  inversion Hrows as [|? ? Hrow Hrest]; subst.
  apply IH; auto.
  destruct (JS.gtb (Qabs (at2 M row col)) (fst acc)); simpl; auto.
  repeat split; auto; lia.
Qed.

Lemma nth_swapRows (col p : nat) (M : Matrix) (r : nat) :
  nth r (swapRows col p M) []
  = if Nat.eqb r p then nth col M [] else if Nat.eqb r col then nth p M [] else nth r M [].
Proof. unfold swapRows. now rewrite !nth_set. Qed.

Lemma eliminateRows_fold (cd : list Q) (col n len : nat) :
  forall (a : nat) (M : Matrix) (r : nat),
    let M' :=
      fold_left
        (fun acc row =>
           if Nat.eqb row col then acc
           else match nth_error acc row with
                | None => acc
                | Some rowData => JS.set [] row (eliminateRow cd col n rowData) acc
                end)
        (seq a len) M in
    length M' = length M
    /\ nth r M' []
       = if Nat.leb a r && Nat.ltb r (a + len) && negb (Nat.eqb r col) && Nat.ltb r (length M)
         then eliminateRow cd col n (nth r M []) else nth r M [].
Proof.
  induction len as [|len IH]; intros a M r; cbn [seq fold_left]; cbv zeta.
  - split; auto.
    replace (Nat.ltb r (a + 0)) with (Nat.ltb r a) by (f_equal; lia).
    destruct (Nat.leb_spec a r), (Nat.ltb_spec r a); cbn [andb]; auto; lia.
  - match goal with
    | |- context [fold_left _ (seq (S a) len) ?X] => set (M1 := X)
    end.
    assert (Hlen : length M1 = length M).
    { subst M1. destruct (Nat.eqb a col); auto.
      destruct (nth_error M a) eqn:E; auto.
      apply length_set_lt. apply nth_error_Some. congruence. }
    assert (Hnth : nth r M1 []
                   = if Nat.eqb r a && negb (Nat.eqb a col) && Nat.ltb a (length M)
                     then eliminateRow cd col n (nth a M []) else nth r M []).
    { subst M1. destruct (Nat.eqb a col); cbn [negb andb].
      - now rewrite andb_false_r.
      - rewrite andb_true_r. destruct (nth_error M a) eqn:E.
        + rewrite nth_set.
          assert (a < length M)%nat by (apply nth_error_Some; congruence).
          replace (Nat.ltb a (length M)) with true by (symmetry; now apply Nat.ltb_lt).
          rewrite andb_true_r. erewrite (nth_error_nth M a []); eauto.
        + apply nth_error_None in E.
          replace (Nat.ltb a (length M)) with false by (symmetry; apply Nat.ltb_ge; lia).
          now rewrite andb_false_r. }
    destruct (IH (S a) M1 r) as [IHlen IHnth]. cbv zeta in IHlen, IHnth.
    split; [now rewrite IHlen|].
    rewrite IHnth, Hnth, Hlen.
    replace (Nat.ltb r (S a + len)) with (Nat.ltb r (a + S len)) by (f_equal; lia).
    destruct (Nat.eqb_spec r a) as [->|Hne].
    + replace (Nat.leb (S a) a) with false by (symmetry; apply Nat.leb_gt; lia).
      rewrite Nat.leb_refl.
      replace (Nat.ltb a (a + S len)) with true by (symmetry; apply Nat.ltb_lt; lia).
      now cbn [andb].
    + cbn [andb].
      destruct (Nat.leb_spec (S a) r), (Nat.leb_spec a r); cbn [andb]; auto; lia.
Qed.

Lemma at2_eliminateRows (cd : list Q) (col n : nat) (M : Matrix) (r c : nat) :
  at2 (eliminateRows cd col n M) r c
  == if Nat.ltb r n && negb (Nat.eqb r col) && Nat.leb col c && Nat.leb c n
     then at2 M r c - at2 M r col * JS.get cd c else at2 M r c.
Proof.
  unfold at2, eliminateRows.
  destruct (eliminateRows_fold cd col n n 0 M r) as [_ ->].
  cbn [Nat.leb andb Nat.add].
  destruct (Nat.ltb r n); cbn [andb]; [|reflexivity].
  destruct (negb (Nat.eqb r col)); cbn [andb]; [|reflexivity].
  destruct (Nat.ltb_spec r (length M)) as [Hr|Hr].
  - unfold eliminateRow. rewrite get_updateRange. reflexivity.
  - rewrite (nth_overflow M []) by lia. rewrite !get_nil.
    destruct (Nat.leb col c && Nat.leb c n); [ring|reflexivity].
Qed.

Lemma sumQ_ext (n : nat) (f g : nat -> Q) :
  (forall c, (c < n)%nat -> f c == g c) -> sumQ n f == sumQ n g.
Proof.
  induction n as [|n IH]; intros H; simpl; [reflexivity|].
  rewrite IH, (H n) by auto with arith. reflexivity.
Qed.

Lemma sumQ_scale (n : nat) (a : Q) (f : nat -> Q) :
  sumQ n (fun c => a * f c) == a * sumQ n f.
Proof. induction n as [|n IH]; simpl; [ring|rewrite IH; ring]. Qed.

Lemma sumQ_plus (n : nat) (f g : nat -> Q) :
  sumQ n (fun c => f c + g c) == sumQ n f + sumQ n g.
Proof. induction n as [|n IH]; simpl; [ring|rewrite IH; ring]. Qed.

Lemma sumQ_zero (n : nat) (f : nat -> Q) :
  (forall c, (c < n)%nat -> f c == 0) -> sumQ n f == 0.
Proof.
  induction n as [|n IH]; intros H; simpl; [reflexivity|].
  rewrite IH, (H n) by auto with arith. ring.
Qed.

Lemma sumQ_delta (n r : nat) (x : nat -> Q) :
  (r < n)%nat -> sumQ n (fun c => delta r c * x c) == x r.
Proof.
  induction n as [|n IH]; intros Hr; [lia|]. simpl.
  destruct (Nat.eq_dec r n) as [->|Hne].
  - rewrite sumQ_zero.
    + unfold delta. rewrite Nat.eqb_refl. ring.
    + intros c Hc. unfold delta.
      replace (Nat.eqb n c) with false by (symmetry; apply Nat.eqb_neq; lia). ring.
  - rewrite IH by lia. unfold delta.
    replace (Nat.eqb r n) with false by (symmetry; now apply Nat.eqb_neq). ring.
Qed.

(** What one iteration of the loop over [col] does to the entries, given
    that the columns before [k] are already reduced: row [k] becomes the pivot
    row divided by the pivot, and that row is subtracted from every other. *)
Lemma pivotStep_spec (n k : nat) (M M' : Matrix) :
  (k < n)%nat -> reduced n k M -> pivotStep n k M = Some M' ->
  exists p,
    (k <= p < n)%nat /\ ~ at2 M p k == 0
    /\ (forall c, (c <= n)%nat -> at2 M' k c * at2 M p k == at2 M p c)
    /\ (forall r, (r < n)%nat -> r <> k -> forall c, (c <= n)%nat ->
          at2 M' r c
          == at2 M (if Nat.eqb r p then k else r) c
             - at2 M (if Nat.eqb r p then k else r) k * at2 M' k c).
Proof.
  intros Hk Hred. unfold reduced in Hred. unfold pivotStep.
  destruct (findPivot_spec M k n) as (Hmax & Hge & Hlt).
  destruct (findPivot M k n) as [maxVal p]. cbn [fst snd] in *.
  destruct (JS.is_zero maxVal) eqn:Hz; [discriminate|].
  assert (Hp : (k <= p < n)%nat) by lia.
  assert (Hpiv : ~ at2 M p k == 0).
  { intros E. unfold JS.is_zero in Hz.
    assert (maxVal == 0) as E' by (rewrite Hmax, E; reflexivity).
    apply Qeq_bool_iff in E'. congruence. }
  set (M1 := if Nat.eqb p k then M else swapRows k p M).
  assert (HM1 : forall r, nth r M1 []
                = nth (if Nat.eqb r p then k else if Nat.eqb r k then p else r) M []).
  { intros r. subst M1. destruct (Nat.eqb_spec p k) as [->|Hne].
    - now destruct (Nat.eqb_spec r k) as [->|].
    - rewrite nth_swapRows. now destruct (Nat.eqb r p), (Nat.eqb r k). }
  destruct (nth_error M1 k) as [colData|] eqn:Ecol; [|discriminate].
  intros HM'. injection HM' as <-.
  assert (HcolData : colData = nth p M []).
  { rewrite <- (nth_error_nth M1 k [] Ecol). rewrite HM1, Nat.eqb_refl.
    now destruct (Nat.eqb_spec k p) as [->|]. }
  subst colData. fold (at2 M p k).
  set (cd := normalizeRow (at2 M p k) k n (nth p M [])).
  assert (Hcd : forall c, JS.get cd c
                = if Nat.leb k c && Nat.leb c n then at2 M p c / at2 M p k else at2 M p c).
  { intros c. subst cd. unfold normalizeRow. now rewrite get_updateRange. }
  assert (HM2 : forall r c, at2 (JS.set [] k cd M1) r c
                = if Nat.eqb r k then JS.get cd c
                  else at2 M (if Nat.eqb r p then k else r) c).
  { intros r c. unfold at2 at 1. rewrite nth_set, HM1.
    now destruct (Nat.eqb_spec r k). }
  assert (Hzero : forall c, (c < k)%nat -> at2 M p c == 0).
  { intros c Hc. rewrite Hred by lia. unfold delta.
    replace (Nat.eqb p c) with false by (symmetry; apply Nat.eqb_neq; lia). reflexivity. }
  assert (Hrowk : forall c, (c <= n)%nat ->
            at2 (eliminateRows cd k n (JS.set [] k cd M1)) k c * at2 M p k == at2 M p c).
  { intros c Hc. rewrite at2_eliminateRows, Nat.eqb_refl.
    cbn [negb andb]. rewrite andb_false_r. cbn [andb].
    rewrite HM2, Nat.eqb_refl, Hcd.
    destruct (Nat.leb_spec k c) as [Hkc|Hkc]; cbn [andb].
    - replace (Nat.leb c n) with true by (symmetry; now apply Nat.leb_le).
      field. exact Hpiv.
    - rewrite (Hzero c Hkc). ring. }
  exists p. repeat split; try lia; auto.
  intros r Hr Hrk c Hc.
  assert (Hk0 : forall c', (c' < k)%nat ->
            at2 (eliminateRows cd k n (JS.set [] k cd M1)) k c' == 0).
  { intros c' Hc'. apply (Qmult_inj_r _ _ (at2 M p k) Hpiv).
    rewrite Hrowk by lia. rewrite (Hzero c' Hc'). ring. }
  rewrite (at2_eliminateRows cd k n _ r c).
  replace (Nat.ltb r n) with true by (symmetry; now apply Nat.ltb_lt).
  replace (Nat.eqb r k) with false by (symmetry; now apply Nat.eqb_neq).
  replace (Nat.leb c n) with true by (symmetry; now apply Nat.leb_le).
  cbn [negb andb]. rewrite andb_true_r.
  rewrite !HM2.
  replace (Nat.eqb r k) with false by (symmetry; now apply Nat.eqb_neq).
  destruct (Nat.leb_spec k c) as [Hkc|Hkc].
  - assert (E : at2 (eliminateRows cd k n (JS.set [] k cd M1)) k c == JS.get cd c).
    { rewrite at2_eliminateRows, Nat.eqb_refl. cbn [negb andb].
      rewrite andb_false_r. cbn [andb]. rewrite HM2, Nat.eqb_refl. reflexivity. }
    rewrite E. reflexivity.
  - rewrite (Hk0 c Hkc). ring.
Qed.

Lemma pivotStep_reduced (n k : nat) (M M' : Matrix) :
  (k < n)%nat -> reduced n k M -> pivotStep n k M = Some M' -> reduced n (S k) M'.
Proof.
  intros Hk Hred Hstep.
  destruct (pivotStep_spec n k M M' Hk Hred Hstep) as (p & Hp & Hpiv & Hrowk & Hrows).
  unfold reduced in *.
  assert (Hzero : forall c, (c < k)%nat -> at2 M' k c == 0).
  { intros c Hc. apply (Qmult_inj_r _ _ (at2 M p k) Hpiv).
    rewrite Hrowk by lia. rewrite (Hred p c) by lia. unfold delta.
    replace (Nat.eqb p c) with false by (symmetry; apply Nat.eqb_neq; lia). ring. }
  assert (Hone : at2 M' k k == 1).
  { apply (Qmult_inj_r _ _ (at2 M p k) Hpiv). rewrite Hrowk by lia. ring. }
  intros r c Hr Hc.
  destruct (Nat.eq_dec r k) as [->|Hrk].
  - destruct (Nat.eq_dec c k) as [->|Hck].
    + rewrite Hone. unfold delta. now rewrite Nat.eqb_refl.
    + rewrite Hzero by lia. unfold delta.
      replace (Nat.eqb k c) with false by (symmetry; apply Nat.eqb_neq; lia). reflexivity.
  - rewrite (Hrows r Hr Hrk c) by lia.
    set (q := if Nat.eqb r p then k else r).
    assert (Hq : (q < n)%nat) by (subst q; destruct (Nat.eqb r p); lia).
    destruct (Nat.eq_dec c k) as [->|Hck].
    + rewrite Hone. unfold delta.
      replace (Nat.eqb r k) with false by (symmetry; now apply Nat.eqb_neq). ring.
    + rewrite Hzero by lia. rewrite (Hred q c) by lia.
      unfold delta. subst q.
      destruct (Nat.eqb_spec r p) as [->|Hrp].
      * replace (Nat.eqb k c) with false by (symmetry; apply Nat.eqb_neq; lia).
        replace (Nat.eqb p c) with false by (symmetry; apply Nat.eqb_neq; lia). ring.
      * ring.
Qed.

Lemma pivotStep_satisfies (n k : nat) (M M' : Matrix) (x : nat -> Q) :
  (k < n)%nat -> reduced n k M -> pivotStep n k M = Some M' ->
  satisfies n M' x -> satisfies n M x.
Proof.
  intros Hk Hred Hstep Hsat.
  destruct (pivotStep_spec n k M M' Hk Hred Hstep) as (p & Hp & Hpiv & Hrowk & Hrows).
  unfold satisfies in *.
  intros q Hq.
  destruct (Nat.eq_dec q p) as [->|Hqp].
  - rewrite <- (Hrowk n) by lia. rewrite <- (Hsat k Hk).
    rewrite (Qmult_comm _ (at2 M p k)), <- sumQ_scale.
    apply sumQ_ext. intros c Hc. rewrite <- (Hrowk c) by lia. ring.
  - set (r := if Nat.eqb q k then p else q).
    assert (Hr : (r < n)%nat) by (subst r; destruct (Nat.eqb q k); lia).
    assert (Hrk : r <> k).
    { subst r. destruct (Nat.eqb_spec q k); lia. }
    assert (Hback : (if Nat.eqb r p then k else r) = q).
    { subst r. destruct (Nat.eqb_spec q k) as [->|Hqk].
      - now rewrite Nat.eqb_refl.
      - now replace (Nat.eqb q p) with false by (symmetry; now apply Nat.eqb_neq). }
    pose proof (Hrows r Hr Hrk) as Hrow. rewrite Hback in Hrow.
    assert (E : forall c, (c <= n)%nat ->
              at2 M q c == at2 M' r c + at2 M q k * at2 M' k c).
    { intros c Hc. rewrite (Hrow c Hc). ring. }
    rewrite (E n) by lia. rewrite <- (Hsat r Hr), <- (Hsat k Hk).
    rewrite <- sumQ_scale, <- sumQ_plus.
    apply sumQ_ext. intros c Hc. rewrite (E c) by lia. ring.
Qed.

Lemma eliminate_spec (n len : nat) :
  forall (k : nat) (M M' : Matrix),
    (k + len = n)%nat -> reduced n k M -> eliminate n (seq k len) M = Some M' ->
    reduced n n M' /\ (forall x, satisfies n M' x -> satisfies n M x).
Proof.
  induction len as [|len IH]; intros k M M' Hlen Hred Hel; simpl in Hel.
  - injection Hel as <-. assert (k = n) by lia. subst k. split; auto.
  - destruct (pivotStep n k M) as [M1|] eqn:Hstep; [|discriminate].
    assert (Hk : (k < n)%nat) by lia.
    destruct (IH (S k) M1 M') as [Hfin Hsat]; auto; try lia.
    + eapply pivotStep_reduced; eauto.
    + split; auto. intros x Hx.
      eapply pivotStep_satisfies; eauto.
Qed.

Lemma get_solution (M : Matrix) (n c : nat) :
  JS.get (map (fun row => JS.get row n) M) c = at2 M c n.
Proof.
  unfold at2, JS.get at 1.
  destruct (Nat.lt_ge_cases c (length M)) as [Hc|Hc].
  - rewrite (nth_indep _ 0 (JS.get [] n)) by now rewrite length_map.
    now rewrite (map_nth (fun row => JS.get row n)).
  - rewrite nth_overflow by now rewrite length_map.
    rewrite (nth_overflow M) by trivial. now rewrite get_nil.
Qed.

(** Soundness of the solver: when no pivot is zero, the returned vector
    solves every equation of the system it was given. *)
Lemma solveLinearSystem_sound (A : Matrix) (b : list Q) (M : Matrix) :
  gaussJordan A b = Some M ->
  satisfies (length b) (augment 0 A b) (JS.get (solveLinearSystem A b)).
Proof.
  intros Hgj. unfold solveLinearSystem. rewrite Hgj.
  unfold gaussJordan in Hgj.
  destruct (eliminate_spec (length b) (length b) 0 (augment 0 A b) M) as [Hred Hsat];
    auto.
  - intros r c _ Hc. lia.
  - apply Hsat. intros r Hr.
    rewrite (sumQ_ext _ _ (fun c => delta r c * at2 M c (length b))).
    + rewrite sumQ_delta by trivial. reflexivity.
    + intros c Hc. rewrite get_solution. rewrite (Hred r c) by trivial. reflexivity.
Qed.

End SolverFacts.

(** ** The homography through four correspondences *)

Module HomographyFacts.
Import Homography Spec SolverFacts.

Lemma not_zero_is_zero (a : Q) : ~ a == 0 -> JS.is_zero a = false.
Proof.
  intros H. unfold JS.is_zero. destruct (Qeq_bool a 0) eqn:E; auto.
  apply Qeq_bool_iff in E. contradiction.
Qed.

(** The two equations of the system that belong to one correspondence say
    that the numerators of the projective map are the target coordinates
    times its denominator. *)
Lemma correspondence_equations (s0 s1 s2 s3 d0 d1 d2 d3 : Coordinate.t) :
  let src := [s0; s1; s2; s3] in
  let dst := [d0; d1; d2; d3] in
  let h := computeHomography src dst in
  nonDegenerate src dst = true ->
  forall i s d, nth_error src i = Some s -> nth_error dst i = Some d ->
    JS.get h 0 * Coordinate.x s + JS.get h 1 * Coordinate.y s + JS.get h 2
    == Coordinate.x d * denominator h s
    /\ JS.get h 3 * Coordinate.x s + JS.get h 4 * Coordinate.y s + JS.get h 5
       == Coordinate.y d * denominator h s.
Proof.
  intros src dst h Hnd i s d Hs Hd.
  subst h. unfold nonDegenerate, computeHomography in *.
  destruct (homographySystem src dst) as [[A b]|] eqn:Hsys; [|discriminate].
  destruct (gaussJordan A b) as [M|] eqn:Hgj; [|discriminate].
  pose proof (solveLinearSystem_sound A b M Hgj) as Hsat.
  set (h := solveLinearSystem A b) in *. clearbody h.
  subst src dst.
  destruct s0 as [x0 y0], s1 as [x1 y1], s2 as [x2 y2], s3 as [x3 y3].
  destruct d0 as [u0 v0], d1 as [u1 v1], d2 as [u2 v2], d3 as [u3 v3].
  cbv [homographySystem buildSystem length Nat.eqb Nat.ltb Nat.leb negb orb seq
       nth_error app Coordinate.x Coordinate.y] in Hsys.
  injection Hsys as <- <-.
  unfold satisfies, denominator in *.
  set (g := JS.get h) in *. clearbody g. clear Hgj Hnd.
  destruct i as [|[|[|[|i]]]]; cbn in Hs, Hd;
    try (destruct i; discriminate);
    injection Hs as <-; injection Hd as <-; cbn [Coordinate.x Coordinate.y].
  - pose proof (Hsat 0%nat ltac:(cbn; lia)) as E0.
    pose proof (Hsat 1%nat ltac:(cbn; lia)) as E1.
    cbv [length sumQ at2 augment app nth JS.get] in E0, E1. split; lra.
  - pose proof (Hsat 2%nat ltac:(cbn; lia)) as E0.
    pose proof (Hsat 3%nat ltac:(cbn; lia)) as E1.
    cbv [length sumQ at2 augment app nth JS.get] in E0, E1. split; lra.
  - pose proof (Hsat 4%nat ltac:(cbn; lia)) as E0.
    pose proof (Hsat 5%nat ltac:(cbn; lia)) as E1.
    cbv [length sumQ at2 augment app nth JS.get] in E0, E1. split; lra.
  - pose proof (Hsat 6%nat ltac:(cbn; lia)) as E0.
    pose proof (Hsat 7%nat ltac:(cbn; lia)) as E1.
    cbv [length sumQ at2 augment app nth JS.get] in E0, E1. split; lra.
Qed.

(** C1 (amended).  For four correspondences whose system is solved without
    meeting a zero pivot, the homography returned by [computeHomography] maps
    every source point at which the denominator of the projective map is not
    zero exactly to its target point. *)
Theorem homography_round_trip (s0 s1 s2 s3 d0 d1 d2 d3 : Coordinate.t) :
  let src := [s0; s1; s2; s3] in
  let dst := [d0; d1; d2; d3] in
  let h := computeHomography src dst in
  nonDegenerate src dst = true ->
  forall i s d, nth_error src i = Some s -> nth_error dst i = Some d ->
    ~ denominator h s == 0 ->
    coord_eq (applyHomography h s) d.
Proof.
  intros src dst h Hnd i s d Hs Hd Hden.
  destruct (correspondence_equations s0 s1 s2 s3 d0 d1 d2 d3 Hnd i s d Hs Hd)
    as [Ex Ey].
  fold src dst h in Ex, Ey.
  unfold applyHomography. fold (denominator h s).
  rewrite (not_zero_is_zero _ Hden).
  split; cbn [Coordinate.x Coordinate.y].
  - rewrite Ex. field. exact Hden.
  - rewrite Ey. field. exact Hden.
Qed.

(** A square mapped onto a trapezoid: the bottom right corner goes where it
    was sent. *)
Lemma homography_round_trip_witness :
  let src := [Coordinate.mk 0 0; Coordinate.mk 4 0; Coordinate.mk 4 4; Coordinate.mk 0 4] in
  let dst := [Coordinate.mk 1 0; Coordinate.mk 3 0; Coordinate.mk 4 4; Coordinate.mk 0 4] in
  nonDegenerate src dst = true
  /\ coord_eq (applyHomography (computeHomography src dst) (Coordinate.mk 4 4))
              (Coordinate.mk 4 4).
Proof.
  intros src dst. split.
  - vm_compute. reflexivity.
  - apply (homography_round_trip
             (Coordinate.mk 0 0) (Coordinate.mk 4 0) (Coordinate.mk 4 4) (Coordinate.mk 0 4)
             (Coordinate.mk 1 0) (Coordinate.mk 3 0) (Coordinate.mk 4 4) (Coordinate.mk 0 4))
      with (i := 2%nat).
    + vm_compute. reflexivity.
    + reflexivity.
    + reflexivity.
    + apply Qeq_bool_neq. vm_compute. reflexivity.
Defined.

(** C1 as stated fails: with the bottom left corner of a square sent onto its
    diagonal the system is solved without a zero pivot, yet the denominator
    vanishes at the top right corner, and [applyHomography] answers the origin
    there instead of the target (4, 0). *)
Lemma homography_round_trip_zero_denominator :
  let src := [Coordinate.mk 0 0; Coordinate.mk 4 0; Coordinate.mk 4 4; Coordinate.mk 0 4] in
  let dst := [Coordinate.mk 0 0; Coordinate.mk 4 0; Coordinate.mk 4 4; Coordinate.mk 2 2] in
  nonDegenerate src dst = true
  /\ nth_error src 1 = Some (Coordinate.mk 4 0)
  /\ nth_error dst 1 = Some (Coordinate.mk 4 0)
  /\ ~ coord_eq (applyHomography (computeHomography src dst) (Coordinate.mk 4 0))
                (Coordinate.mk 4 0).
Proof.
  intros src dst.
  split; [vm_compute; reflexivity|].
  split; [reflexivity|]. split; [reflexivity|].
  intros [Hx _]. apply Qeq_eq_bool in Hx. vm_compute in Hx. discriminate.
Qed.

End HomographyFacts.


(** ** Rounding, signs and remainders *)

Module NumberFacts.

Lemma gtb_true (a b : Q) : JS.gtb a b = true <-> b < a.
Proof.
  unfold JS.gtb. rewrite negb_true_iff. split; intros H.
  - apply Qnot_le_lt. intros Hle. apply Qle_bool_iff in Hle. congruence.
  - destruct (Qle_bool a b) eqn:E; auto.
    apply Qle_bool_iff in E. exfalso. apply (Qlt_not_le _ _ H E).
Qed.

Lemma gtb_false (a b : Q) : JS.gtb a b = false <-> a <= b.
Proof.
  unfold JS.gtb. rewrite negb_false_iff. apply Qle_bool_iff.
Qed.

Lemma is_zero_true (a : Q) : JS.is_zero a = true <-> a == 0.
Proof. apply Qeq_bool_iff. Qed.

Lemma is_zero_false (a : Q) : JS.is_zero a = false <-> ~ a == 0.
Proof.
  unfold JS.is_zero. split; intros H.
  - intros E. apply Qeq_bool_iff in E. congruence.
  - destruct (Qeq_bool a 0) eqn:E; auto. apply Qeq_bool_iff in E. contradiction.
Qed.

#[global] Instance round_proper : Proper (Qeq ==> Qeq) JS.round.
Proof. intros a b E. unfold JS.round. now rewrite E. Qed.

Lemma floor_unique (x : Q) (z : Z) :
  inject_Z z <= x -> x < inject_Z (z + 1) -> Qfloor x = z.
Proof.
  intros Hle Hlt.
  apply Qfloor_resp_le in Hle. rewrite Qfloor_Z in Hle.
  assert (inject_Z (Qfloor x) < inject_Z (z + 1)) as H
    by (eapply Qle_lt_trans; [apply Qfloor_le|exact Hlt]).
  rewrite <- Zlt_Qlt in H. lia.
Qed.

(** [Math.round] answers an integer within a half of its argument. *)
Lemma round_bounds (x : Q) : JS.round x - (1 # 2) <= x /\ x < JS.round x + (1 # 2).
Proof.
  unfold JS.round.
  pose proof (Qfloor_le (x + (1 # 2))) as Hle.
  pose proof (Qlt_floor (x + (1 # 2))) as Hlt.
  rewrite inject_Z_plus in Hlt. change (inject_Z 1) with 1 in Hlt. split; lra.
Qed.



Lemma round_integer (z : Z) : JS.round (inject_Z z) == inject_Z z.
Proof.
  unfold JS.round. rewrite (floor_unique (inject_Z z + (1 # 2)) z); [reflexivity| |].
  - lra.
  - rewrite inject_Z_plus. change (inject_Z 1) with 1. lra.
Qed.

Lemma sign_pos (x : Q) : 0 < x -> JS.sign x = 1.
Proof. intros H. unfold JS.sign. now rewrite (proj2 (gtb_true x 0) H). Qed.

Lemma sign_neg (x : Q) : x < 0 -> JS.sign x = -1.
Proof.
  intros H. unfold JS.sign.
  rewrite (proj2 (gtb_false x 0)) by lra.
  now rewrite (proj2 (gtb_true 0 x) H).
Qed.

Lemma abs_inject_Z (z : Z) : Qabs (inject_Z z) = inject_Z (Z.abs z).
Proof. reflexivity. Qed.

Lemma max_inject_Z (a b : Z) : Qmax (inject_Z a) (inject_Z b) == inject_Z (Z.max a b).
Proof.
  destruct (Q.max_spec (inject_Z a) (inject_Z b)) as [[Hlt ->]|[Hle ->]].
  - rewrite <- Zlt_Qlt in Hlt. now rewrite Z.max_r by lia.
  - rewrite <- Zle_Qle in Hle. now rewrite Z.max_l by lia.
Qed.

(** The conventions of JavaScript, on a few values. *)
Example round_ties_up :
  JS.round (5 # 2) == 3 /\ JS.round (- (5 # 2)) == -2 /\ JS.round (- (1 # 2)) == 0.
Proof. repeat split. Qed.

Example rem_has_the_sign_of_the_dividend :
  JS.rem 7 3 == 1 /\ JS.rem (-7) 3 == -1 /\ JS.rem (11 # 2) 2 == 3 # 2.
Proof. repeat split. Qed.

Example roundToMultiple_101_8 : Util.roundToMultiple 101 8 == 104.
Proof. reflexivity. Qed.

End NumberFacts.

(** ** Grid snapping of anchors *)

Module SnapFacts.
Import Transformer Spec Examples NumberFacts.





End SnapFacts.

(** ** Affine transform controller: the commit snap and the fits *)

Module AffineFacts.
Import Transformer Spec Examples NumberFacts.

Lemma snapProxyRectToPixelGrid_proxyRect (self : EntityId) (w : World) :
  let p := proxyRect (transformers w self) in
  proxyRectAfter self (snapProxyRectToPixelGrid self) w
  = ProxyRect.mk
      (JS.round (ProxyRect.x p)) (JS.round (ProxyRect.y p))
      (ProxyRect.width p) (ProxyRect.height p)
      (Qmax (Qabs (JS.round (ProxyRect.width p * ProxyRect.scaleX p))) 1
       / ProxyRect.width p * JS.sign (ProxyRect.scaleX p))
      (Qmax (Qabs (JS.round (ProxyRect.height p * ProxyRect.scaleY p))) 1
       / ProxyRect.height p * JS.sign (ProxyRect.scaleY p))
      (ProxyRect.rotation p).
Proof.
  unfold proxyRectAfter, snapProxyRectToPixelGrid, syncObjectGroupWithProxyRect,
    bind, this, modify, emit.
  cbn [fst snd transformers]. rewrite String.eqb_refl. reflexivity.
Qed.

Lemma target_size (a : Q) :
  exists n : Z, (1 <= n)%Z /\ Qmax (Qabs (JS.round a)) 1 == inject_Z n.
Proof.
  unfold JS.round. rewrite abs_inject_Z.
  exists (Z.max (Z.abs (Qfloor (a + (1 # 2)))) 1). split; [lia|].
  apply (max_inject_Z _ 1).
Qed.

(** The scale derived from a target size reproduces it, and keeps the sign. *)
Lemma snapped_scale (size scale target : Q) :
  0 < size -> ~ scale == 0 -> 0 < target ->
  size * Qabs (target / size * JS.sign scale) == target
  /\ JS.sign (target / size * JS.sign scale) = JS.sign scale.
Proof.
  intros Hsize Hscale Htarget.
  assert (Hq : 0 < target / size) by (apply Qlt_shift_div_l; lra).
  destruct (Q_dec scale 0) as [[Hneg|Hpos]|Hz]; [| |contradiction].
  - rewrite (sign_neg _ Hneg). split.
    + rewrite Qabs_neg by lra. field. lra.
    + apply sign_neg. lra.
  - rewrite (sign_pos _ Hpos). split.
    + rewrite Qabs_pos by lra. field. lra.
    + apply sign_pos. lra.
Qed.

(** C5 (amended).  Over exact rationals: on a proxy rect of positive width
    and height and non-zero scales,
    [snapProxyRectToPixelGrid] moves the position to the nearest integer pixel
    and sets the scales so that width times |scaleX| is exactly
    max(|round(width * scaleX)|, 1), an integer of at least 1, and likewise
    for the height; the sign of each scale, hence the flip, is kept. *)
Theorem snapProxyRectToPixelGrid_commit (self : EntityId) (w : World) :
  let p := proxyRect (transformers w self) in
  let p' := proxyRectAfter self (snapProxyRectToPixelGrid self) w in
  0 < ProxyRect.width p -> 0 < ProxyRect.height p ->
  ~ ProxyRect.scaleX p == 0 -> ~ ProxyRect.scaleY p == 0 ->
  (ProxyRect.x p' = JS.round (ProxyRect.x p)
   /\ ProxyRect.x p' - (1 # 2) <= ProxyRect.x p < ProxyRect.x p' + (1 # 2))
  /\ (ProxyRect.y p' = JS.round (ProxyRect.y p)
      /\ ProxyRect.y p' - (1 # 2) <= ProxyRect.y p < ProxyRect.y p' + (1 # 2))
  /\ ProxyRect.width p' = ProxyRect.width p
  /\ ProxyRect.height p' = ProxyRect.height p
  /\ ProxyRect.width p' * Qabs (ProxyRect.scaleX p')
     == Qmax (Qabs (JS.round (ProxyRect.width p * ProxyRect.scaleX p))) 1
  /\ ProxyRect.height p' * Qabs (ProxyRect.scaleY p')
     == Qmax (Qabs (JS.round (ProxyRect.height p * ProxyRect.scaleY p))) 1
  /\ (exists n : Z, (1 <= n)%Z
        /\ ProxyRect.width p' * Qabs (ProxyRect.scaleX p') == inject_Z n)
  /\ (exists n : Z, (1 <= n)%Z
        /\ ProxyRect.height p' * Qabs (ProxyRect.scaleY p') == inject_Z n)
  /\ JS.sign (ProxyRect.scaleX p') = JS.sign (ProxyRect.scaleX p)
  /\ JS.sign (ProxyRect.scaleY p') = JS.sign (ProxyRect.scaleY p).
Proof.
  intros p p' Hw Hh Hsx Hsy. subst p'.
  rewrite snapProxyRectToPixelGrid_proxyRect. fold p.
  cbn [ProxyRect.x ProxyRect.y ProxyRect.width ProxyRect.height
       ProxyRect.scaleX ProxyRect.scaleY].
  destruct (target_size (ProxyRect.width p * ProxyRect.scaleX p)) as (nx & Hnx & Ex).
  destruct (target_size (ProxyRect.height p * ProxyRect.scaleY p)) as (ny & Hny & Ey).
  assert (Htx : 0 < Qmax (Qabs (JS.round (ProxyRect.width p * ProxyRect.scaleX p))) 1).
  { eapply Qlt_le_trans; [|apply Q.le_max_r]. reflexivity. }
  assert (Hty : 0 < Qmax (Qabs (JS.round (ProxyRect.height p * ProxyRect.scaleY p))) 1).
  { eapply Qlt_le_trans; [|apply Q.le_max_r]. reflexivity. }
  destruct (snapped_scale _ _ _ Hw Hsx Htx) as [Esx Ssx].
  destruct (snapped_scale _ _ _ Hh Hsy Hty) as [Esy Ssy].
  repeat split; auto; try apply round_bounds.
  - exists nx. split; [exact Hnx|]. now rewrite Esx.
  - exists ny. split; [exact Hny|]. now rewrite Esy.
Qed.

(** A 49 by 10 proxy rect at (3.5, -2.5), scaled by 0.02 and mirrored
    vertically by -1.26: it lands on (4, -2) with a size of 1 by 13. *)
Lemma snapProxyRectToPixelGrid_commit_witness :
  let w := exampleWorld (ProxyRect.mk (7 # 2) (- (5 # 2)) 49 10 (1 # 50) (- (63 # 50)) 0) true in
  let p' := proxyRectAfter layerA (snapProxyRectToPixelGrid layerA) w in
  ProxyRect.x p' = 4
  /\ ProxyRect.width p' * Qabs (ProxyRect.scaleX p') == 1
  /\ ProxyRect.height p' * Qabs (ProxyRect.scaleY p') == 13
  /\ JS.sign (ProxyRect.scaleY p') = -1.
Proof.
  intros w p'.
  destruct (snapProxyRectToPixelGrid_commit layerA w)
    as ((Hx & _) & _ & _ & _ & Hsx & Hsy & _ & _ & _ & Ssy).
  - reflexivity.
  - reflexivity.
  - discriminate.
  - discriminate.
  - fold p' in Hx, Hsx, Hsy, Ssy.
    split; [rewrite Hx; reflexivity|].
    split; [rewrite Hsx; reflexivity|].
    split; [rewrite Hsy; reflexivity|].
    rewrite Ssy. reflexivity.
Defined.

Lemma fitToBboxContain_proxyRect (env : Env) (self : EntityId) (w : World) :
  isTransformEnabled (transformers w self) = true ->
  let p := proxyRect (transformers w self) in
  let rect := bbox env in
  let gridSize := positionGridSize env in
  let scale := Qmin (Rect.width rect / ProxyRect.width p)
                    (Rect.height rect / ProxyRect.height p) in
  let scaledWidth := ProxyRect.width p * scale in
  let scaledHeight := ProxyRect.height p * scale in
  let centerX := Rect.x rect + (Rect.width rect - scaledWidth) / 2 in
  let centerY := Rect.y rect + (Rect.height rect - scaledHeight) / 2 in
  proxyRectAfter self (fitToBboxContain env self) w
  = ProxyRect.mk
      (Util.clamp
         (if JS.gtb gridSize 1 then Util.roundToMultiple centerX gridSize else centerX)
         (Rect.x rect) (Rect.x rect + Rect.width rect - scaledWidth))
      (Util.clamp
         (if JS.gtb gridSize 1 then Util.roundToMultiple centerY gridSize else centerY)
         (Rect.y rect) (Rect.y rect + Rect.height rect - scaledHeight))
      (ProxyRect.width p) (ProxyRect.height p) scale scale 0.
Proof.
  intros Hen. unfold proxyRectAfter, fitToBboxContain, syncObjectGroupWithProxyRect,
    bind, this, modify, emit.
  rewrite Hen. cbn [negb fst snd transformers]. rewrite String.eqb_refl. reflexivity.
Qed.

Lemma fitToBboxCover_proxyRect (env : Env) (self : EntityId) (w : World) :
  isTransformEnabled (transformers w self) = true ->
  let p := proxyRect (transformers w self) in
  let rect := bbox env in
  let gridSize := positionGridSize env in
  let scale := Qmax (Rect.width rect / ProxyRect.width p)
                    (Rect.height rect / ProxyRect.height p) in
  let scaledWidth := ProxyRect.width p * scale in
  let scaledHeight := ProxyRect.height p * scale in
  let centerX := Rect.x rect + (Rect.width rect - scaledWidth) / 2 in
  let centerY := Rect.y rect + (Rect.height rect - scaledHeight) / 2 in
  proxyRectAfter self (fitToBboxCover env self) w
  = ProxyRect.mk
      (if JS.gtb scaledWidth (Rect.width rect)
       then if JS.gtb gridSize 1 then Util.roundToMultiple centerX gridSize else centerX
       else Rect.x rect)
      (if JS.gtb scaledHeight (Rect.height rect)
       then if JS.gtb gridSize 1 then Util.roundToMultiple centerY gridSize else centerY
       else Rect.y rect)
      (ProxyRect.width p) (ProxyRect.height p) scale scale 0.
Proof.
  intros Hen. unfold proxyRectAfter, fitToBboxCover, syncObjectGroupWithProxyRect,
    bind, this, modify, emit.
  rewrite Hen. cbn [negb fst snd transformers]. rewrite String.eqb_refl. reflexivity.
Qed.

Lemma clamp_bounds (value lower upper : Q) :
  lower <= upper -> lower <= Util.clamp value lower upper <= upper.
Proof.
  intros H. unfold Util.clamp. split.
  - apply Q.min_glb; [apply Q.le_max_r|exact H].
  - apply Q.le_min_r.
Qed.

Lemma ratio_scaled (size target : Q) : 0 < size -> size * (target / size) == target.
Proof. intros H. field. lra. Qed.

(** C6 (amended).  Over exact rationals: with the transform enabled, a
    target rectangle of positive size
    and a proxy rect of positive width and height: [fitToBboxContain] leaves
    the scaled proxy rect inside the target rectangle, [fitToBboxCover] leaves
    it covering the target rectangle on at least one axis, and both set one
    scale for the two axes (the smaller of the two ratios for contain, the
    larger for cover) and a rotation of 0. *)
Theorem fitToBbox_contain_cover (env : Env) (self : EntityId) (w : World) :
  let p := proxyRect (transformers w self) in
  let rect := bbox env in
  let contain := proxyRectAfter self (fitToBboxContain env self) w in
  let cover := proxyRectAfter self (fitToBboxCover env self) w in
  isTransformEnabled (transformers w self) = true ->
  0 < Rect.width rect -> 0 < Rect.height rect ->
  0 < ProxyRect.width p -> 0 < ProxyRect.height p ->
  (ProxyRect.scaleX contain
   = Qmin (Rect.width rect / ProxyRect.width p) (Rect.height rect / ProxyRect.height p)
   /\ ProxyRect.scaleY contain = ProxyRect.scaleX contain
   /\ ProxyRect.rotation contain = 0
   /\ inside (ProxyRect.x contain) (ProxyRect.width contain * ProxyRect.scaleX contain)
             (Rect.x rect) (Rect.width rect)
   /\ inside (ProxyRect.y contain) (ProxyRect.height contain * ProxyRect.scaleY contain)
             (Rect.y rect) (Rect.height rect))
  /\ (ProxyRect.scaleX cover
      = Qmax (Rect.width rect / ProxyRect.width p) (Rect.height rect / ProxyRect.height p)
      /\ ProxyRect.scaleY cover = ProxyRect.scaleX cover
      /\ ProxyRect.rotation cover = 0
      /\ (covers (ProxyRect.x cover) (ProxyRect.width cover * ProxyRect.scaleX cover)
                 (Rect.x rect) (Rect.width rect)
          \/ covers (ProxyRect.y cover) (ProxyRect.height cover * ProxyRect.scaleY cover)
                    (Rect.y rect) (Rect.height rect))).
Proof.
  intros p rect contain cover Hen Hrw Hrh Hw Hh. subst contain cover.
  rewrite (fitToBboxContain_proxyRect env self w Hen).
  rewrite (fitToBboxCover_proxyRect env self w Hen).
  fold p rect.
  cbn [ProxyRect.x ProxyRect.y ProxyRect.width ProxyRect.height
       ProxyRect.scaleX ProxyRect.scaleY ProxyRect.rotation].
  pose proof (ratio_scaled (ProxyRect.width p) (Rect.width rect) Hw) as Ew.
  pose proof (ratio_scaled (ProxyRect.height p) (Rect.height rect) Hh) as Eh.
  set (sx := Rect.width rect / ProxyRect.width p) in *.
  set (sy := Rect.height rect / ProxyRect.height p) in *.
  split.
  - assert (Hcw : ProxyRect.width p * Qmin sx sy <= Rect.width rect).
    { rewrite <- Ew. apply Qmult_le_l; [exact Hw|apply Q.le_min_l]. }
    assert (Hch : ProxyRect.height p * Qmin sx sy <= Rect.height rect).
    { rewrite <- Eh. apply Qmult_le_l; [exact Hh|apply Q.le_min_r]. }
    repeat split; auto.
    + apply clamp_bounds. lra.
    + match goal with
      | |- Util.clamp ?v ?lo ?hi + _ <= _ =>
          pose proof (proj2 (clamp_bounds v lo hi ltac:(lra)))
      end. lra.
    + apply clamp_bounds. lra.
    + match goal with
      | |- Util.clamp ?v ?lo ?hi + _ <= _ =>
          pose proof (proj2 (clamp_bounds v lo hi ltac:(lra)))
      end. lra.
  - repeat split; auto.
    destruct (Q.max_spec sx sy) as [[Hlt Emax]|[Hle Emax]].
    + right. assert (E : ProxyRect.height p * Qmax sx sy == Rect.height rect)
        by (rewrite Emax; exact Eh).
      rewrite (proj2 (gtb_false (ProxyRect.height p * Qmax sx sy) (Rect.height rect)))
        by (rewrite E; apply Qle_refl).
      unfold covers. rewrite E. split; apply Qle_refl.
    + left. assert (E : ProxyRect.width p * Qmax sx sy == Rect.width rect)
        by (rewrite Emax; exact Ew).
      rewrite (proj2 (gtb_false (ProxyRect.width p * Qmax sx sy) (Rect.width rect)))
        by (rewrite E; apply Qle_refl).
      unfold covers. rewrite E. split; apply Qle_refl.
Qed.

(** A 200 by 100 proxy rect fitted to the 512 by 512 box on a grid of 8:
    contain scales it by 2.56, cover by 5.12. *)
Lemma fitToBbox_contain_cover_witness :
  let env := exampleEnv 8 (Coordinate.mk 0 0) in
  let w := exampleWorld (ProxyRect.mk 10 20 200 100 1 1 30) true in
  let contain := proxyRectAfter layerA (fitToBboxContain env layerA) w in
  let cover := proxyRectAfter layerA (fitToBboxCover env layerA) w in
  inside (ProxyRect.y contain) (ProxyRect.height contain * ProxyRect.scaleY contain) 0 512
  /\ ProxyRect.rotation cover = 0.
Proof.
  intros env w contain cover.
  destruct (fitToBbox_contain_cover env layerA w)
    as ((_ & _ & _ & _ & Hy) & (_ & _ & Hrot & _)).
  - reflexivity.
  - reflexivity.
  - reflexivity.
  - reflexivity.
  - reflexivity.
  - split; [exact Hy|exact Hrot].
Defined.

End AffineFacts.

(** ** The affine controller in binary64: where rounding shows *)

Module Binary64Facts.
Import PrimFloat Binary64.
Local Open Scope float_scope.

(** The whole numbers that [Math.floor] and [Math.round] answer at the ties
    and on both sides of zero. *)
Lemma round_ties_binary64 :
  (round 2.5, round (-2.5), round (-1.5), round 0.5, floor (-0.5), floor 3)
  = (3, -2, -1, 1, -1, 3).
Proof. reflexivity. Qed.

(** C5 as stated fails in binary64: a proxy rect of 49 by 49 scaled by
    10.453125 and by 0.0205078125 has the target size 512 by 1; the scales
    that are derived back are the doubles nearest to 512/49 and to 1/49, and
    49 times either is just below 512 and just below 1. *)
Lemma snapProxyRectToPixelGrid_inexact :
  let p := mkProxyRect 10.25 20.5 49 49 10.453125 0.0205078125 0 in
  let p' := snapProxyRectToPixelGrid p in
  (x p', y p') = (10, 21)
  /\ max (abs (round (width p * scaleX p))) 1 = 512
  /\ max (abs (round (height p * scaleY p))) 1 = 1
  /\ (width p' * abs (scaleX p') =? 512) = false
  /\ (height p' * abs (scaleY p') =? 1) = false
  /\ (width p' * abs (scaleX p') <? 512) = true
  /\ (height p' * abs (scaleY p') <? 1) = true.
Proof. vm_compute. repeat split; reflexivity. Qed.

(** C6 as stated fails in binary64.  Cover: a proxy rect of 49 by 49 fitted
    to a target of 512 by 512 at the origin gets the double nearest to 512/49
    as its scale; 49 times that is just below 512, so the rect stays at the
    origin and covers the target on neither axis.  Contain: a proxy rect of 7
    by 7 fitted to a target of 29 by 29 at the origin gets the double nearest
    to 29/7; 7 times that is just above 29, the upper bound of the clamp is
    below the lower one, and the rect is put left of and above the target. *)
Lemma fitToBbox_contain_cover_inexact :
  let cover := fitToBboxCover (mkRect 0 0 512 512) 1 (mkProxyRect 3 4 49 49 1 1 0) in
  let contain := fitToBboxContain (mkRect 0 0 29 29) 1 (mkProxyRect 3 4 7 7 1 1 0) in
  (x cover, y cover) = (0, 0)
  /\ (width cover * scaleX cover <? 512) = true
  /\ covers (x cover) (width cover * scaleX cover) 0 512 = false
  /\ covers (y cover) (height cover * scaleY cover) 0 512 = false
  /\ (x contain <? 0) = true
  /\ (y contain <? 0) = true
  /\ inside (x contain) (width contain * scaleX contain) 0 29 = false
  /\ inside (y contain) (height contain * scaleY contain) 0 29 = false.
Proof. vm_compute. repeat split; reflexivity. Qed.

(** [fitToBboxFill] in binary64, on the same 49 by 49 proxy rect: its scaled
    width is just below the 512 of the target. *)
Lemma fitToBboxFill_inexact :
  let fill := fitToBboxFill (mkRect 0 0 512 512) (mkProxyRect 3 4 49 49 1 1 0) in
  (width fill * scaleX fill =? 512) = false
  /\ (width fill * scaleX fill <? 512) = true.
Proof. vm_compute. repeat split; reflexivity. Qed.

End Binary64Facts.

(** ** What a method leaves alone *)

Module FrameFacts.
Import Transformer Spec.

Lemma keeps_ret {A B : Type} (obs : World -> A) (b : B) : keeps obs (ret b).
Proof. intros w. split; [now exists b|reflexivity]. Qed.

Lemma keeps_bind {A B C : Type} (obs : World -> A) (m : Op B) (k : B -> Op C) :
  keeps obs m -> (forall b, keeps obs (k b)) -> keeps obs (bind m k).
Proof.
  intros Hm Hk w. destruct (Hm w) as [[b Hb] Hobs]. unfold bind.
  destruct (m w) as [[b'| |] w'] eqn:E; cbn in Hb, Hobs; try discriminate.
  destruct (Hk b' w') as [Hdone Hobs']. split; [exact Hdone|congruence].
Qed.

Lemma keeps_detached {A : Type} (obs : World -> A) (m : Op unit) :
  keeps obs m -> keeps obs (detached m).
Proof.
  intros Hm w. destruct (Hm w) as [_ Hobs]. split; [now exists tt|exact Hobs].
Qed.

Lemma keeps_this {A : Type} (obs : World -> A) (self : EntityId) : keeps obs (this self).
Proof. intros w. split; [now eexists|reflexivity]. Qed.

Lemma keeps_emit_state {A : Type} (self : EntityId) (f : Transformer.t -> A) (e : Event) :
  keeps (stateObs self f) (emit e).
Proof. intros w. split; [now exists tt|reflexivity]. Qed.

Lemma keeps_pointer_state {A : Type} (self : EntityId) (f : Transformer.t -> A)
    (a : option EntityId) :
  keeps (stateObs self f) (setTransformingAdapter a).
Proof. intros w. split; [now exists tt|reflexivity]. Qed.

Lemma keeps_modify_state {A : Type} (self : EntityId) (f : Transformer.t -> A)
    (g : Transformer.t -> Transformer.t) :
  (forall me, f (g me) = f me) -> keeps (stateObs self f) (modify self g).
Proof.
  intros Hg w. split; [now exists tt|].
  unfold stateObs, modify. cbn [snd transformers]. rewrite String.eqb_refl. apply Hg.
Qed.

Lemma keeps_emit_resets (e : Event) : isReset e = false -> keeps resets (emit e).
Proof.
  intros He w. split; [now exists tt|].
  unfold resets, emit. cbn [snd events]. rewrite filter_app. cbn [filter].
  rewrite He. now rewrite app_nil_r.
Qed.

Lemma keeps_modify_resets (self : EntityId) (g : Transformer.t -> Transformer.t) :
  keeps resets (modify self g).
Proof. intros w. split; [now exists tt|reflexivity]. Qed.

Create HintDb keeps.

Ltac keeps_step :=
  lazymatch goal with
  | |- keeps _ (ret _) => apply keeps_ret
  | |- keeps _ (this _) => apply keeps_this
  | |- keeps _ (detached _) => apply keeps_detached
  | |- keeps (stateObs _ _) (emit _) => apply keeps_emit_state
  | |- keeps (stateObs _ _) (setTransformingAdapter _) => apply keeps_pointer_state
  | |- keeps (stateObs _ _) (modify _ _) =>
      apply keeps_modify_state; intros ?; reflexivity
  | |- keeps resets (emit _) => apply keeps_emit_resets; reflexivity
  | |- keeps resets (modify _ _) => apply keeps_modify_resets
  | |- keeps _ (bind _ _) => apply keeps_bind; [|intros ?]
  | |- keeps _ (match ?x with _ => _ end) => destruct x
  | |- keeps _ (let _ := _ in _) => cbv zeta
  | |- _ => solve [auto with keeps]
  end.

Ltac keeps_auto := unfold log; repeat keeps_step.

Section Frames.

Variable env : Env.
Variable self : EntityId.

(** The interaction mode is only written at the head of [_setInteractionMode]. *)
Lemma setInteractionMode_mode (interactionMode : InteractionMode) (w : World) :
  Transformer.interactionMode
    (transformers (snd (_setInteractionMode env self interactionMode w)) self)
  = interactionMode.
Proof.
  unfold _setInteractionMode.
  set (rest := match interactionMode with drag => _ | all => _ | off => _ end).
  assert (Hrest : keeps (stateObs self Transformer.interactionMode) rest).
  { subst rest.
    unfold _enableDrag, _disableDrag, _enableTransform, _disableTransform, _disableWarp,
      _enableWarp, prepareWarpPreview, syncWarpScale, updateWarpNodes,
      updateWarpPreviewImage, _showBboxOutline, _hideBboxOutline.
    destruct interactionMode; keeps_auto. }
  unfold bind at 1. cbn [modify]. destruct (Hrest
    (mkWorld (transformingAdapter w)
       (fun id => if String.eqb id self
                  then set_interactionMode interactionMode (transformers w id)
                  else transformers w id) (events w))) as [_ Hobs].
  unfold stateObs in Hobs. rewrite Hobs. cbn [transformers]. now rewrite String.eqb_refl.
Qed.

Lemma setInteractionMode_resets (interactionMode : InteractionMode) :
  keeps resets (_setInteractionMode env self interactionMode).
Proof.
  unfold _setInteractionMode, _enableDrag, _disableDrag, _enableTransform,
    _disableTransform, _disableWarp, _enableWarp, prepareWarpPreview, syncWarpScale,
    updateWarpNodes, updateWarpPreviewImage, _showBboxOutline, _hideBboxOutline.
  destruct interactionMode; keeps_auto.
Qed.

Hint Resolve setInteractionMode_resets : keeps.

Lemma syncInteractionState_resets : keeps resets (syncInteractionState env self).
Proof. unfold syncInteractionState. keeps_auto. Qed.

Lemma setInteractionMode_rects (interactionMode : InteractionMode) :
  keeps (stateObs self rects) (_setInteractionMode env self interactionMode).
Proof.
  unfold _setInteractionMode, _enableDrag, _disableDrag, _enableTransform,
    _disableTransform, _disableWarp, _enableWarp, prepareWarpPreview, syncWarpScale,
    updateWarpNodes, updateWarpPreviewImage, _showBboxOutline, _hideBboxOutline.
  destruct interactionMode; keeps_auto.
Qed.

Hint Resolve setInteractionMode_rects : keeps.

Lemma syncInteractionState_rects : keeps (stateObs self rects) (syncInteractionState env self).
Proof. unfold syncInteractionState. keeps_auto. Qed.

Hint Resolve syncInteractionState_rects : keeps.



End Frames.

End FrameFacts.

(** ** Transform lifecycle and concurrency guard *)

Module LifecycleFacts.
Import Transformer Spec Examples FrameFacts.

(** *** The priority chain of the design document *)

Lemma mode_after_listening (env : Env) (self : EntityId) (on : bool)
    (mode : InteractionMode) (w : World) :
  interactionMode
    (transformers (snd ((emit (Listening layer on) ;; _setInteractionMode env self mode) w))
       self)
  = mode.
Proof. unfold bind at 1. cbn [emit]. apply setInteractionMode_mode. Qed.

(** C4.  The interaction mode that [syncInteractionState] sets is the one the
    priority chain of the design document gives: globally busy, a conflicting
    segmentation or filter on the entity, another entity mid-transform, bbox
    pending or entity empty, entity not selected, entity locked, and at last
    the default that depends on the tool; the first condition that holds
    decides. *)
Theorem syncInteractionState_priority_chain (env : Env) (self : EntityId) (w : World) :
  interactionMode (transformers (snd (syncInteractionState env self w)) self)
  = priorityChain env (transformers w self).
Proof.
  unfold syncInteractionState, priorityChain, firstMatch, globallyBusy,
    conflictingOperation, anotherEntityMidTransform, bboxPendingOrEntityEmpty,
    entityNotSelected, entityLocked, toolDependentDefault.
  unfold bind at 1. unfold log. cbn [emit].
  unfold bind at 1. cbn [this transformers].
  set (me := transformers w self).
  destruct (isStaging env); [apply mode_after_listening|].
  destruct (isTrue (isSegmenting env)); [apply mode_after_listening|].
  destruct (isTrue (isFiltering env)); [apply mode_after_listening|].
  cbn [orb].
  destruct (stateApi_isTransforming env && negb (isTransforming me));
    [apply mode_after_listening|].
  destruct (isPendingRectCalculation me || JS.is_zero (Rect.width (pixelRect me))
            || JS.is_zero (Rect.height (pixelRect me))) eqn:Hbox.
  { cbn [orb]. apply mode_after_listening. }
  cbn [orb].
  destruct (isSelected env); cbn [negb].
  2: { rewrite mode_after_listening. now destruct (isEmpty env). }
  destruct (isEmpty env); [apply mode_after_listening|].
  destruct (isLocked env); [apply mode_after_listening|].
  destruct (isTransforming me); cbn [negb andb].
  - destruct (String.eqb (tool env) "view"); apply mode_after_listening.
  - destruct (String.eqb (tool env) "move"); apply mode_after_listening.
Qed.

(** *** Starting and applying a transform *)

(** C8.  When some entity is already marked as the one being transformed,
    [startTransform] throws before it takes the lock: the world, and with it
    the flags, the transform mode and the lock of the first session and the
    pointer to it, is what it was. *)
Theorem startTransform_fails_fast (env : Env) (self other : EntityId)
    (arg : option bool) (w : World) :
  transformingAdapter w = Some other ->
  startTransform env self arg w
  = (Thrown ("Already transforming an entity: " ++ other), w).
Proof.
  intros Hptr. unfold startTransform, bind, getTransformingAdapter.
  rewrite Hptr. reflexivity.
Qed.

(** Entity 0 is being transformed; starting a transform on entity 1 throws
    and the world stays as it is. *)
Lemma startTransform_fails_fast_witness :
  let env := exampleEnv 1 (Coordinate.mk 0 0) in
  let w := exampleWorld (ProxyRect.mk 0 0 64 64 1 1 0) true in
  startTransform env layerB None w
  = (Thrown "Already transforming an entity: raster_layer:A", w).
Proof.
  intros env w. apply (startTransform_fails_fast env layerB layerA None w).
  reflexivity.
Defined.

(** C10.  Called while the transforming flag is off, [applyTransform] logs a
    warning and does nothing else: it returns with no rasterization asked for,
    no rect calculation requested, no [stopTransform], and every transformer
    and the pointer unchanged. *)
Theorem applyTransform_not_transforming (env : Env) (self : EntityId) (w : World) :
  isTransforming (transformers w self) = false ->
  applyTransform env self w
  = (Done tt,
     mkWorld (transformingAdapter w) (transformers w) (events w ++ [Log warn applyWarning])).
Proof.
  intros Hoff. unfold applyTransform. unfold bind at 1. cbn [this].
  rewrite Hoff. reflexivity.
Qed.

Lemma applyTransform_not_transforming_witness :
  applyTransform (exampleEnv 1 (Coordinate.mk 0 0)) layerA idleWorld
  = (Done tt,
     mkWorld None (transformers idleWorld) [Log warn applyWarning]).
Proof.
  apply (applyTransform_not_transforming
           (exampleEnv 1 (Coordinate.mk 0 0)) layerA idleWorld).
  reflexivity.
Defined.

(** A transform of [layerA] from start to apply, on concrete values: the
    start takes the lock and sets the pointer, the apply rasterizes, asks for a
    new bounding box and stops the transform, and the lock passes to the
    request for the bounding box. *)
Example transform_session :
  let env := exampleEnv 1 (Coordinate.mk 0 0) in
  let started := snd (startTransform env layerA (Some true) idleWorld) in
  let applied := snd (applyTransform env layerA started) in
  (transformingAdapter started = Some layerA
   /\ isTransforming (transformers started layerA) = true
   /\ silentTransform (transformers started layerA) = true
   /\ interactionMode (transformers started layerA) = all
   /\ transformMutex (transformers started layerA) = Mutex.mk true [])
  /\ (transformingAdapter applied = None
      /\ isTransforming (transformers applied layerA) = false
      /\ isProcessing (transformers applied layerA) = false
      /\ isPendingRectCalculation (transformers applied layerA) = true
      /\ calculateRectTimer (transformers applied layerA) = true
      /\ transformMutex (transformers applied layerA) = Mutex.mk true []
      /\ existsb (fun e => match e with Rasterize => true | _ => false end)
           (events applied) = true
      /\ transformers applied layerB = transformers idleWorld layerB).
Proof. vm_compute. repeat split. Qed.

(** *** Resetting an empty entity *)

(** On an empty pixel rect [updateBbox] resets the entity once when nothing
    is pending, no transform is in flight and the entity has objects, and not
    at all otherwise. *)
Lemma updateBbox_resets (env : Env) (self : EntityId) (w : World) :
  let me := transformers w self in
  JS.is_zero (Rect.width (pixelRect me)) || JS.is_zero (Rect.height (pixelRect me)) = true ->
  resets (snd (updateBbox env self w))
  = (resets w
     + if negb (isPendingRectCalculation me) && negb (isTransforming me)
          && negb (isProcessing me) && hasObjects env
       then 1 else 0)%nat.
Proof.
  intros me Hzero. unfold updateBbox. unfold bind at 1. cbn [this]. fold me.
  unfold bind at 1. unfold log at 1. cbn [emit].
  match goal with
  | |- resets (snd (_ ?w1)) = _ =>
      set (w' := w1); assert (Hw' : resets w' = resets w);
        [subst w'; unfold resets; cbn [events]; rewrite filter_app; cbn [filter isReset];
         now rewrite app_nil_r|]
  end.
  destruct (isPendingRectCalculation me); cbn [negb andb].
  { rewrite (proj2 (syncInteractionState_resets env self w')). lia. }
  rewrite Hzero.
  destruct (isTransforming me); cbn [negb andb].
  { unfold bind at 1. cbn [ret]. rewrite (proj2 (syncInteractionState_resets env self w')). lia. }
  destruct (isProcessing me); cbn [negb andb].
  { unfold bind at 1. cbn [ret]. rewrite (proj2 (syncInteractionState_resets env self w')). lia. }
  destruct (hasObjects env).
  - unfold bind at 1. cbn [emit].
    rewrite (proj2 (syncInteractionState_resets env self _)).
    unfold resets in *. cbn [events]. rewrite filter_app, length_app, Hw'. reflexivity.
  - unfold bind at 1. cbn [ret]. rewrite (proj2 (syncInteractionState_resets env self w')). lia.
Qed.

(** C9.  When [updateBbox] finds a pixel rect of zero width or zero height,
    it resets the entity state only if the entity has objects and neither the
    transforming flag nor the processing flag is set; while either flag is
    set the entity state is not reset. *)
Theorem updateBbox_reset_only_when_idle (env : Env) (self : EntityId) (w : World) :
  let me := transformers w self in
  Rect.width (pixelRect me) == 0 \/ Rect.height (pixelRect me) == 0 ->
  (resets (snd (updateBbox env self w)) <> resets w ->
   hasObjects env = true /\ isTransforming me = false /\ isProcessing me = false)
  /\ (isTransforming me = true \/ isProcessing me = true ->
      resets (snd (updateBbox env self w)) = resets w)
  /\ (hasObjects env = true -> isTransforming me = false -> isProcessing me = false ->
      isPendingRectCalculation me = false ->
      resets (snd (updateBbox env self w)) = S (resets w)).
Proof.
  intros me Hzero.
  assert (Hz : JS.is_zero (Rect.width (pixelRect me))
               || JS.is_zero (Rect.height (pixelRect me)) = true).
  { apply orb_true_iff. destruct Hzero as [H|H]; [left|right];
      now apply NumberFacts.is_zero_true. }
  rewrite (updateBbox_resets env self w Hz). fold me.
  destruct (isPendingRectCalculation me), (isTransforming me), (isProcessing me),
    (hasObjects env); cbn [negb andb];
    repeat split; intros; try lia; try congruence; intuition congruence.
Qed.

(** A layer that was erased completely: idle, it is reset. *)
Lemma updateBbox_reset_only_when_idle_witness :
  let env := exampleEnv 1 (Coordinate.mk 0 0) in
  resets (snd (updateBbox env layerA erasedWorld)) = 1%nat.
Proof.
  intros env.
  destruct (updateBbox_reset_only_when_idle env layerA erasedWorld) as (_ & _ & Hreset).
  - left. reflexivity.
  - apply Hreset; reflexivity.
Defined.

End LifecycleFacts.

(** ** Bounding-box calculator *)

Module BboxFacts.
Import Transformer Spec Examples FrameFacts NumberFacts.


Section Recompute.

Variable env : Env.
Variable self : EntityId.



End Recompute.



(** On the worker's answer nothing compares the extents with the node rect:
    for a node rect of 10.5 by 10.5, an answer that spans eleven pixels each
    way gives a pixel rect of 11 by 11. *)
Lemma recompute_takes_extents_over :
  let w' := snd (recompute (erasedLayerEnv (Rect.mk 0 0 (21 # 2) (21 # 2))) layerA
                   (Some (mkExtents 0 0 11 11)) pendingWorld) in
  let node := nodeRect (transformers w' layerA) in
  let pixel := pixelRect (transformers w' layerA) in
  Rect.width node == 21 # 2
  /\ Rect.width pixel == 11
  /\ ~ (Rect.width pixel <= Rect.width node /\ Rect.height pixel <= Rect.height node).
Proof.
  intros w' node pixel.
  split; [vm_compute; reflexivity|].
  split; [vm_compute; reflexivity|].
  intros [Hw _]. apply Qle_bool_iff in Hw. vm_compute in Hw. discriminate.
Qed.


End BboxFacts.

(** ** Warp transform controller: degenerate quads *)

Module WarpFacts.
Import Homography Warp Spec.

(** Whatever the four correspondences, what [computeHomography] returns
    passes [isValidHomography] when the elimination met a zero pivot: the
    solver answers zeros, and zeros are finite. *)
Lemma zero_pivot_passes_validation (s0 s1 s2 s3 d0 d1 d2 d3 : Coordinate.t) :
  let src := [s0; s1; s2; s3] in
  let dst := [d0; d1; d2; d3] in
  nonDegenerate src dst = false ->
  isValidHomography (computeHomography src dst) = true.
Proof.
  intros src dst. subst src dst.
  unfold nonDegenerate, computeHomography, solveLinearSystem.
  cbv [homographySystem buildSystem length Nat.eqb Nat.ltb Nat.leb negb orb seq
       nth_error app].
  match goal with
  | |- context [gaussJordan ?A ?b] => destruct (gaussJordan A b)
  end; [discriminate|reflexivity].
Qed.

(** The zero homography sends every point to the origin. *)
Lemma applyHomography_zeros (p : Coordinate.t) :
  Coordinate.x (applyHomography (repeat 0 8%nat) p) == 0
  /\ Coordinate.y (applyHomography (repeat 0 8%nat) p) == 0.
Proof.
  unfold applyHomography. cbn [repeat JS.get nth].
  rewrite (proj2 (NumberFacts.is_zero_false (0 * Coordinate.x p + 0 * Coordinate.y p + 1)))
    by (intros E; ring_simplify in E; discriminate).
  cbn [Coordinate.x Coordinate.y]. split; field; intros E; ring_simplify in E; discriminate.
Qed.

(** A triangle whose three destinations are the origin paints nothing. *)
Lemma drawWarpTriangle_at_origin (s0 s1 s2 d0 d1 d2 : Coordinate.t) :
  Coordinate.x d0 == 0 -> Coordinate.y d0 == 0 ->
  Coordinate.x d1 == 0 -> Coordinate.y d1 == 0 ->
  Coordinate.x d2 == 0 -> Coordinate.y d2 == 0 ->
  Forall (fun op => paintsNothing op = true) (drawWarpTriangle s0 s1 s2 d0 d1 d2).
Proof.
  intros Hx0 Hy0 Hx1 Hy1 Hx2 Hy2. unfold drawWarpTriangle. cbv zeta.
  destruct (JS.is_zero _) eqn:Hden; [constructor|].
  apply NumberFacts.is_zero_false in Hden.
  constructor; [|constructor]. unfold paintsNothing.
  repeat (apply andb_true_intro; split);
    try (apply NumberFacts.is_zero_true; rewrite ?Hx0, ?Hy0, ?Hx1, ?Hy1, ?Hx2, ?Hy2;
         field; exact Hden);
    apply Qeq_bool_iff; rewrite ?Hx0, ?Hy0, ?Hx1, ?Hy1, ?Hx2, ?Hy2; reflexivity.
Qed.

(** Whenever the elimination meets a zero pivot, whatever the source canvas,
    the corners and the quality, [getWarpedCanvas] does not take the fallback,
    and nothing of what it draws paints a pixel. *)
Lemma getWarpedCanvas_zero_pivot (source : Canvas.t) (corners : WarpCorners.t)
    (arg : option Quality) :
  let tl := WarpCorners.tl corners in
  let tr := WarpCorners.tr corners in
  let br := WarpCorners.br corners in
  let bl := WarpCorners.bl corners in
  let x0 := min4 (Coordinate.x tl) (Coordinate.x tr) (Coordinate.x br) (Coordinate.x bl) in
  let y0 := min4 (Coordinate.y tl) (Coordinate.y tr) (Coordinate.y br) (Coordinate.y bl) in
  nonDegenerate
    [Coordinate.mk 0 0; Coordinate.mk (Canvas.width source) 0;
     Coordinate.mk (Canvas.width source) (Canvas.height source);
     Coordinate.mk 0 (Canvas.height source)]
    [Coordinate.mk (Coordinate.x tl - x0) (Coordinate.y tl - y0);
     Coordinate.mk (Coordinate.x tr - x0) (Coordinate.y tr - y0);
     Coordinate.mk (Coordinate.x br - x0) (Coordinate.y br - y0);
     Coordinate.mk (Coordinate.x bl - x0) (Coordinate.y bl - y0)] = false ->
  exists warped,
    getWarpedCanvas (Some source) (Some corners) arg = Some warped
    /\ Forall (fun op => paintsNothing op = true) (painted warped).
Proof.
  intros tl tr br bl x0 y0 Hsingular.
  unfold getWarpedCanvas. cbv zeta. cbn [Rect.x Rect.y Rect.width Rect.height].
  fold tl tr br bl. fold x0 y0.
  rewrite (zero_pivot_passes_validation _ _ _ _ _ _ _ _ Hsingular). cbn [negb].
  eexists. split; [reflexivity|]. cbn [painted].
  assert (Hh : computeHomography
                 [Coordinate.mk 0 0; Coordinate.mk (Canvas.width source) 0;
                  Coordinate.mk (Canvas.width source) (Canvas.height source);
                  Coordinate.mk 0 (Canvas.height source)]
                 [Coordinate.mk (Coordinate.x tl - x0) (Coordinate.y tl - y0);
                  Coordinate.mk (Coordinate.x tr - x0) (Coordinate.y tr - y0);
                  Coordinate.mk (Coordinate.x br - x0) (Coordinate.y br - y0);
                  Coordinate.mk (Coordinate.x bl - x0) (Coordinate.y bl - y0)]
               = repeat 0 8%nat).
  { revert Hsingular. unfold nonDegenerate, computeHomography, solveLinearSystem.
    cbv [homographySystem buildSystem length Nat.eqb Nat.ltb Nat.leb negb orb seq
         nth_error app].
    match goal with
    | |- context [gaussJordan ?A ?b] => destruct (gaussJordan A b)
    end; [discriminate|reflexivity]. }
  rewrite Hh.
  apply Forall_flat_map, Forall_forall. intros cy _.
  apply Forall_flat_map, Forall_forall. intros cx _.
  unfold drawCell. cbv zeta. apply Forall_app.
  split; apply drawWarpTriangle_at_origin; apply applyHomography_zeros.
Qed.

(** C3 does not hold on the code.  With the bottom edge of the quad dragged
    onto the top edge the four corners are collinear: the system is singular,
    the homography is all zeros, the validity check passes, the fallback that
    stretches the whole source image is not taken, and each of the 32 triangles
    that are drawn instead paints nothing. *)
Lemma getWarpedCanvas_flattened_quad :
  let source := Canvas.mk 4 4 in
  let corners := WarpCorners.mk (Coordinate.mk 0 0) (Coordinate.mk 4 0)
                                (Coordinate.mk 4 0) (Coordinate.mk 0 0) in
  let srcPts := [Coordinate.mk 0 0; Coordinate.mk 4 0; Coordinate.mk 4 4; Coordinate.mk 0 4] in
  let dstPts := [Coordinate.mk 0 0; Coordinate.mk 4 0; Coordinate.mk 4 0; Coordinate.mk 0 0] in
  nonDegenerate srcPts dstPts = false
  /\ computeHomography srcPts dstPts = [0; 0; 0; 0; 0; 0; 0; 0]
  /\ isValidHomography (computeHomography srcPts dstPts) = true
  /\ match getWarpedCanvas (Some source) (Some corners) (Some final) with
     | Some warped =>
         List.length (painted warped) = 32%nat
         /\ forallb paintsNothing (painted warped) = true
     | None => False
     end.
Proof.
  intros source corners srcPts dstPts.
  split; [vm_compute; reflexivity|].
  split; [vm_compute; reflexivity|].
  split; [vm_compute; reflexivity|].
  vm_compute. split; reflexivity.
Qed.

End WarpFacts.

(** ** Further properties of the solver *)

Module SolverLaws.
Import Homography Spec Laws SolverFacts.

Lemma nth_augment (A : Matrix) (b : list Q) :
  forall i r,
    nth r (augment i A b) []
    = if Nat.ltb r (length A) then nth r A [] ++ [JS.get b (i + r)] else [].
Proof.
  induction A as [|row A IH]; intros i r; simpl.
  - now destruct r.
  - destruct r as [|r].
    + now rewrite Nat.add_0_r.
    + rewrite IH. change (Nat.ltb (S r) (S (length A))) with (Nat.ltb r (length A)).
      now rewrite Nat.add_succ_r.
Qed.

Lemma length_augment (A : Matrix) (b : list Q) :
  forall i, length (augment i A b) = length A.
Proof. induction A as [|row A IH]; intros i; simpl; auto. Qed.

(** The augmented matrix of a square system holds [A] in its first [n]
    columns and [b] in the last one. *)
Lemma at2_augment (n : nat) (A : Matrix) (b : list Q) (r c : nat) :
  square n A -> (r < n)%nat ->
  at2 (augment 0 A b) r c
  = if Nat.ltb c n then at2 A r c else if Nat.eqb c n then JS.get b r else 0.
Proof.
  intros [Hlen Hrows] Hr. unfold at2. rewrite nth_augment.
  replace (Nat.ltb r (length A)) with true by (symmetry; apply Nat.ltb_lt; lia).
  assert (Hrow : length (nth r A []) = n).
  { rewrite Forall_forall in Hrows. apply Hrows, nth_In. lia. }
  unfold JS.get. destruct (Nat.ltb_spec c n) as [Hc|Hc].
  - now rewrite app_nth1 by lia.
  - rewrite app_nth2 by lia. rewrite Hrow.
    destruct (Nat.eqb_spec c n) as [->|Hne].
    + now rewrite Nat.sub_diag.
    + destruct (c - n)%nat as [|[|k]] eqn:E; try lia; reflexivity.
Qed.

Lemma satisfies_solves (n : nat) (A : Matrix) (b : list Q) (x : nat -> Q) :
  square n A -> (satisfies n (augment 0 A b) x <-> solves n A b x).
Proof.
  intros Hsq. unfold satisfies, solves. split; intros H r Hr; specialize (H r Hr).
  - rewrite (at2_augment n) in H by trivial.
    rewrite Nat.ltb_irrefl, Nat.eqb_refl in H. rewrite <- H.
    apply sumQ_ext. intros c Hc. rewrite (at2_augment n) by trivial.
    replace (Nat.ltb c n) with true by (symmetry; now apply Nat.ltb_lt). reflexivity.
  - rewrite (at2_augment n A b r n) by trivial.
    rewrite Nat.ltb_irrefl, Nat.eqb_refl. rewrite <- H.
    apply sumQ_ext. intros c Hc. rewrite (at2_augment n) by trivial.
    replace (Nat.ltb c n) with true by (symmetry; now apply Nat.ltb_lt). reflexivity.
Qed.

(** One iteration of the loop over [col] loses no solution. *)
Lemma pivotStep_forward (n k : nat) (M M' : Matrix) (x : nat -> Q) :
  (k < n)%nat -> reduced n k M -> pivotStep n k M = Some M' ->
  satisfies n M x -> satisfies n M' x.
Proof.
  intros Hk Hred Hstep Hsat.
  destruct (pivotStep_spec n k M M' Hk Hred Hstep) as (p & Hp & Hpiv & Hrowk & Hrows).
  unfold satisfies in *.
  assert (Hrow : sumQ n (fun c => at2 M' k c * x c) == at2 M' k n).
  { apply (Qmult_inj_r _ _ (at2 M p k) Hpiv).
    rewrite (Hrowk n) by lia. rewrite <- (Hsat p) by lia.
    rewrite (Qmult_comm _ (at2 M p k)), <- sumQ_scale.
    apply sumQ_ext. intros c Hc. rewrite <- (Hrowk c) by lia. ring. }
  intros r Hr. destruct (Nat.eq_dec r k) as [->|Hrk]; [exact Hrow|].
  set (q := if Nat.eqb r p then k else r).
  assert (Hq : (q < n)%nat) by (subst q; destruct (Nat.eqb r p); lia).
  pose proof (Hrows r Hr Hrk) as E. fold q in E.
  rewrite (E n) by lia. rewrite <- (Hsat q Hq), <- Hrow.
  rewrite (sumQ_ext n _ (fun c => at2 M q c * x c + (- at2 M q k) * (at2 M' k c * x c))).
  - rewrite sumQ_plus, sumQ_scale. ring.
  - intros c Hc. rewrite (E c) by lia. ring.
Qed.

Lemma eliminate_forward (n len : nat) :
  forall (k : nat) (M M' : Matrix) (x : nat -> Q),
    (k + len = n)%nat -> reduced n k M -> eliminate n (seq k len) M = Some M' ->
    satisfies n M x -> satisfies n M' x.
Proof.
  induction len as [|len IH]; intros k M M' x Hlen Hred Hel Hsat; simpl in Hel.
  - now injection Hel as <-.
  - destruct (pivotStep n k M) as [M1|] eqn:Hstep; [|discriminate].
    assert (Hk : (k < n)%nat) by lia.
    apply (IH (S k) M1 M' x); auto; try lia.
    + eapply pivotStep_reduced; eauto.
    + eapply pivotStep_forward; eauto.
Qed.

(** The elimination neither adds nor drops a row. *)
Lemma pivotStep_length (n k : nat) (M M' : Matrix) :
  length M = n -> pivotStep n k M = Some M' -> length M' = n.
Proof.
  intros Hlen. unfold pivotStep.
  destruct (findPivot_spec M k n) as (_ & Hge & Hlt).
  destruct (findPivot M k n) as [maxVal p]. cbn [fst snd] in *.
  destruct (JS.is_zero maxVal); [discriminate|].
  set (M1 := if Nat.eqb p k then M else swapRows k p M).
  assert (HM1 : length M1 = n).
  { subst M1. destruct (Nat.eqb_spec p k) as [|Hne]; [trivial|].
    unfold swapRows. rewrite !length_set_lt; try lia.
    rewrite length_set_lt; lia. }
  destruct (nth_error M1 k) as [colData|] eqn:Ecol; [|discriminate].
  assert (Hk : (k < length M1)%nat) by (apply nth_error_Some; congruence).
  intros E. injection E as <-.
  unfold eliminateRows.
  destruct (eliminateRows_fold (normalizeRow (JS.get colData k) k n colData) k n n 0
              (JS.set [] k (normalizeRow (JS.get colData k) k n colData) M1) 0%nat)
    as [Hl _].
  rewrite Hl, length_set_lt; lia.
Qed.

Lemma eliminate_length (n : nat) (cols : list nat) :
  forall M M', length M = n -> eliminate n cols M = Some M' -> length M' = n.
Proof.
  induction cols as [|col cols IH]; intros M M' Hlen Hel; simpl in Hel.
  - now injection Hel as <-.
  - destruct (pivotStep n col M) as [M1|] eqn:Hstep; [|discriminate].
    apply (IH M1); auto. eapply pivotStep_length; eauto.
Qed.

(** X1.  [solveLinearSystem] is sound: for a system of [n] equations in [n]
    unknowns whose elimination meets no zero pivot, the vector it returns
    solves every equation, [sum_c A[r][c] * x[c] = b[r]]. *)
Theorem solveLinearSystem_solves (A : Matrix) (b : list Q) :
  square (length b) A -> gaussJordan A b <> None ->
  solves (length b) A b (JS.get (solveLinearSystem A b)).
Proof.
  intros Hsq Hgj. destruct (gaussJordan A b) as [M|] eqn:E; [|congruence].
  apply satisfies_solves; [exact Hsq|].
  exact (solveLinearSystem_sound A b M E).
Qed.

Lemma solveLinearSystem_solves_witness :
  solves 2 [[2; 1]; [1; 3]] [3; 5] (JS.get (solveLinearSystem [[2; 1]; [1; 3]] [3; 5])).
Proof.
  apply (solveLinearSystem_solves [[2; 1]; [1; 3]] [3; 5]).
  - split; [reflexivity|]. repeat constructor.
  - vm_compute. discriminate.
Defined.

(** What the elimination leaves in the last column is the only solution. *)
Lemma gaussJordan_unique (A M : Matrix) (b : list Q) (y : nat -> Q) :
  square (length b) A -> gaussJordan A b = Some M ->
  solves (length b) A b y ->
  forall c, (c < length b)%nat -> at2 M c (length b) == y c.
Proof.
  intros Hsq E Hy c Hc.
  unfold gaussJordan in E.
  assert (Hred0 : reduced (length b) 0 (augment 0 A b)) by (intros r c' _ Hc'; lia).
  destruct (eliminate_spec (length b) (length b) 0 (augment 0 A b) M) as [Hred _]; auto.
  assert (Hsat : satisfies (length b) M y).
  { apply (eliminate_forward (length b) (length b) 0 (augment 0 A b) M y); auto.
    now apply satisfies_solves. }
  rewrite <- (Hsat c Hc).
  rewrite (sumQ_ext _ _ (fun c' => delta c c' * y c')).
  - now rewrite sumQ_delta.
  - intros c' Hc'. rewrite (Hred c c') by trivial. reflexivity.
Qed.



(** X3.  Whether or not a pivot is zero, a system with as many rows as
    right-hand sides gets an answer with one entry for each unknown. *)
Theorem solveLinearSystem_length (A : Matrix) (b : list Q) :
  length A = length b -> length (solveLinearSystem A b) = length b.
Proof.
  intros Hlen. unfold solveLinearSystem.
  destruct (gaussJordan A b) as [M|] eqn:E.
  - rewrite length_map. unfold gaussJordan in E.
    apply (eliminate_length _ _ _ _ (eq_trans (length_augment A b 0) Hlen) E).
  - apply repeat_length.
Qed.

Lemma solveLinearSystem_length_witness :
  length (solveLinearSystem [[1; 2]; [2; 4]] [1; 1]) = 2%nat.
Proof. apply (solveLinearSystem_length [[1; 2]; [2; 4]] [1; 1]). reflexivity. Defined.

End SolverLaws.

(** ** Further properties of the homography *)

Module HomographyLaws.
Import Homography Spec Laws SolverFacts SolverLaws.

(** The system of four correspondences is square. *)
Lemma homographySystem_four (s0 s1 s2 s3 d0 d1 d2 d3 : Coordinate.t) :
  exists A b,
    homographySystem [s0; s1; s2; s3] [d0; d1; d2; d3] = Some (A, b)
    /\ length b = 8%nat /\ square 8 A
    /\ forall y,
         (forall s d, In (s, d) [(s0, d0); (s1, d1); (s2, d2); (s3, d3)] ->
            y 0%nat * Coordinate.x s + y 1%nat * Coordinate.y s + y 2%nat
            - Coordinate.x d * (y 6%nat * Coordinate.x s + y 7%nat * Coordinate.y s)
            == Coordinate.x d
            /\ y 3%nat * Coordinate.x s + y 4%nat * Coordinate.y s + y 5%nat
               - Coordinate.y d * (y 6%nat * Coordinate.x s + y 7%nat * Coordinate.y s)
               == Coordinate.y d) ->
         solves 8 A b y.
Proof.
  destruct s0 as [x0 y0], s1 as [x1 y1], s2 as [x2 y2], s3 as [x3 y3].
  destruct d0 as [u0 v0], d1 as [u1 v1], d2 as [u2 v2], d3 as [u3 v3].
  eexists. eexists. split; [reflexivity|].
  split; [reflexivity|]. split; [split; [reflexivity|repeat constructor]|].
  intros y Hy.
  pose proof (Hy _ _ (or_introl eq_refl)) as [E0 E1].
  pose proof (Hy _ _ (or_intror (or_introl eq_refl))) as [E2 E3].
  pose proof (Hy _ _ (or_intror (or_intror (or_introl eq_refl)))) as [E4 E5].
  pose proof (Hy _ _ (or_intror (or_intror (or_intror (or_introl eq_refl))))) as [E6 E7].
  cbn [Coordinate.x Coordinate.y] in *.
  intros r Hr.
  destruct r as [|[|[|[|[|[|[|[|r]]]]]]]]; try lia;
    cbv [sumQ at2 app nth JS.get]; lra.
Qed.

(** X4.  Over exact rationals: when the four targets are the images of the
    four sources under an affine map, and the elimination meets no zero pivot,
    [computeHomography] returns that affine map with no perspective part, and
    [applyHomography] then maps every point of the plane as the affine map
    does.  The doubles of the source round at every step of the elimination,
    and nothing is said here of what they leave. *)
Theorem computeHomography_affine (a b c d e f : Q) (s0 s1 s2 s3 : Coordinate.t) :
  let src := [s0; s1; s2; s3] in
  let dst := map (transformPoint a b c d e f) src in
  let h := computeHomography src dst in
  nonDegenerate src dst = true ->
  (forall i, (i < 8)%nat -> JS.get h i == JS.get [a; c; e; b; d; f; 0; 0] i)
  /\ (forall p, coord_eq (applyHomography h p) (transformPoint a b c d e f p)).
Proof.
  intros src dst h Hnd.
  assert (Hh : forall i, (i < 8)%nat -> JS.get h i == JS.get [a; c; e; b; d; f; 0; 0] i).
  { subst h src dst. cbn [map] in *.
    unfold nonDegenerate, computeHomography in *.
    destruct (homographySystem_four s0 s1 s2 s3
                (transformPoint a b c d e f s0) (transformPoint a b c d e f s1)
                (transformPoint a b c d e f s2) (transformPoint a b c d e f s3))
      as (A & rhs & Hsys & Hlen & Hsq & Hsolves).
    rewrite Hsys in *.
    destruct (gaussJordan A rhs) as [M|] eqn:Hgj; [|discriminate Hnd].
    intros i Hi. rewrite <- Hlen in Hsq, Hi.
    unfold solveLinearSystem. rewrite Hgj, get_solution.
    apply (gaussJordan_unique A M rhs (JS.get [a; c; e; b; d; f; 0; 0])); auto.
    rewrite Hlen. apply Hsolves.
    intros s t Hin. cbn [In] in Hin.
    destruct Hin as [E|[E|[E|[E|[]]]]]; injection E as <- <-;
      cbv [JS.get nth transformPoint Coordinate.x Coordinate.y]; split; ring. }
  split; [exact Hh|].
  intros p. unfold applyHomography. cbv zeta.
  pose proof (Hh 0%nat ltac:(lia)) as H0. pose proof (Hh 1%nat ltac:(lia)) as H1.
  pose proof (Hh 2%nat ltac:(lia)) as H2. pose proof (Hh 3%nat ltac:(lia)) as H3.
  pose proof (Hh 4%nat ltac:(lia)) as H4. pose proof (Hh 5%nat ltac:(lia)) as H5.
  pose proof (Hh 6%nat ltac:(lia)) as H6. pose proof (Hh 7%nat ltac:(lia)) as H7.
  cbv [JS.get nth] in H0, H1, H2, H3, H4, H5, H6, H7. fold (JS.get h) in *.
  assert (Hden : JS.get h 6 * Coordinate.x p + JS.get h 7 * Coordinate.y p + 1 == 1).
  { rewrite H6, H7. ring. }
  rewrite (proj2 (NumberFacts.is_zero_false _))
    by (rewrite Hden; intros E; discriminate).
  unfold coord_eq, transformPoint. cbn [Coordinate.x Coordinate.y].
  rewrite Hden, H0, H1, H2, H3, H4, H5. split; field.
Qed.

(** The identity on a square, seen as an affine map. *)
Lemma computeHomography_affine_witness :
  let src := [Coordinate.mk 0 0; Coordinate.mk 4 0; Coordinate.mk 4 4; Coordinate.mk 0 4] in
  coord_eq (applyHomography (computeHomography src (map (transformPoint 1 0 0 1 0 0) src))
              (Coordinate.mk 3 1))
           (transformPoint 1 0 0 1 0 0 (Coordinate.mk 3 1)).
Proof.
  intros src.
  apply (computeHomography_affine 1 0 0 1 0 0
           (Coordinate.mk 0 0) (Coordinate.mk 4 0) (Coordinate.mk 4 4) (Coordinate.mk 0 4)).
  vm_compute. reflexivity.
Defined.

(** X5.  With fewer than four points, or with lists of different lengths,
    [computeHomography] answers eight zeros; [isValidHomography] accepts them,
    and [applyHomography] sends every point to the origin through them. *)
Theorem computeHomography_missing_points (src dst : list Coordinate.t) :
  length src <> length dst \/ (length src < 4)%nat ->
  computeHomography src dst = repeat 0 8%nat
  /\ isValidHomography (computeHomography src dst) = true
  /\ forall p, coord_eq (applyHomography (computeHomography src dst) p) (Coordinate.mk 0 0).
Proof.
  intros H.
  assert (E : computeHomography src dst = repeat 0 8%nat).
  { unfold computeHomography, homographySystem.
    destruct H as [H|H].
    - apply Nat.eqb_neq in H. now rewrite H.
    - apply Nat.ltb_lt in H. rewrite H. now rewrite orb_true_r. }
  rewrite E. split; [reflexivity|]. split; [reflexivity|].
  intros p. exact (WarpFacts.applyHomography_zeros p).
Qed.

Lemma computeHomography_missing_points_witness :
  computeHomography [Coordinate.mk 0 0; Coordinate.mk 1 0; Coordinate.mk 1 1]
                    [Coordinate.mk 0 0; Coordinate.mk 2 0; Coordinate.mk 2 2]
  = repeat 0 8%nat.
Proof.
  apply (computeHomography_missing_points
           [Coordinate.mk 0 0; Coordinate.mk 1 0; Coordinate.mk 1 1]
           [Coordinate.mk 0 0; Coordinate.mk 2 0; Coordinate.mk 2 2]).
  right. simpl. lia.
Defined.

End HomographyLaws.

(** ** Further properties of the resampler *)

Module WarpLaws.
Import Homography Warp Transformer Spec Laws Examples.



Lemma ofNat_to_nat (z : Z) : (0 <= z)%Z -> ofNat (Z.to_nat z) = inject_Z z.
Proof. intros H. unfold ofNat. now rewrite Z2Nat.id. Qed.

Lemma ofNat_succ (k : nat) : ofNat (k + 1) == ofNat k + 1.
Proof.
  unfold ofNat. rewrite Nat2Z.inj_add, inject_Z_plus. reflexivity.
Qed.

Lemma ceiling_cells (m t : Q) (z : Z) :
  0 < t -> (Qceiling (m / t) <= z)%Z -> m <= inject_Z z * t.
Proof.
  intros Ht Hz.
  assert (H1 : m / t <= inject_Z z).
  { eapply Qle_trans; [apply Qle_ceiling|]. now rewrite <- Zle_Qle. }
  apply (Qmult_le_compat_r _ _ t) in H1; [|now apply Qlt_le_weak].
  assert (E : m / t * t == m).
  { field. intros E. rewrite E in Ht. discriminate. }
  rewrite E in H1. exact H1.
Qed.

Lemma ceiling_tight (m t : Q) : 0 < t -> inject_Z (Qceiling (m / t)) * t < m + t.
Proof.
  intros Ht.
  pose proof (Qceiling_lt (m / t)) as H.
  unfold Z.sub in H. rewrite inject_Z_plus in H. change (inject_Z (- (1))) with (-1) in H.
  assert (H1 : (inject_Z (Qceiling (m / t)) - 1) * t < m / t * t).
  { apply Qmult_lt_compat_r; [exact Ht|]. lra. }
  assert (E : m / t * t == m).
  { field. intros E. rewrite E in Ht. discriminate. }
  rewrite E in H1. lra.
Qed.

(** X7.  The mesh has at least four cells a side, and enough of them for a
    cell of the source to be at most 64 pixels wide and high at the final
    quality, and 128 in a preview; and either it has just four cells a side,
    or one cell fewer a side would not be enough for that. *)
Theorem getWarpSegments_bounds (width height : Q) (quality : Quality) :
  let segments := getWarpSegments width height quality in
  let targetSize := match quality with preview => 128 | final => 64 end in
  (4 <= segments)%nat
  /\ Qmax width height <= ofNat segments * targetSize
  /\ (segments = 4%nat \/ ofNat segments * targetSize < Qmax width height + targetSize).
Proof.
  intros segments targetSize.
  assert (Ht : 0 < targetSize) by (subst targetSize; destruct quality; reflexivity).
  set (z := Z.max 4 (Qceiling (Qmax width height / targetSize))).
  assert (Hseg : segments = Z.to_nat z) by reflexivity.
  assert (Hz : (4 <= z)%Z) by (subst z; lia).
  rewrite Hseg. rewrite ofNat_to_nat by lia.
  split; [lia|]. split.
  - apply ceiling_cells; [exact Ht|]. subst z. lia.
  - destruct (Z.max_spec 4 (Qceiling (Qmax width height / targetSize))) as [[_ E]|[_ E]];
      fold z in E; rewrite E.
    + right. now apply ceiling_tight.
    + now left.
Qed.









Lemma length_flat_map_const {A B : Type} (f : A -> list B) (k : nat) (l : list A) :
  (forall a, In a l -> length (f a) = k) -> length (flat_map f l) = (length l * k)%nat.
Proof.
  induction l as [|a l IH]; intros H; simpl; [reflexivity|].
  rewrite length_app, H by now left. rewrite IH; [reflexivity|].
  intros a' Ha'. apply H. now right.
Qed.

Lemma forallb_flat_map {A B : Type} (p : B -> bool) (f : A -> list B) (l : list A) :
  (forall a, In a l -> forallb p (f a) = true) -> forallb p (flat_map f l) = true.
Proof.
  induction l as [|a l IH]; intros H; simpl; [reflexivity|].
  rewrite forallb_app, H by now left. rewrite IH; [reflexivity|].
  intros a' Ha'. apply H. now right.
Qed.

(** A source triangle that is not flat is drawn, as one clipped triangle. *)
Lemma drawWarpTriangle_one (s0 s1 s2 d0 d1 d2 : Coordinate.t) :
  ~ area2 s0 s1 s2 == 0 ->
  exists a b c d e f,
    drawWarpTriangle s0 s1 s2 d0 d1 d2 = [DrawTriangle a b c d e f d0 d1 d2 (3 # 4)].
Proof.
  intros Harea. unfold drawWarpTriangle. cbv zeta. fold (area2 s0 s1 s2).
  rewrite (proj2 (NumberFacts.is_zero_false _) Harea).
  do 6 eexists. reflexivity.
Qed.

Lemma getWarpSegments_least (width height : Q) (quality : Quality) :
  (4 <= getWarpSegments width height quality)%nat.
Proof. unfold getWarpSegments. lia. Qed.

(** A cell of a mesh with steps that are not zero is drawn as two triangles. *)
Lemma drawCell_two (h : list Q) (stepX stepY : Q) (cy cx : nat) :
  ~ stepX == 0 -> ~ stepY == 0 ->
  length (drawCell h stepX stepY cy cx) = 2%nat
  /\ forallb isTriangle (drawCell h stepX stepY cy cx) = true.
Proof.
  intros Hx Hy. unfold drawCell. cbv zeta.
  assert (Hstep : ~ stepX * stepY == 0).
  { intros E. apply Qmult_integral in E. tauto. }
  match goal with
  | |- context [drawWarpTriangle ?s0 ?s1 ?s2 ?d0 ?d1 ?d2 ++ drawWarpTriangle ?t0 ?t1 ?t2 ?e0 ?e1 ?e2] =>
      destruct (drawWarpTriangle_one s0 s1 s2 d0 d1 d2)
        as (a1 & b1 & c1 & d1' & e1' & f1 & ->);
      [|destruct (drawWarpTriangle_one t0 t1 t2 e0 e1 e2)
          as (a2 & b2 & c2 & d2' & e2' & f2 & ->)]
  end.
  - unfold area2. cbn [Coordinate.x Coordinate.y].
    intros E. apply Hstep. rewrite <- E. rewrite !ofNat_succ. ring.
  - unfold area2. cbn [Coordinate.x Coordinate.y].
    intros E. apply Hstep. rewrite <- E. rewrite !ofNat_succ. ring.
  - split; reflexivity.
Qed.

(** X9.  A source of positive width and height is never drawn in part:
    [getWarpedCanvas] paints either the one stretched image of its fallback or
    the whole mesh, two triangles for each of the [segments * segments]
    cells. *)
Theorem getWarpedCanvas_whole_mesh (source : Canvas.t) (corners : WarpCorners.t)
    (arg : option Quality) :
  0 < Canvas.width source -> 0 < Canvas.height source ->
  let quality := match arg with Some quality => quality | None => final end in
  let segments := getWarpSegments (Canvas.width source) (Canvas.height source) quality in
  exists warped,
    getWarpedCanvas (Some source) (Some corners) arg = Some warped
    /\ (painted warped
        = [DrawImageStretched (Canvas.width (canvas warped)) (Canvas.height (canvas warped))]
        \/ (length (painted warped) = (segments * segments * 2)%nat
            /\ forallb isTriangle (painted warped) = true)).
Proof.
  intros Hw Hh quality segments.
  unfold getWarpedCanvas. cbv zeta. cbn [Rect.x Rect.y Rect.width Rect.height].
  fold quality. fold segments.
  match goal with
  | |- context [if ?c then _ else _] => destruct c
  end; (eexists; split; [reflexivity|]); cbn [painted canvas]; [now left|right].
  pose proof (getWarpSegments_least (Canvas.width source) (Canvas.height source) quality)
    as Hseg.
  fold segments in Hseg.
  assert (Hpos : 0 < ofNat segments).
  { unfold ofNat. change 0 with (inject_Z 0). rewrite <- Zlt_Qlt. lia. }
  assert (Hstep : forall size, 0 < size -> ~ size / ofNat segments == 0).
  { intros size Hsize E.
    assert (0 < size / ofNat segments) as Hlt by now apply Qlt_shift_div_l; lra.
    rewrite E in Hlt. discriminate. }
  split.
  - rewrite (length_flat_map_const _ (segments * 2)%nat).
    + rewrite length_seq. lia.
    + intros cy _. rewrite (length_flat_map_const _ 2%nat).
      * now rewrite length_seq.
      * intros cx _. now apply drawCell_two; apply Hstep.
  - apply forallb_flat_map. intros cy _. apply forallb_flat_map. intros cx _.
    now apply drawCell_two; apply Hstep.
Qed.

Lemma getWarpedCanvas_whole_mesh_witness :
  exists warped,
    getWarpedCanvas (Some (Canvas.mk 4 4))
      (Some (WarpCorners.mk (Coordinate.mk 0 0) (Coordinate.mk 4 0)
                            (Coordinate.mk 4 4) (Coordinate.mk 0 4)))
      None
    = Some warped
    /\ (painted warped
        = [DrawImageStretched (Canvas.width (canvas warped)) (Canvas.height (canvas warped))]
        \/ (length (painted warped) = (4 * 4 * 2)%nat
            /\ forallb isTriangle (painted warped) = true)).
Proof.
  apply (getWarpedCanvas_whole_mesh (Canvas.mk 4 4)
           (WarpCorners.mk (Coordinate.mk 0 0) (Coordinate.mk 4 0)
                           (Coordinate.mk 4 4) (Coordinate.mk 0 4))
           None); reflexivity.
Defined.



End WarpLaws.

(** ** Further properties of the affine controller and of the grid snap *)

Module AffineLaws.
Import Transformer Spec Laws Examples NumberFacts AffineFacts.

(** X11.  Over exact rationals: with the transform enabled and a proxy rect
    whose width and height are not zero, [fitToBboxFill] puts the proxy rect on
    the origin of the target rectangle, unrotated, with scales that make its
    scaled size the size of the target rectangle.  In binary64 the scaled size
    can miss that of the target by a rounding error
    ([Binary64Facts.fitToBboxFill_inexact]). *)
Theorem fitToBboxFill_exact (env : Env) (self : EntityId) (w : World) :
  let p := proxyRect (transformers w self) in
  let rect := bbox env in
  let fill := proxyRectAfter self (fitToBboxFill env self) w in
  isTransformEnabled (transformers w self) = true ->
  ~ ProxyRect.width p == 0 -> ~ ProxyRect.height p == 0 ->
  ProxyRect.x fill = Rect.x rect /\ ProxyRect.y fill = Rect.y rect
  /\ ProxyRect.rotation fill = 0
  /\ ProxyRect.width fill * ProxyRect.scaleX fill == Rect.width rect
  /\ ProxyRect.height fill * ProxyRect.scaleY fill == Rect.height rect.
Proof.
  intros p rect fill Hen Hw Hh. subst fill.
  unfold proxyRectAfter, fitToBboxFill, syncObjectGroupWithProxyRect,
    bind, this, modify, emit.
  rewrite Hen. cbn [negb fst snd transformers]. rewrite String.eqb_refl.
  cbn [proxyRect set_proxyRect ProxyRect.x ProxyRect.y ProxyRect.width ProxyRect.height
       ProxyRect.scaleX ProxyRect.scaleY ProxyRect.rotation
       ProxyRect.set_x ProxyRect.set_y ProxyRect.set_scaleX ProxyRect.set_scaleY
       ProxyRect.set_rotation].
  fold p rect.
  split; [reflexivity|]. split; [reflexivity|]. split; [reflexivity|].
  split; field; assumption.
Qed.

Lemma fitToBboxFill_exact_witness :
  let env := exampleEnv 8 (Coordinate.mk 0 0) in
  let w := exampleWorld (ProxyRect.mk 10 20 200 100 2 3 30) true in
  let fill := proxyRectAfter layerA (fitToBboxFill env layerA) w in
  ProxyRect.x fill = 0 /\ ProxyRect.y fill = 0
  /\ ProxyRect.rotation fill = 0
  /\ ProxyRect.width fill * ProxyRect.scaleX fill == 512
  /\ ProxyRect.height fill * ProxyRect.scaleY fill == 512.
Proof.
  intros env w.
  apply (fitToBboxFill_exact env layerA w).
  - reflexivity.
  - discriminate.
  - discriminate.
Defined.

Lemma clamp_inside (value lower upper : Q) :
  lower <= value -> value <= upper -> Util.clamp value lower upper == value.
Proof.
  intros Hlo Hhi. unfold Util.clamp.
  rewrite (Q.max_l value lower Hlo). now apply Q.min_l.
Qed.

(** X12.  Over exact rationals: off the grid (a grid size of at most 1),
    [fitToBboxContain] centres the scaled proxy rect in the target rectangle:
    the margins on the two sides of each axis are equal.  In binary64 the
    scaled size can exceed the target by a rounding error, and the rect is
    then put outside it ([Binary64Facts.fitToBbox_contain_cover_inexact]). *)
Theorem fitToBboxContain_centred (env : Env) (self : EntityId) (w : World) :
  let p := proxyRect (transformers w self) in
  let rect := bbox env in
  let contain := proxyRectAfter self (fitToBboxContain env self) w in
  isTransformEnabled (transformers w self) = true ->
  positionGridSize env <= 1 ->
  0 < Rect.width rect -> 0 < Rect.height rect ->
  0 < ProxyRect.width p -> 0 < ProxyRect.height p ->
  ProxyRect.x contain - Rect.x rect
  == Rect.x rect + Rect.width rect
     - (ProxyRect.x contain + ProxyRect.width contain * ProxyRect.scaleX contain)
  /\ ProxyRect.y contain - Rect.y rect
     == Rect.y rect + Rect.height rect
        - (ProxyRect.y contain + ProxyRect.height contain * ProxyRect.scaleY contain).
Proof.
  intros p rect contain Hen Hgrid Hrw Hrh Hw Hh. subst contain.
  rewrite (fitToBboxContain_proxyRect env self w Hen). fold p rect.
  cbn [ProxyRect.x ProxyRect.y ProxyRect.width ProxyRect.height
       ProxyRect.scaleX ProxyRect.scaleY].
  rewrite (proj2 (gtb_false (positionGridSize env) 1) Hgrid).
  pose proof (ratio_scaled (ProxyRect.width p) (Rect.width rect) Hw) as Ew.
  pose proof (ratio_scaled (ProxyRect.height p) (Rect.height rect) Hh) as Eh.
  set (sx := Rect.width rect / ProxyRect.width p) in *.
  set (sy := Rect.height rect / ProxyRect.height p) in *.
  assert (Hcw : ProxyRect.width p * Qmin sx sy <= Rect.width rect).
  { rewrite <- Ew. apply Qmult_le_l; [exact Hw|apply Q.le_min_l]. }
  assert (Hch : ProxyRect.height p * Qmin sx sy <= Rect.height rect).
  { rewrite <- Eh. apply Qmult_le_l; [exact Hh|apply Q.le_min_r]. }
  assert (Ex : 2 * ((Rect.width rect - ProxyRect.width p * Qmin sx sy) / 2)
               == Rect.width rect - ProxyRect.width p * Qmin sx sy) by field.
  assert (Ey : 2 * ((Rect.height rect - ProxyRect.height p * Qmin sx sy) / 2)
               == Rect.height rect - ProxyRect.height p * Qmin sx sy) by field.
  set (mx := (Rect.width rect - ProxyRect.width p * Qmin sx sy) / 2) in *.
  set (my := (Rect.height rect - ProxyRect.height p * Qmin sx sy) / 2) in *.
  split; rewrite clamp_inside; lra.
Qed.

Lemma fitToBboxContain_centred_witness :
  let env := exampleEnv 1 (Coordinate.mk 0 0) in
  let w := exampleWorld (ProxyRect.mk 10 20 200 100 1 1 30) true in
  let contain := proxyRectAfter layerA (fitToBboxContain env layerA) w in
  ProxyRect.x contain - 0
  == 0 + 512 - (ProxyRect.x contain + ProxyRect.width contain * ProxyRect.scaleX contain)
  /\ ProxyRect.y contain - 0
     == 0 + 512
        - (ProxyRect.y contain + ProxyRect.height contain * ProxyRect.scaleY contain).
Proof.
  intros env w.
  apply (fitToBboxContain_centred env layerA w); reflexivity || discriminate.
Defined.

(** X13.  Over exact rationals: off the grid, [fitToBboxCover] leaves the
    scaled proxy rect covering the target rectangle on both axes.  In binary64
    the scaled size can fall short of the target by a rounding error
    ([Binary64Facts.fitToBbox_contain_cover_inexact]). *)
Theorem fitToBboxCover_covers_both (env : Env) (self : EntityId) (w : World) :
  let p := proxyRect (transformers w self) in
  let rect := bbox env in
  let cover := proxyRectAfter self (fitToBboxCover env self) w in
  isTransformEnabled (transformers w self) = true ->
  positionGridSize env <= 1 ->
  0 < Rect.width rect -> 0 < Rect.height rect ->
  0 < ProxyRect.width p -> 0 < ProxyRect.height p ->
  covers (ProxyRect.x cover) (ProxyRect.width cover * ProxyRect.scaleX cover)
         (Rect.x rect) (Rect.width rect)
  /\ covers (ProxyRect.y cover) (ProxyRect.height cover * ProxyRect.scaleY cover)
            (Rect.y rect) (Rect.height rect).
Proof.
  intros p rect cover Hen Hgrid Hrw Hrh Hw Hh. subst cover.
  rewrite (fitToBboxCover_proxyRect env self w Hen). fold p rect.
  cbn [ProxyRect.x ProxyRect.y ProxyRect.width ProxyRect.height
       ProxyRect.scaleX ProxyRect.scaleY].
  rewrite (proj2 (gtb_false (positionGridSize env) 1) Hgrid).
  pose proof (ratio_scaled (ProxyRect.width p) (Rect.width rect) Hw) as Ew.
  pose proof (ratio_scaled (ProxyRect.height p) (Rect.height rect) Hh) as Eh.
  set (sx := Rect.width rect / ProxyRect.width p) in *.
  set (sy := Rect.height rect / ProxyRect.height p) in *.
  assert (Hcw : Rect.width rect <= ProxyRect.width p * Qmax sx sy).
  { rewrite <- Ew at 1. apply Qmult_le_l; [exact Hw|apply Q.le_max_l]. }
  assert (Hch : Rect.height rect <= ProxyRect.height p * Qmax sx sy).
  { rewrite <- Eh at 1. apply Qmult_le_l; [exact Hh|apply Q.le_max_r]. }
  assert (Ex : 2 * ((Rect.width rect - ProxyRect.width p * Qmax sx sy) / 2)
               == Rect.width rect - ProxyRect.width p * Qmax sx sy) by field.
  assert (Ey : 2 * ((Rect.height rect - ProxyRect.height p * Qmax sx sy) / 2)
               == Rect.height rect - ProxyRect.height p * Qmax sx sy) by field.
  set (mx := (Rect.width rect - ProxyRect.width p * Qmax sx sy) / 2) in *.
  set (my := (Rect.height rect - ProxyRect.height p * Qmax sx sy) / 2) in *.
  unfold covers. split.
  - destruct (JS.gtb (ProxyRect.width p * Qmax sx sy) (Rect.width rect)) eqn:G.
    + apply gtb_true in G. split; lra.
    + apply gtb_false in G. split; lra.
  - destruct (JS.gtb (ProxyRect.height p * Qmax sx sy) (Rect.height rect)) eqn:G.
    + apply gtb_true in G. split; lra.
    + apply gtb_false in G. split; lra.
Qed.

Lemma fitToBboxCover_covers_both_witness :
  let env := exampleEnv 1 (Coordinate.mk 0 0) in
  let w := exampleWorld (ProxyRect.mk 10 20 200 100 1 1 30) true in
  let cover := proxyRectAfter layerA (fitToBboxCover env layerA) w in
  covers (ProxyRect.x cover) (ProxyRect.width cover * ProxyRect.scaleX cover) 0 512
  /\ covers (ProxyRect.y cover) (ProxyRect.height cover * ProxyRect.scaleY cover) 0 512.
Proof.
  intros env w.
  apply (fitToBboxCover_covers_both env layerA w); reflexivity || discriminate.
Defined.

(** A target size is kept by a second snap. *)
Lemma target_again (size scale : Q) :
  0 < size -> ~ scale == 0 ->
  let target := Qmax (Qabs (JS.round (size * scale))) 1 in
  let snapped := target / size * JS.sign scale in
  Qmax (Qabs (JS.round (size * snapped))) 1 / size * JS.sign snapped == snapped.
Proof.
  intros Hsize Hscale target snapped.
  destruct (target_size (size * scale)) as (n & Hn & Et). fold target in Et.
  assert (Htarget : 0 < target).
  { eapply Qlt_le_trans; [|apply Q.le_max_r]. reflexivity. }
  destruct (snapped_scale size scale target Hsize Hscale Htarget) as [_ Esign].
  fold snapped in Esign. rewrite Esign.
  assert (Eagain : Qmax (Qabs (JS.round (size * snapped))) 1 == target).
  { destruct (Q_dec scale 0) as [[Hneg|Hpos]|Hz]; [| |contradiction].
    - assert (E : size * snapped == inject_Z (- n)).
      { subst snapped. rewrite (sign_neg _ Hneg), inject_Z_opp, <- Et. field. lra. }
      rewrite E, round_integer, abs_inject_Z, Et.
      change 1 with (inject_Z 1). rewrite max_inject_Z.
      apply inject_Z_injective. lia.
    - assert (E : size * snapped == inject_Z n).
      { subst snapped. rewrite (sign_pos _ Hpos), <- Et. field. lra. }
      rewrite E, round_integer, abs_inject_Z, Et.
      change 1 with (inject_Z 1). rewrite max_inject_Z.
      apply inject_Z_injective. lia. }
  subst snapped. rewrite Eagain. reflexivity.
Qed.

(** X14.  Over the rationals [snapProxyRectToPixelGrid] is idempotent on a
    proxy rect of positive width and height and non-zero scales: a second
    snap leaves the position, the size, the scales and the rotation of the
    first. *)
Theorem snapProxyRectToPixelGrid_idempotent (self : EntityId) (w : World) :
  let p := proxyRect (transformers w self) in
  let once := snd (snapProxyRectToPixelGrid self w) in
  let p1 := proxyRect (transformers once self) in
  let p2 := proxyRectAfter self (snapProxyRectToPixelGrid self) once in
  0 < ProxyRect.width p -> 0 < ProxyRect.height p ->
  ~ ProxyRect.scaleX p == 0 -> ~ ProxyRect.scaleY p == 0 ->
  ProxyRect.x p2 == ProxyRect.x p1 /\ ProxyRect.y p2 == ProxyRect.y p1
  /\ ProxyRect.width p2 = ProxyRect.width p1 /\ ProxyRect.height p2 = ProxyRect.height p1
  /\ ProxyRect.scaleX p2 == ProxyRect.scaleX p1
  /\ ProxyRect.scaleY p2 == ProxyRect.scaleY p1
  /\ ProxyRect.rotation p2 = ProxyRect.rotation p1.
Proof.
  intros p once p1 p2 Hw Hh Hsx Hsy. subst p2.
  rewrite (snapProxyRectToPixelGrid_proxyRect self once). fold p1.
  assert (E1 : p1 = proxyRectAfter self (snapProxyRectToPixelGrid self) w) by reflexivity.
  rewrite (snapProxyRectToPixelGrid_proxyRect self w) in E1. fold p in E1.
  rewrite E1.
  cbn [ProxyRect.x ProxyRect.y ProxyRect.width ProxyRect.height
       ProxyRect.scaleX ProxyRect.scaleY ProxyRect.rotation].
  split; [apply round_integer|]. split; [apply round_integer|].
  split; [reflexivity|]. split; [reflexivity|].
  split; [now apply target_again|]. split; [now apply target_again|reflexivity].
Qed.

Lemma snapProxyRectToPixelGrid_idempotent_witness :
  let w := exampleWorld (ProxyRect.mk (7 # 2) (- (5 # 2)) 49 10 (1 # 50) (- (63 # 50)) 0) true in
  let once := snd (snapProxyRectToPixelGrid layerA w) in
  let p1 := proxyRect (transformers once layerA) in
  let p2 := proxyRectAfter layerA (snapProxyRectToPixelGrid layerA) once in
  ProxyRect.x p2 == ProxyRect.x p1 /\ ProxyRect.y p2 == ProxyRect.y p1
  /\ ProxyRect.width p2 = ProxyRect.width p1 /\ ProxyRect.height p2 = ProxyRect.height p1
  /\ ProxyRect.scaleX p2 == ProxyRect.scaleX p1
  /\ ProxyRect.scaleY p2 == ProxyRect.scaleY p1
  /\ ProxyRect.rotation p2 = ProxyRect.rotation p1.
Proof.
  intros w.
  apply (snapProxyRectToPixelGrid_idempotent layerA w); reflexivity || discriminate.
Defined.

End AffineLaws.

Module SnapLaws.
Import Transformer Spec Laws Examples NumberFacts.




(** The line that the snap chooses need not be the nearest one: on a grid of
    8 with the stage panned by (6, 3), the coordinate 21 is put on the line
    30 of the shifted grid, nine away, though the line 22 is one away. *)
Lemma grid_snap_not_the_nearest_line :
  let env := exampleEnv 8 (Coordinate.mk 6 3) in
  let snapped := snapWarpAnchor env (Coordinate.mk 21 13) in
  Coordinate.x snapped == 30
  /\ onGrid 22 (JS.rem 6 (1 * 8)) (1 * 8)
  /\ Qabs (22 - 21) < Qabs (Coordinate.x snapped - 21).
Proof.
  intros env snapped.
  split; [vm_compute; reflexivity|].
  split; [exists 2%Z; vm_compute; reflexivity|].
  vm_compute. reflexivity.
Qed.

End SnapLaws.

(** ** Runs of the methods on the local state *)

Module RunFacts.
Import Transformer Spec Laws.

Section Rules.

Variable self : EntityId.

Lemma runs_weaken {A : Type} (m : Op A) (post post' : Outcome A -> Local -> Prop)
    (s : Local) :
  runs self m post s -> (forall o s', post o s' -> post' o s') -> runs self m post' s.
Proof. intros H Himp w Hw. apply Himp, H, Hw. Qed.

Lemma runs_ret {A : Type} (a : A) (post : Outcome A -> Local -> Prop) (s : Local) :
  post (Done a) s -> runs self (ret a) post s.
Proof. intros H w <-. exact H. Qed.

Lemma runs_throw {A : Type} (msg : string) (post : Outcome A -> Local -> Prop) (s : Local) :
  post (Thrown msg) s -> runs self (throw msg) post s.
Proof. intros H w <-. exact H. Qed.

Lemma runs_await {A : Type} (post : Outcome A -> Local -> Prop) (s : Local) :
  post Awaiting s -> runs self await post s.
Proof. intros H w <-. exact H. Qed.

Lemma runs_emit (e : Event) (post : Outcome unit -> Local -> Prop) (s : Local) :
  post (Done tt) s -> runs self (emit e) post s.
Proof. intros H w <-. exact H. Qed.

Lemma runs_modify (g : Transformer.t -> Transformer.t)
    (post : Outcome unit -> Local -> Prop) (s : Local) :
  post (Done tt) (fst s, g (snd s)) -> runs self (modify self g) post s.
Proof.
  intros H w <-. unfold local, modify. cbn [fst snd transformingAdapter transformers].
  rewrite String.eqb_refl. exact H.
Qed.

Lemma runs_setTransformingAdapter (a : option EntityId)
    (post : Outcome unit -> Local -> Prop) (s : Local) :
  post (Done tt) (a, snd s) -> runs self (setTransformingAdapter a) post s.
Proof. intros H w <-. exact H. Qed.

Lemma runs_bind {A B : Type} (m : Op A) (k : A -> Op B)
    (post : Outcome B -> Local -> Prop) (s : Local) :
  runs self m
    (fun o s' =>
       match o with
       | Done a => runs self (k a) post s'
       | Thrown msg => post (Thrown msg) s'
       | Awaiting => post Awaiting s'
       end) s ->
  runs self (bind m k) post s.
Proof.
  intros H w Hw. specialize (H w Hw). unfold bind.
  destruct (m w) as [[a|msg|] w']; cbn [fst snd] in *;
    [now apply H|exact H|exact H].
Qed.

Lemma runs_this {B : Type} (k : Transformer.t -> Op B)
    (post : Outcome B -> Local -> Prop) (s : Local) :
  runs self (k (snd s)) post s -> runs self (bind (this self) k) post s.
Proof. intros H w Hw. unfold bind, this. subst s. now apply H. Qed.

Lemma runs_getTransformingAdapter {B : Type} (k : option EntityId -> Op B)
    (post : Outcome B -> Local -> Prop) (s : Local) :
  runs self (k (fst s)) post s -> runs self (bind getTransformingAdapter k) post s.
Proof. intros H w Hw. unfold bind, getTransformingAdapter. subst s. now apply H. Qed.

Lemma runs_detached (m : Op unit) (post : Outcome unit -> Local -> Prop) (s : Local) :
  runs self m (fun _ s' => post (Done tt) s') s -> runs self (detached m) post s.
Proof. intros H w Hw. exact (H w Hw). Qed.

Lemma runs_withResultAsync (m : Op unit) (post : Outcome (option string) -> Local -> Prop)
    (s : Local) :
  runs self m
    (fun o s' =>
       match o with
       | Done _ => post (Done None) s'
       | Thrown msg => post (Done (Some msg)) s'
       | Awaiting => post Awaiting s'
       end) s ->
  runs self (withResultAsync m) post s.
Proof.
  intros H w Hw. specialize (H w Hw). unfold withResultAsync.
  destruct (m w) as [[a|msg|] w']; exact H.
Qed.

End Rules.

(** The fields of the state are computed through the setters. *)
Ltac fields :=
  cbn [fst snd negb andb orb
       nodeRect pixelRect isPendingRectCalculation isTransforming transformMode
       interactionMode isDragEnabled isTransformEnabled isProcessing silentTransform
       transformMutex proxyRect warpSourceCanvas warpSourceRect warpCorners
       calculateRectTimer bboxRequest
       set_nodeRect set_pixelRect set_isPendingRectCalculation set_isTransforming
       set_transformMode set_interactionMode set_isDragEnabled set_isTransformEnabled
       set_isProcessing set_silentTransform set_transformMutex set_proxyRect
       set_warpSourceCanvas set_warpSourceRect set_warpCorners set_calculateRectTimer
       set_bboxRequest
       Mutex.locked Mutex.waiting app
       ProxyRect.x ProxyRect.y ProxyRect.width ProxyRect.height ProxyRect.scaleX
       ProxyRect.scaleY ProxyRect.rotation
       ProxyRect.set_x ProxyRect.set_y ProxyRect.set_width ProxyRect.set_height
       ProxyRect.set_scaleX ProxyRect.set_scaleY ProxyRect.set_rotation
       Gestures.warpDragStartPointer Gestures.warpDragStartCorners
       Gestures.warpSideDragStartPointer Gestures.warpSideDragStartCorners
       Gestures.warpSideDragKey Gestures.affineSnapshot
       steady warpState modeFlags].

Ltac fields_in H :=
  cbn [fst snd negb andb orb
       nodeRect pixelRect isPendingRectCalculation isTransforming transformMode
       interactionMode isDragEnabled isTransformEnabled isProcessing silentTransform
       transformMutex proxyRect warpSourceCanvas warpSourceRect warpCorners
       calculateRectTimer bboxRequest
       set_nodeRect set_pixelRect set_isPendingRectCalculation set_isTransforming
       set_transformMode set_interactionMode set_isDragEnabled set_isTransformEnabled
       set_isProcessing set_silentTransform set_transformMutex set_proxyRect
       set_warpSourceCanvas set_warpSourceRect set_warpCorners set_calculateRectTimer
       set_bboxRequest
       Mutex.locked Mutex.waiting app
       ProxyRect.x ProxyRect.y ProxyRect.width ProxyRect.height ProxyRect.scaleX
       ProxyRect.scaleY ProxyRect.rotation
       ProxyRect.set_x ProxyRect.set_y ProxyRect.set_width ProxyRect.set_height
       ProxyRect.set_scaleX ProxyRect.set_scaleY ProxyRect.set_rotation
       Gestures.warpDragStartPointer Gestures.warpDragStartCorners
       Gestures.warpSideDragStartPointer Gestures.warpSideDragStartCorners
       Gestures.warpSideDragKey Gestures.affineSnapshot
       steady warpState modeFlags] in H.

Ltac fields_in_all :=
  repeat match goal with
         | H : _ |- _ => progress fields_in H
         end.

(** What is known of a field of an abstract state is put in its place. *)
Ltac known :=
  repeat match goal with
         | H : ?l = _ |- context [?l] =>
             lazymatch l with
             | ?f ?x => progress rewrite H
             end
         end.

Ltac known_in H :=
  repeat match goal with
         | E : ?l = _ |- _ =>
             lazymatch l with
             | ?f ?x =>
                 lazymatch type of H with
                 | context [l] => progress rewrite E in H
                 end
             end
         end.

(** What is known of the fields that a test reads decides the test. *)
Ltac known_for c :=
  match goal with
  | H : ?l = _ |- _ =>
      lazymatch l with
      | ?f ?x =>
          lazymatch c with
          | context [l] => progress rewrite H
          end
      end
  end.

(** One step of a run: the rule of the operation at the head. *)
Ltac run_step :=
  lazymatch goal with
  | |- runs _ (ret _) _ _ => apply runs_ret
  | |- runs _ (throw _) _ _ => apply runs_throw
  | |- runs _ await _ _ => apply runs_await
  | |- runs _ (emit _) _ _ => apply runs_emit
  | |- runs _ (modify _ _) _ _ => apply runs_modify
  | |- runs _ (setTransformingAdapter _) _ _ => apply runs_setTransformingAdapter
  | |- runs _ (detached _) _ _ => apply runs_detached
  | |- runs _ (withResultAsync _) _ _ => apply runs_withResultAsync
  | |- runs _ (bind (this _) _) _ _ => apply runs_this
  | |- runs _ (bind getTransformingAdapter _) _ _ => apply runs_getTransformingAdapter
  | |- runs _ (bind _ _) _ _ => apply runs_bind
  | |- runs _ (if negb ?c then _ else _) _ _ => first [known_for c | destruct c eqn:?]
  | |- runs _ (if ?c then _ else _) _ _ => first [known_for c | destruct c eqn:?]
  | |- runs _ (match ?x with _ => _ end) _ _ => first [known_for x | destruct x eqn:?]
  end;
  cbv beta iota zeta; fields.

Ltac run := unfold log; cbv beta iota zeta; fields; repeat run_step.

(** The conditions met on the way decide the tests that are left. *)
Ltac decided :=
  repeat match goal with
         | H : ?c = true |- context [?c] => rewrite H
         | H : ?c = false |- context [?c] => rewrite H
         end.

(** An equation between two tuples of fields, field by field. *)
Ltac facts :=
  repeat match goal with
         | H : context [warping _] |- _ =>
             unfold warping in H; fields_in H; known_in H; fields_in H
         | H : ?a = ?a -> _ |- _ => specialize (H eq_refl)
         | H : steady _ = _ |- _ =>
             unfold proxyRectOnBbox in H; fields_in H;
             injection H as ? ? ? ? ? ? ? ? ? ? ?
         | H : modeFlags _ = _ |- _ => fields_in H; injection H as ? ? ?
         | H : warpState _ = _ |- _ => fields_in H; injection H as ? ? ?
         end.

(** The end of a run: what is asked of the last state follows from what is
    known of the states on the way. *)
Ltac finish :=
  unfold steady, modeFlags, warpState, restingProxyRect in *; fields; known;
  repeat match goal with
         | |- context [if ?c then _ else _] => destruct c
         end;
  fields;
  repeat match goal with |- _ /\ _ => split end;
  try reflexivity; try congruence;
  try (eexists; split; reflexivity);
  try (intros;
       repeat match goal with
              | H : ?P -> _, E : ?P |- _ => specialize (H E)
              end;
       fields; known; congruence).

(** A method whose run is known: what it ensures is assumed of the state it
    leaves. *)
Ltac summary lemma :=
  eapply runs_weaken; [apply lemma|];
  let o := fresh "o" in
  let ptr := fresh "ptr" in
  let me := fresh "me" in
  intros o [ptr me]; cbv beta iota; fields.

Section Summaries.

Variable env : Env.
Variable self : EntityId.

(** The warp preview is built during a transform only, and building it
    touches nothing but the state of the preview. *)
Lemma prepareWarpPreview_runs (ptr : option EntityId) (me : Transformer.t) :
  runs self (prepareWarpPreview env self)
    (fun o s' =>
       o = Done tt /\ fst s' = ptr /\ steady (snd s') = steady me
       /\ modeFlags (snd s') = modeFlags me
       /\ (isTransforming me = false -> snd s' = me))
    (ptr, me).
Proof.
  unfold prepareWarpPreview, syncWarpScale, updateWarpNodes, updateWarpPreviewImage.
  run; repeat split; try congruence; intros E; congruence.
Qed.

(** The nodes of the warp and its preview are redrawn: nothing of the state
    changes. *)
Lemma updateWarpNodes_runs (ptr : option EntityId) (me : Transformer.t) :
  runs self (updateWarpNodes self)
    (fun o s' => o = Done tt /\ fst s' = ptr /\ snd s' = me)
    (ptr, me).
Proof.
  unfold updateWarpNodes, updateWarpPreviewImage. run; repeat split; reflexivity.
Qed.

(** Setting an interaction mode sets the two flags that belong to it. *)
Lemma setInteractionMode_runs (mode : InteractionMode) (ptr : option EntityId)
    (me : Transformer.t) :
  runs self (_setInteractionMode env self mode)
    (fun o s' =>
       o = Done tt /\ fst s' = ptr /\ steady (snd s') = steady me
       /\ modeFlags (snd s')
          = (mode, dragEnabledIn mode (transformMode me),
             transformEnabledIn mode (transformMode me))
       /\ (entersWarp mode me = false -> warpState (snd s') = warpState me))
    (ptr, me).
Proof.
  unfold _setInteractionMode, _enableDrag, _disableDrag, _enableTransform,
    _disableTransform, _disableWarp, _enableWarp, _showBboxOutline, _hideBboxOutline.
  destruct mode; run;
    try (summary prepareWarpPreview_runs; intros (-> & Hptr & Hsteady & Hflags & Hidle);
         run);
    unfold entersWarp; fields; known;
    repeat split; try congruence.
  intros Hidle'. rewrite (Hidle Hidle'). reflexivity.
Qed.

(** [syncInteractionState] sets the mode of the priority chain and the flags
    that belong to it, and nothing else but, when it enters the warp, the
    state of the preview. *)
Lemma syncInteractionState_runs (ptr : option EntityId) (me : Transformer.t) :
  runs self (syncInteractionState env self)
    (fun o s' =>
       o = Done tt /\ fst s' = ptr /\ steady (snd s') = steady me
       /\ modeFlags (snd s')
          = (priorityChain env me,
             dragEnabledIn (priorityChain env me) (transformMode me),
             transformEnabledIn (priorityChain env me) (transformMode me))
       /\ (entersWarp (priorityChain env me) me = false
           -> warpState (snd s') = warpState me))
    (ptr, me).
Proof.
  unfold syncInteractionState. run;
    (summary setInteractionMode_runs; intros (-> & -> & Hsteady & Hflags & Hwarp));
    unfold priorityChain, firstMatch, globallyBusy, conflictingOperation,
      anotherEntityMidTransform, bboxPendingOrEntityEmpty, entityNotSelected,
      entityLocked, toolDependentDefault;
    decided; fields; decided.
  all: try destruct (isEmpty env).
  all: try (destruct (isTransforming me) eqn:?;
            destruct (String.eqb (tool env) "move") eqn:?;
            destruct (String.eqb (tool env) "view") eqn:?;
            cbn [negb andb] in *; try discriminate).
  all: repeat split; assumption.
Qed.

(** [updateBbox] moves the proxy rect onto the pixel rect and syncs the
    interaction state. *)
Lemma updateBbox_runs (ptr : option EntityId) (me : Transformer.t) :
  runs self (updateBbox env self)
    (fun o s' =>
       o = Done tt /\ fst s' = ptr
       /\ steady (snd s') = steady (set_proxyRect (proxyRectOnBbox env me) me)
       /\ modeFlags (snd s')
          = (priorityChain env me,
             dragEnabledIn (priorityChain env me) (transformMode me),
             transformEnabledIn (priorityChain env me) (transformMode me))
       /\ (entersWarp (priorityChain env me) me = false
           -> warpState (snd s') = warpState me))
    (ptr, me).
Proof.
  unfold updateBbox, update, proxyRectOnBbox. run;
    (summary syncInteractionState_runs; intros (-> & -> & Hsteady & Hflags & Hwarp));
    run; decided; facts; finish.
Qed.

(** Outside of a transform in the warp mode the warp preview is not built. *)
Lemma warping_entersWarp (mode : InteractionMode) (me : Transformer.t) :
  warping me = false -> entersWarp mode me = false.
Proof.
  unfold warping, entersWarp.
  destruct mode, (transformMode me), (warpSourceCanvas me), (isTransforming me);
    auto.
Qed.

(** What the two methods leave alone, whatever the mode they set. *)
Lemma syncInteractionState_frame (ptr : option EntityId) (me : Transformer.t) :
  runs self (syncInteractionState env self)
    (fun o s' =>
       o = Done tt /\ fst s' = ptr /\ steady (snd s') = steady me
       /\ (warping me = false -> warpState (snd s') = warpState me))
    (ptr, me).
Proof.
  eapply runs_weaken; [apply syncInteractionState_runs|].
  intros o s' (Ho & Hptr & Hsteady & _ & Hwarp).
  repeat split; auto. intros Hidle. now apply Hwarp, warping_entersWarp.
Qed.

Lemma updateBbox_frame (ptr : option EntityId) (me : Transformer.t) :
  runs self (updateBbox env self)
    (fun o s' =>
       o = Done tt /\ fst s' = ptr
       /\ steady (snd s') = steady (set_proxyRect (proxyRectOnBbox env me) me)
       /\ (warping me = false -> warpState (snd s') = warpState me))
    (ptr, me).
Proof.
  eapply runs_weaken; [apply updateBbox_runs|].
  intros o s' (Ho & Hptr & Hsteady & _ & Hwarp).
  repeat split; auto. intros Hidle. now apply Hwarp, warping_entersWarp.
Qed.

End Summaries.

End RunFacts.

(** ** The lifecycle of a transform, on every path *)

Module LifecycleLaws.
Import Transformer Spec Laws Examples RunFacts.

(** The steps of a run, through the methods whose runs are known. *)
Ltac run_known :=
  lazymatch goal with
  | |- runs _ (syncInteractionState _ _) _ _ => summary syncInteractionState_frame
  | |- runs _ (updateBbox _ _) _ _ => summary updateBbox_frame
  | |- runs _ (prepareWarpPreview _ _) _ _ => summary prepareWarpPreview_runs
  | |- runs _ (updateWarpNodes _) _ _ => summary updateWarpNodes_runs
  | |- runs _ (_setInteractionMode _ _ _) _ _ => summary setInteractionMode_runs
  end;
  let H := fresh in
  intros H; decompose [and] H; clear H; subst; facts; cbv beta iota; fields.

Ltac go := unfold log; cbv beta iota zeta; fields; repeat first [run_step | run_known].

(** From a run on the local state to the worlds. *)
Lemma runs_world {A : Type} (self : EntityId) (m : Op A)
    (post : Outcome A -> Local -> Prop) (w : World) (ptr : option EntityId)
    (me : Transformer.t) :
  transformingAdapter w = ptr -> transformers w self = me ->
  runs self m post (ptr, me) ->
  post (fst (m w)) (transformingAdapter (snd (m w)), transformers (snd (m w)) self).
Proof. intros <- <- H. exact (H w eq_refl). Qed.

(** What the run ensures of the outcome, of the pointer and of the
    transformer is what is stated of the world that the method leaves. *)
Ltac at_world self m w Hptr lemma :=
  let H := fresh in
  pose proof (runs_world self m _ w _ _ Hptr eq_refl lemma) as H; cbv beta in H;
  revert H;
  generalize (fst (m w)); generalize (transformingAdapter (snd (m w)));
  generalize (transformers (snd (m w)) self);
  let me' := fresh "me'" in
  let ptr' := fresh "ptr'" in
  let o := fresh "o" in
  intros me' ptr' o H; cbn [fst snd] in H; decompose [and] H; repeat split; assumption.

Section Lifecycle.

Variable env : Env.
Variable self : EntityId.

(** *** syncInteractionState *)

Lemma syncInteractionState_consistent_runs (ptr : option EntityId) (me : Transformer.t) :
  runs self (syncInteractionState env self)
    (fun o s' =>
       o = Done tt
       /\ interactionMode (snd s') = priorityChain env me
       /\ isDragEnabled (snd s')
          = dragEnabledIn (interactionMode (snd s')) (transformMode (snd s'))
       /\ isTransformEnabled (snd s')
          = transformEnabledIn (interactionMode (snd s')) (transformMode (snd s')))
    (ptr, me).
Proof.
  eapply runs_weaken; [apply syncInteractionState_runs|].
  intros o [ptr' me'] (Ho & _ & Hsteady & Hflags & _). facts. finish.
Qed.

(** *** startTransform *)

Lemma startTransform_starts_runs (arg : option bool) (me : Transformer.t) :
  Mutex.locked (transformMutex me) = false ->
  runs self (startTransform env self arg)
    (fun o s' =>
       o = Done tt /\ fst s' = Some self
       /\ isTransforming (snd s') = true
       /\ silentTransform (snd s') = match arg with Some silent => silent | None => false end
       /\ transformMode (snd s') = affine
       /\ transformMutex (snd s') = Mutex.mk true (Mutex.waiting (transformMutex me))
       /\ warpState (snd s') = (None, None, None)
       /\ (nodeRect (snd s'), pixelRect (snd s'), proxyRect (snd s'))
          = (nodeRect me, pixelRect me, proxyRect me))
    (None, me).
Proof.
  intros Hfree.
  unfold startTransform, acquire, startTransform_locked, teardownWarpPreview.
  go; finish.
Qed.

Lemma startTransform_waits_runs (arg : option bool) (me : Transformer.t) :
  Mutex.locked (transformMutex me) = true ->
  runs self (startTransform env self arg)
    (fun o s' =>
       o = Awaiting
       /\ s' = (None,
                set_transformMutex
                  (Mutex.mk true
                     (Mutex.waiting (transformMutex me)
                      ++ [Mutex.StartTransform
                            match arg with Some silent => silent | None => false end]))
                  me))
    (None, me).
Proof.
  intros Hheld. unfold startTransform, acquire. go; finish.
Qed.

Lemma release_resumes_runs (silent : bool) (rest : list Mutex.Waiter)
    (ptr : option EntityId) (me : Transformer.t) :
  Mutex.waiting (transformMutex me) = Mutex.StartTransform silent :: rest ->
  runs self (release env self)
    (fun o s' =>
       o = Done tt /\ fst s' = Some self
       /\ isTransforming (snd s') = true
       /\ silentTransform (snd s') = silent
       /\ transformMode (snd s') = affine
       /\ transformMutex (snd s') = Mutex.mk true rest)
    (ptr, me).
Proof.
  intros Hq. unfold release, startTransform_locked, teardownWarpPreview.
  go; finish.
Qed.

(** *** stopTransform *)

Lemma stopTransform_runs (ptr : option EntityId) (me : Transformer.t) :
  Mutex.waiting (transformMutex me) = [] ->
  runs self (stopTransform env self)
    (fun o s' =>
       o = Done tt /\ fst s' = None
       /\ isTransforming (snd s') = false
       /\ isProcessing (snd s') = false
       /\ transformMutex (snd s') = Mutex.mk false []
       /\ warpState (snd s') = (None, None, None)
       /\ proxyRect (snd s') = restingProxyRect env me
       /\ (nodeRect (snd s'), pixelRect (snd s')) = (nodeRect me, pixelRect me))
    (ptr, me).
Proof.
  intros Hq.
  unfold stopTransform, teardownWarpPreview, resetTransform, resetScale, updatePosition,
    update, release.
  go; finish.
Qed.

(** With a recomputation of the bounding box first in the queue,
    [stopTransform] hands the lock over to it. *)
Lemma stopTransform_handover_runs (rest : list Mutex.Waiter) (ptr : option EntityId)
    (me : Transformer.t) :
  Mutex.waiting (transformMutex me) = Mutex.RequestRectCalculation :: rest ->
  runs self (stopTransform env self)
    (fun o s' =>
       o = Done tt /\ fst s' = None
       /\ isTransforming (snd s') = false
       /\ isProcessing (snd s') = false
       /\ transformMutex (snd s') = Mutex.mk true rest
       /\ isPendingRectCalculation (snd s') = true
       /\ calculateRectTimer (snd s') = true
       /\ warpState (snd s') = (None, None, None)
       /\ proxyRect (snd s') = restingProxyRect env me
       /\ (nodeRect (snd s'), pixelRect (snd s')) = (nodeRect me, pixelRect me))
    (ptr, me).
Proof.
  intros Hq.
  unfold stopTransform, teardownWarpPreview, resetTransform, resetScale, updatePosition,
    update, release, requestRectCalculation_locked.
  go; finish.
Qed.

(** *** applyTransform *)

Lemma applyTransform_runs (ptr : option EntityId) (me : Transformer.t) :
  isTransforming me = true -> transformMutex me = Mutex.mk true [] ->
  runs self (applyTransform env self)
    (fun o s' =>
       o = Done tt /\ fst s' = None
       /\ isTransforming (snd s') = false
       /\ isProcessing (snd s') = false
       /\ Mutex.locked (transformMutex (snd s')) = true
       /\ isPendingRectCalculation (snd s') = true
       /\ calculateRectTimer (snd s') = true
       /\ warpState (snd s') = (None, None, None)
       /\ proxyRect (snd s') = restingProxyRect env me
       /\ (nodeRect (snd s'), pixelRect (snd s')) = (nodeRect me, pixelRect me))
    (ptr, me).
Proof.
  intros Hon Hlock.
  unfold applyTransform, applyWarpTransform, updateWarpBBoxFromCorners,
    requestRectCalculation, acquire, _disableDrag, _disableTransform.
  go;
    (eapply runs_weaken;
     [eapply stopTransform_handover_runs; fields; known; fields; reflexivity|]);
    intros o [ptr' me'] Hpost; decompose [and] Hpost; clear Hpost;
    unfold restingProxyRect in *; fields_in_all; finish.
Qed.

(** *** The recomputation of the bounding box *)

Lemma bboxCycle_runs (answer : option Extents) (ptr : option EntityId)
    (me : Transformer.t) :
  transformMutex me = Mutex.mk false [] -> bboxRequest me = None ->
  runs self (bboxCycle env self answer)
    (fun o s' =>
       o = Done tt /\ fst s' = ptr
       /\ isPendingRectCalculation (snd s') = false
       /\ calculateRectTimer (snd s') = false
       /\ bboxRequest (snd s') = None
       /\ transformMutex (snd s') = Mutex.mk false []
       /\ (isTransforming (snd s'), isProcessing (snd s'))
          = (isTransforming me, isProcessing me))
    (ptr, me).
Proof.
  intros Hfree Hnone.
  unfold bboxCycle, requestRectCalculation, acquire, requestRectCalculation_locked,
    calculateRect_fire, calculateRect, bboxCallback, release.
  go; finish.
Qed.

End Lifecycle.


End LifecycleLaws.

Module LifecycleWorld.
Import Transformer Spec Laws Examples RunFacts LifecycleLaws.

(** X16.  Outside of a transform in the warp mode, [syncInteractionState]
    returns and leaves the pointer to the transforming adapter, the rects, the
    flags of the lifecycle, the transform mode, the lock, the proxy rect and
    the state of the warp preview as they were: it writes the interaction mode
    and the two enablement flags only. *)
Theorem syncInteractionState_writes_mode_only (env : Env) (self : EntityId) (w : World) :
  warping (transformers w self) = false ->
  fst (syncInteractionState env self w) = Done tt
  /\ transformingAdapter (snd (syncInteractionState env self w)) = transformingAdapter w
  /\ steady (transformers (snd (syncInteractionState env self w)) self)
     = steady (transformers w self)
  /\ warpState (transformers (snd (syncInteractionState env self w)) self)
     = warpState (transformers w self).
Proof.
  intros Hidle.
  pose proof (runs_world self _ _ w _ _ eq_refl eq_refl
                (syncInteractionState_frame env self (transformingAdapter w)
                   (transformers w self))) as H.
  cbv beta in H. revert H.
  generalize (fst (syncInteractionState env self w)).
  generalize (transformingAdapter (snd (syncInteractionState env self w))).
  generalize (transformers (snd (syncInteractionState env self w)) self).
  intros me' ptr' o (Ho & Hptr & Hsteady & Hwarp). cbn [fst snd] in *.
  split; [exact Ho|]. split; [exact Hptr|]. split; [exact Hsteady|exact (Hwarp Hidle)].
Qed.

Lemma syncInteractionState_writes_mode_only_witness :
  let env := exampleEnv 1 (Coordinate.mk 0 0) in
  fst (syncInteractionState env layerA idleWorld) = Done tt
  /\ transformingAdapter (snd (syncInteractionState env layerA idleWorld)) = None
  /\ steady (transformers (snd (syncInteractionState env layerA idleWorld)) layerA)
     = steady (transformers idleWorld layerA)
  /\ warpState (transformers (snd (syncInteractionState env layerA idleWorld)) layerA)
     = warpState (transformers idleWorld layerA).
Proof.
  intros env.
  apply (syncInteractionState_writes_mode_only env layerA idleWorld). reflexivity.
Defined.

(** X17.  After [syncInteractionState] the two enablement flags are those of
    the interaction mode it has set: dragging is enabled in the mode that
    allows dragging only and, unless the transform mode is the warp, in the
    mode that allows everything; the transform handles are enabled in the
    mode that allows everything of the affine transform mode, and in no
    other. *)
Theorem syncInteractionState_flags (env : Env) (self : EntityId) (w : World) :
  fst (syncInteractionState env self w) = Done tt
  /\ interactionMode (transformers (snd (syncInteractionState env self w)) self)
     = priorityChain env (transformers w self)
  /\ isDragEnabled (transformers (snd (syncInteractionState env self w)) self)
     = dragEnabledIn
         (interactionMode (transformers (snd (syncInteractionState env self w)) self))
         (transformMode (transformers (snd (syncInteractionState env self w)) self))
  /\ isTransformEnabled (transformers (snd (syncInteractionState env self w)) self)
     = transformEnabledIn
         (interactionMode (transformers (snd (syncInteractionState env self w)) self))
         (transformMode (transformers (snd (syncInteractionState env self w)) self)).
Proof.
  at_world self (syncInteractionState env self) w (eq_refl (transformingAdapter w))
    (syncInteractionState_consistent_runs env self (transformingAdapter w)
       (transformers w self)).
Qed.

(** X18.  When no entity is being transformed and the lock is free,
    [startTransform] returns with the lock taken, the entity marked as the one
    being transformed, the transforming flag set, the silent flag as asked
    for, the transform mode affine and no warp preview; the rects and the
    proxy rect are as they were. *)
Theorem startTransform_starts (env : Env) (self : EntityId) (arg : option bool)
    (w : World) :
  transformingAdapter w = None ->
  Mutex.locked (transformMutex (transformers w self)) = false ->
  fst (startTransform env self arg w) = Done tt
  /\ transformingAdapter (snd (startTransform env self arg w)) = Some self
  /\ isTransforming (transformers (snd (startTransform env self arg w)) self) = true
  /\ silentTransform (transformers (snd (startTransform env self arg w)) self)
     = match arg with Some silent => silent | None => false end
  /\ transformMode (transformers (snd (startTransform env self arg w)) self) = affine
  /\ transformMutex (transformers (snd (startTransform env self arg w)) self)
     = Mutex.mk true (Mutex.waiting (transformMutex (transformers w self)))
  /\ warpState (transformers (snd (startTransform env self arg w)) self)
     = (None, None, None)
  /\ (nodeRect (transformers (snd (startTransform env self arg w)) self),
      pixelRect (transformers (snd (startTransform env self arg w)) self),
      proxyRect (transformers (snd (startTransform env self arg w)) self))
     = (nodeRect (transformers w self), pixelRect (transformers w self),
        proxyRect (transformers w self)).
Proof.
  intros Hptr Hfree.
  at_world self (startTransform env self arg) w Hptr
    (startTransform_starts_runs env self arg (transformers w self) Hfree).
Qed.

Lemma startTransform_starts_witness :
  let env := exampleEnv 1 (Coordinate.mk 0 0) in
  let started := snd (startTransform env layerA (Some true) idleWorld) in
  transformingAdapter started = Some layerA
  /\ isTransforming (transformers started layerA) = true
  /\ silentTransform (transformers started layerA) = true.
Proof.
  intros env started.
  destruct (startTransform_starts env layerA (Some true) idleWorld)
    as (_ & Hptr & Hon & Hsilent & _).
  - reflexivity.
  - reflexivity.
  - exact (conj Hptr (conj Hon Hsilent)).
Defined.

(** X19.  When no entity is being transformed but the lock is held, with
    nobody waiting, [startTransform] is left waiting: nothing but the queue of
    the lock changes.  The next [release] of the lock then starts the
    transform: the entity is marked as the one being transformed, the
    transforming flag is set and the lock stays taken. *)
Theorem startTransform_waits_for_release (env : Env) (self : EntityId)
    (arg : option bool) (w : World) :
  transformingAdapter w = None ->
  transformMutex (transformers w self) = Mutex.mk true [] ->
  let silent := match arg with Some silent => silent | None => false end in
  let queued := snd (startTransform env self arg w) in
  let resumed := snd (release env self queued) in
  (fst (startTransform env self arg w) = Awaiting
   /\ transformingAdapter queued = None
   /\ transformers queued self
      = set_transformMutex (Mutex.mk true [Mutex.StartTransform silent])
          (transformers w self))
  /\ (fst (release env self queued) = Done tt
      /\ transformingAdapter resumed = Some self
      /\ isTransforming (transformers resumed self) = true
      /\ silentTransform (transformers resumed self) = silent
      /\ transformMutex (transformers resumed self) = Mutex.mk true []).
Proof.
  intros Hptr Hlock silent queued resumed.
  assert (Hheld : Mutex.locked (transformMutex (transformers w self)) = true)
    by now rewrite Hlock.
  pose proof (runs_world self _ _ w _ _ Hptr eq_refl
                (startTransform_waits_runs env self arg (transformers w self) Hheld))
    as Hwait.
  cbv beta in Hwait. rewrite Hlock in Hwait.
  cbn [Mutex.waiting app] in Hwait. fold silent in Hwait.
  pose proof (fun rest ptr me Hq Hptr' Hme =>
                runs_world self _ _ queued ptr me Hptr' Hme
                  (release_resumes_runs env self silent rest ptr me Hq)) as Hrelease.
  cbv beta in Hrelease.
  subst resumed. revert Hwait Hrelease.
  generalize (fst (release env self queued)).
  generalize (transformingAdapter (snd (release env self queued))).
  generalize (transformers (snd (release env self queued)) self).
  subst queued.
  generalize (fst (startTransform env self arg w)).
  generalize (transformingAdapter (snd (startTransform env self arg w))).
  generalize (transformers (snd (startTransform env self arg w)) self).
  intros me1 ptr1 o1 me2 ptr2 o2 (Ho & Hlocal) Hrelease.
  injection Hlocal as -> ->.
  split; [split; [exact Ho|split; reflexivity]|].
  specialize (Hrelease [] None
                (set_transformMutex (Mutex.mk true [Mutex.StartTransform silent])
                   (transformers w self))
                eq_refl eq_refl eq_refl).
  cbn [fst snd] in Hrelease.
  destruct Hrelease as (Hdone & Hptr' & Hon & Hsilent & _ & Hmutex).
  exact (conj Hdone (conj Hptr' (conj Hon (conj Hsilent Hmutex)))).
Qed.

Lemma startTransform_waits_for_release_witness :
  let env := exampleEnv 1 (Coordinate.mk 0 0) in
  let queued := snd (startTransform env layerA None pendingWorld) in
  let resumed := snd (release env layerA queued) in
  fst (startTransform env layerA None pendingWorld) = Awaiting
  /\ isTransforming (transformers resumed layerA) = true.
Proof.
  intros env queued resumed.
  destruct (startTransform_waits_for_release env layerA None pendingWorld)
    as ((Ho & _) & (_ & _ & Hon & _)).
  - reflexivity.
  - reflexivity.
  - exact (conj Ho Hon).
Defined.

(** X20.  With nobody waiting for the lock, [stopTransform] returns with the
    session over, whatever state it was called in: no entity is marked as
    being transformed, the transforming and the processing flags are off, the
    lock is free, the warp preview is gone, and the proxy rect is the pixel
    rect at the position of the entity, unscaled and unrotated; the rects are
    as they were. *)
Theorem stopTransform_resets (env : Env) (self : EntityId) (w : World) :
  Mutex.waiting (transformMutex (transformers w self)) = [] ->
  fst (stopTransform env self w) = Done tt
  /\ transformingAdapter (snd (stopTransform env self w)) = None
  /\ isTransforming (transformers (snd (stopTransform env self w)) self) = false
  /\ isProcessing (transformers (snd (stopTransform env self w)) self) = false
  /\ transformMutex (transformers (snd (stopTransform env self w)) self)
     = Mutex.mk false []
  /\ warpState (transformers (snd (stopTransform env self w)) self) = (None, None, None)
  /\ proxyRect (transformers (snd (stopTransform env self w)) self)
     = restingProxyRect env (transformers w self)
  /\ (nodeRect (transformers (snd (stopTransform env self w)) self),
      pixelRect (transformers (snd (stopTransform env self w)) self))
     = (nodeRect (transformers w self), pixelRect (transformers w self)).
Proof.
  intros Hq.
  at_world self (stopTransform env self) w (eq_refl (transformingAdapter w))
    (stopTransform_runs env self (transformingAdapter w) (transformers w self) Hq).
Qed.

Lemma stopTransform_resets_witness :
  let env := exampleEnv 1 (Coordinate.mk 0 0) in
  let w := exampleWorld (ProxyRect.mk 10 20 64 64 2 3 30) true in
  transformingAdapter (snd (stopTransform env layerA w)) = None
  /\ proxyRect (transformers (snd (stopTransform env layerA w)) layerA)
     = restingProxyRect env (transformers w layerA).
Proof.
  intros env w.
  destruct (stopTransform_resets env layerA w) as (_ & Hptr & _ & _ & _ & _ & Hproxy & _).
  - reflexivity.
  - exact (conj Hptr Hproxy).
Defined.

(** X21.  Called during a transform that holds the lock, with nobody waiting,
    [applyTransform] returns with the session over on every path, in the
    affine and in the warp mode, whether the rasterization succeeds or fails:
    no entity is marked as being transformed, the transforming and the
    processing flags are off, the warp preview is gone, the proxy rect is at
    rest and the rects are as they were; the lock is still held, for it has
    gone to the recomputation of the bounding box that was requested.  Of the
    pending flag and the timer of that recomputation nothing is said: the
    source sets them when the recomputation resumes, after [applyTransform]
    has returned. *)
Theorem applyTransform_ends_session (env : Env) (self : EntityId) (w : World) :
  isTransforming (transformers w self) = true ->
  transformMutex (transformers w self) = Mutex.mk true [] ->
  fst (applyTransform env self w) = Done tt
  /\ transformingAdapter (snd (applyTransform env self w)) = None
  /\ isTransforming (transformers (snd (applyTransform env self w)) self) = false
  /\ isProcessing (transformers (snd (applyTransform env self w)) self) = false
  /\ Mutex.locked (transformMutex (transformers (snd (applyTransform env self w)) self))
     = true
  /\ warpState (transformers (snd (applyTransform env self w)) self) = (None, None, None)
  /\ proxyRect (transformers (snd (applyTransform env self w)) self)
     = restingProxyRect env (transformers w self)
  /\ (nodeRect (transformers (snd (applyTransform env self w)) self),
      pixelRect (transformers (snd (applyTransform env self w)) self))
     = (nodeRect (transformers w self), pixelRect (transformers w self)).
Proof.
  intros Hon Hlock.
  at_world self (applyTransform env self) w (eq_refl (transformingAdapter w))
    (applyTransform_runs env self (transformingAdapter w) (transformers w self)
       Hon Hlock).
Qed.

Lemma applyTransform_ends_session_witness :
  let env := exampleEnv 1 (Coordinate.mk 0 0) in
  let w := exampleWorld (ProxyRect.mk 10 20 64 64 2 3 30) true in
  transformingAdapter (snd (applyTransform env layerA w)) = None
  /\ isTransforming (transformers (snd (applyTransform env layerA w)) layerA) = false
  /\ Mutex.locked (transformMutex (transformers (snd (applyTransform env layerA w)) layerA))
     = true.
Proof.
  intros env w.
  destruct (applyTransform_ends_session env layerA w)
    as (_ & Hptr & Hoff & _ & Hlock & _).
  - reflexivity.
  - reflexivity.
  - exact (conj Hptr (conj Hoff Hlock)).
Defined.

(** X22.  A recomputation of the bounding box that is requested while the
    lock is free, with no answer of the worker outstanding, ends on every
    path, whether the canvas cannot be had, the entity has no objects, the
    client rect is enough, or the worker answers or fails: the pending flag
    is cleared, the timer is not armed, no answer is outstanding and the lock
    is free again; the transforming and the processing flags and the pointer
    to the transforming adapter are as they were. *)
Theorem bboxCycle_releases (env : Env) (self : EntityId) (answer : option Extents)
    (w : World) :
  transformMutex (transformers w self) = Mutex.mk false [] ->
  bboxRequest (transformers w self) = None ->
  fst (bboxCycle env self answer w) = Done tt
  /\ transformingAdapter (snd (bboxCycle env self answer w)) = transformingAdapter w
  /\ isPendingRectCalculation (transformers (snd (bboxCycle env self answer w)) self)
     = false
  /\ calculateRectTimer (transformers (snd (bboxCycle env self answer w)) self) = false
  /\ bboxRequest (transformers (snd (bboxCycle env self answer w)) self) = None
  /\ transformMutex (transformers (snd (bboxCycle env self answer w)) self)
     = Mutex.mk false []
  /\ (isTransforming (transformers (snd (bboxCycle env self answer w)) self),
      isProcessing (transformers (snd (bboxCycle env self answer w)) self))
     = (isTransforming (transformers w self), isProcessing (transformers w self)).
Proof.
  intros Hfree Hnone.
  at_world self (bboxCycle env self answer) w (eq_refl (transformingAdapter w))
    (bboxCycle_runs env self answer (transformingAdapter w) (transformers w self)
       Hfree Hnone).
Qed.

Lemma bboxCycle_releases_witness :
  let env := exampleEnv 1 (Coordinate.mk 0 0) in
  isPendingRectCalculation (transformers (snd (bboxCycle env layerA None idleWorld)) layerA)
  = false
  /\ transformMutex (transformers (snd (bboxCycle env layerA None idleWorld)) layerA)
     = Mutex.mk false [].
Proof.
  intros env.
  destruct (bboxCycle_releases env layerA None idleWorld)
    as (_ & _ & Hpending & _ & _ & Hmutex & _).
  - reflexivity.
  - reflexivity.
  - exact (conj Hpending Hmutex).
Defined.

End LifecycleWorld.

(** ** The discipline of the lock *)

Module FrameLaws.
Import Transformer Spec Laws Examples.

Lemma maintains_ret {B : Type} (inv : World -> Prop) (b : B) : maintains inv (ret b).
Proof. intros w H. exact H. Qed.

Lemma maintains_throw {B : Type} (inv : World -> Prop) (msg : string) :
  maintains inv (throw (A := B) msg).
Proof. intros w H. exact H. Qed.

Lemma maintains_await {B : Type} (inv : World -> Prop) : maintains inv (await (A := B)).
Proof. intros w H. exact H. Qed.

Lemma maintains_this (inv : World -> Prop) (self : EntityId) : maintains inv (this self).
Proof. intros w H. exact H. Qed.

Lemma maintains_getTransformingAdapter (inv : World -> Prop) :
  maintains inv getTransformingAdapter.
Proof. intros w H. exact H. Qed.

Lemma maintains_bind {B C : Type} (inv : World -> Prop) (m : Op B) (k : B -> Op C) :
  maintains inv m -> (forall b, maintains inv (k b)) -> maintains inv (bind m k).
Proof.
  intros Hm Hk w H. unfold bind. specialize (Hm w H).
  destruct (m w) as [[b|msg|] w']; cbn [snd] in *; [|exact Hm|exact Hm].
  now apply Hk.
Qed.

Lemma maintains_detached (inv : World -> Prop) (m : Op unit) :
  maintains inv m -> maintains inv (detached m).
Proof. intros Hm w H. exact (Hm w H). Qed.

Lemma maintains_withResultAsync (inv : World -> Prop) (m : Op unit) :
  maintains inv m -> maintains inv (withResultAsync m).
Proof.
  intros Hm w H. unfold withResultAsync. specialize (Hm w H).
  destruct (m w) as [[b|msg|] w']; exact Hm.
Qed.

Lemma maintains_emit_disciplined (self : EntityId) (e : Event) :
  maintains (disciplined self) (emit e).
Proof. intros w H. exact H. Qed.

Lemma maintains_pointer_disciplined (self : EntityId) (a : option EntityId) :
  maintains (disciplined self) (setTransformingAdapter a).
Proof. intros w H. exact H. Qed.

Lemma maintains_modify_disciplined (self : EntityId) (g : Transformer.t -> Transformer.t) :
  (forall me, lockDiscipline (transformMutex me) -> lockDiscipline (transformMutex (g me))) ->
  maintains (disciplined self) (modify self g).
Proof.
  intros Hg w H. unfold disciplined, modify in *. cbn [snd transformers].
  rewrite String.eqb_refl. now apply Hg.
Qed.

Ltac frame_step :=
  lazymatch goal with
  | |- maintains _ (ret _) => apply maintains_ret
  | |- maintains _ (throw _) => apply maintains_throw
  | |- maintains _ await => apply maintains_await
  | |- maintains _ (this _) => apply maintains_this
  | |- maintains _ getTransformingAdapter => apply maintains_getTransformingAdapter
  | |- maintains _ (detached _) => apply maintains_detached
  | |- maintains _ (withResultAsync _) => apply maintains_withResultAsync
  | |- maintains (disciplined _) (emit _) => apply maintains_emit_disciplined
  | |- maintains (disciplined _) (setTransformingAdapter _) =>
      apply maintains_pointer_disciplined
  | |- maintains (disciplined _) (modify _ _) =>
      apply maintains_modify_disciplined;
      let me := fresh "me" in
      let H := fresh "H" in
      intros me H; unfold lockDiscipline in *; cbv beta;
      cbn [transformMutex Mutex.locked Mutex.waiting
           set_nodeRect set_pixelRect set_isPendingRectCalculation set_isTransforming
           set_transformMode set_interactionMode set_isDragEnabled set_isTransformEnabled
           set_isProcessing set_silentTransform set_transformMutex set_proxyRect
           set_warpSourceCanvas set_warpSourceRect set_warpCorners
           set_calculateRectTimer set_bboxRequest];
      first [exact H | intros; discriminate | intros; reflexivity]
  | |- maintains _ (bind _ _) => apply maintains_bind; [|intros ?]
  | |- maintains _ (match ?x with _ => _ end) => destruct x
  | |- maintains _ (let _ := _ in _) => cbv zeta
  | |- _ => assumption
  end.

Ltac frame_auto := unfold log; repeat frame_step.

Section Discipline.

Variable env : Env.
Variable self : EntityId.

Lemma syncInteractionState_disciplined :
  maintains (disciplined self) (syncInteractionState env self).
Proof.
  unfold syncInteractionState, _setInteractionMode, _enableDrag, _disableDrag,
    _enableTransform, _disableTransform, _disableWarp, _enableWarp, prepareWarpPreview,
    syncWarpScale, updateWarpNodes, updateWarpPreviewImage, _showBboxOutline,
    _hideBboxOutline.
  frame_auto.
Qed.

Lemma updateBbox_disciplined : maintains (disciplined self) (updateBbox env self).
Proof.
  pose proof syncInteractionState_disciplined. unfold updateBbox, update. frame_auto.
Qed.

Lemma release_disciplined : maintains (disciplined self) (release env self).
Proof.
  pose proof syncInteractionState_disciplined.
  unfold release, startTransform_locked, requestRectCalculation_locked,
    teardownWarpPreview.
  frame_auto.
Qed.

Lemma requestRectCalculation_disciplined :
  maintains (disciplined self) (requestRectCalculation env self).
Proof.
  pose proof syncInteractionState_disciplined.
  unfold requestRectCalculation, acquire, requestRectCalculation_locked. frame_auto.
Qed.

Lemma stopTransform_disciplined : maintains (disciplined self) (stopTransform env self).
Proof.
  pose proof syncInteractionState_disciplined. pose proof updateBbox_disciplined.
  pose proof release_disciplined.
  unfold stopTransform, teardownWarpPreview, resetTransform, resetScale, updatePosition,
    update.
  frame_auto.
Qed.

End Discipline.

(** X24.  The lock is never left free while somebody waits for it: if nobody
    waits for a free lock before a transform is started, applied or stopped,
    before a recomputation of the bounding box is requested or carried out, or
    before the lock is released, then nobody does afterwards, however the
    method ends. *)
Theorem lock_discipline_maintained (env : Env) (self : EntityId) (arg : option bool)
    (answer : option Extents) :
  maintains (disciplined self) (startTransform env self arg)
  /\ maintains (disciplined self) (applyTransform env self)
  /\ maintains (disciplined self) (stopTransform env self)
  /\ maintains (disciplined self) (requestRectCalculation env self)
  /\ maintains (disciplined self) (bboxCycle env self answer)
  /\ maintains (disciplined self) (release env self).
Proof.
  pose proof (syncInteractionState_disciplined env self).
  pose proof (updateBbox_disciplined env self).
  pose proof (release_disciplined env self).
  pose proof (requestRectCalculation_disciplined env self).
  pose proof (stopTransform_disciplined env self).
  split; [|split; [|split; [|split; [|split]]]]; try assumption.
  - unfold startTransform, acquire, startTransform_locked, teardownWarpPreview.
    frame_auto.
  - unfold applyTransform, applyWarpTransform, updateWarpBBoxFromCorners,
      _setInteractionMode, _disableDrag, _disableTransform, _disableWarp,
      _hideBboxOutline.
    frame_auto.
  - unfold bboxCycle, calculateRect_fire, calculateRect, bboxCallback. frame_auto.
Qed.

End FrameLaws.

(** ** Gestures *)

Module GestureLaws.
Import Transformer Spec Laws Examples RunFacts LifecycleLaws Gestures.

Section Runs.

Variable env : Env.
Variable self : EntityId.

Lemma warpExcursion_runs (start pointer : Coordinate.t) (g : Gestures.t)
    (ptr : option EntityId) (me : Transformer.t) :
  isTransforming me = true -> transformMode me = affine ->
  runs self (warpExcursion env self start pointer g)
    (fun o s' =>
       (exists g', o = Done g' /\ affineSnapshot g' = None)
       /\ fst s' = ptr
       /\ proxyRect (snd s') = proxyRect me
       /\ transformMode (snd s') = affine
       /\ isTransforming (snd s') = true
       /\ warpState (snd s') = (None, None, None))
    (ptr, me).
Proof.
  intros Hon Hmode.
  unfold warpExcursion, setTransformMode, onWarpDragStart, onWarpDragMove, onWarpDragEnd,
    syncScale, syncWarpScale, teardownWarpPreview, updateWarpBBoxFromCorners.
  go; finish.
Qed.

Lemma warpDrag_runs (start p1 p2 : Coordinate.t) (corners : WarpCorners.t)
    (g : Gestures.t) (ptr : option EntityId) (me : Transformer.t) :
  warpCorners me = Some corners ->
  runs self
    (g1 <- onWarpDragStart self (Some start) g ;;
     g2 <- onWarpDragMove self (Some p1) g1 ;;
     onWarpDragMove self (Some p2) g2)
    (fun o s' =>
       (exists g', o = Done g' /\ warpDragStartCorners g' = Some corners)
       /\ warpCorners (snd s')
          = Some (WarpCorners.mk
                    (translate (Coordinate.x p2 - Coordinate.x start)
                       (Coordinate.y p2 - Coordinate.y start) (WarpCorners.tl corners))
                    (translate (Coordinate.x p2 - Coordinate.x start)
                       (Coordinate.y p2 - Coordinate.y start) (WarpCorners.tr corners))
                    (translate (Coordinate.x p2 - Coordinate.x start)
                       (Coordinate.y p2 - Coordinate.y start) (WarpCorners.br corners))
                    (translate (Coordinate.x p2 - Coordinate.x start)
                       (Coordinate.y p2 - Coordinate.y start) (WarpCorners.bl corners))))
    (ptr, me).
Proof.
  intros Hcorners.
  unfold onWarpDragStart, onWarpDragMove, updateWarpBBoxFromCorners.
  go; finish.
Qed.

Lemma warpSideDrag_runs (key : WarpSide) (start p1 p2 : Coordinate.t)
    (corners : WarpCorners.t) (g : Gestures.t) (ptr : option EntityId)
    (me : Transformer.t) :
  warpCorners me = Some corners ->
  runs self
    (g1 <- onWarpSideDragStart self (Some key) (Some start) g ;;
     g2 <- onWarpSideDragMove self (Some p1) g1 ;;
     onWarpSideDragMove self (Some p2) g2)
    (fun o s' =>
       (exists g', o = Done g' /\ warpSideDragStartCorners g' = Some corners)
       /\ warpCorners (snd s')
          = Some (moveSide key (Coordinate.x p2 - Coordinate.x start)
                    (Coordinate.y p2 - Coordinate.y start) corners))
    (ptr, me).
Proof.
  intros Hcorners.
  unfold onWarpSideDragStart, onWarpSideDragMove, updateWarpBBoxFromCorners.
  go; finish.
Qed.



End Runs.

End GestureLaws.

(** ** Gestures, on the worlds *)

Module GestureWorld.
Import Transformer Spec Laws Examples RunFacts LifecycleLaws Gestures GestureLaws.

(** X25.  During a transform in the affine mode: switching to the warp,
    dragging the quad and switching back to the affine mode gives back the
    proxy rect that the switch to the warp found, whatever the drag has made
    of it; the snapshot and the warp preview are gone, and the transform goes
    on in the affine mode. *)
Theorem warpExcursion_restores (env : Env) (self : EntityId)
    (start pointer : Coordinate.t) (g : Gestures.t) (w : World) :
  isTransforming (transformers w self) = true ->
  transformMode (transformers w self) = affine ->
  (exists g',
     fst (warpExcursion env self start pointer g w) = Done g' /\ affineSnapshot g' = None)
  /\ transformingAdapter (snd (warpExcursion env self start pointer g w))
     = transformingAdapter w
  /\ proxyRect (transformers (snd (warpExcursion env self start pointer g w)) self)
     = proxyRect (transformers w self)
  /\ transformMode (transformers (snd (warpExcursion env self start pointer g w)) self)
     = affine
  /\ isTransforming (transformers (snd (warpExcursion env self start pointer g w)) self)
     = true
  /\ warpState (transformers (snd (warpExcursion env self start pointer g w)) self)
     = (None, None, None).
Proof.
  intros Hon Hmode.
  at_world self (warpExcursion env self start pointer g) w
    (eq_refl (transformingAdapter w))
    (warpExcursion_runs env self start pointer g (transformingAdapter w)
       (transformers w self) Hon Hmode).
Qed.

Lemma warpExcursion_restores_witness :
  let env := exampleEnv 1 (Coordinate.mk 0 0) in
  let w := exampleWorld (ProxyRect.mk 10 20 64 64 2 3 0) true in
  let excursion :=
    warpExcursion env layerA (Coordinate.mk 0 0) (Coordinate.mk 5 7) Gestures.initial in
  proxyRect (transformers (snd (excursion w)) layerA) = ProxyRect.mk 10 20 64 64 2 3 0.
Proof.
  intros env w excursion.
  destruct (warpExcursion_restores env layerA (Coordinate.mk 0 0) (Coordinate.mk 5 7)
              Gestures.initial w) as (_ & _ & Hproxy & _).
  - reflexivity.
  - reflexivity.
  - exact Hproxy.
Defined.

(** X26.  A drag of the whole quad puts every corner where it was when the
    drag started, moved by the way of the pointer since then: the drag is
    reckoned from its start, and the moves in between leave no trace. *)
Theorem warpDrag_follows_pointer (self : EntityId) (start p1 p2 : Coordinate.t)
    (corners : WarpCorners.t) (g : Gestures.t) (w : World) :
  warpCorners (transformers w self) = Some corners ->
  let drag :=
    g1 <- onWarpDragStart self (Some start) g ;;
    g2 <- onWarpDragMove self (Some p1) g1 ;;
    onWarpDragMove self (Some p2) g2 in
  let dx := Coordinate.x p2 - Coordinate.x start in
  let dy := Coordinate.y p2 - Coordinate.y start in
  warpCorners (transformers (snd (drag w)) self)
  = Some (WarpCorners.mk
            (translate dx dy (WarpCorners.tl corners))
            (translate dx dy (WarpCorners.tr corners))
            (translate dx dy (WarpCorners.br corners))
            (translate dx dy (WarpCorners.bl corners))).
Proof.
  intros Hcorners drag dx dy. subst drag dx dy.
  pose proof (runs_world self _ _ w _ _ eq_refl eq_refl
                (warpDrag_runs self start p1 p2 corners g (transformingAdapter w)
                   (transformers w self) Hcorners)) as H.
  cbv beta in H. revert H.
  match goal with
  | |- context [transformers (snd ?r) self] => generalize r
  end.
  intros [o w'] (_ & H). exact H.
Qed.

Lemma warpDrag_follows_pointer_witness :
  let corners := WarpCorners.mk (Coordinate.mk 0 0) (Coordinate.mk 8 0)
                   (Coordinate.mk 8 8) (Coordinate.mk 0 8) in
  let w := warpedWorld corners in
  let drag :=
    g1 <- onWarpDragStart layerA (Some (Coordinate.mk 1 1)) Gestures.initial ;;
    g2 <- onWarpDragMove layerA (Some (Coordinate.mk 50 50)) g1 ;;
    onWarpDragMove layerA (Some (Coordinate.mk 4 3)) g2 in
  exists c,
    warpCorners (transformers (snd (drag w)) layerA) = Some c
    /\ coord_eq (WarpCorners.br c) (Coordinate.mk 11 10).
Proof.
  intros corners w drag.
  eexists. split.
  - apply (warpDrag_follows_pointer layerA (Coordinate.mk 1 1) (Coordinate.mk 50 50)
             (Coordinate.mk 4 3) corners Gestures.initial w).
    reflexivity.
  - split; reflexivity.
Defined.

(** X27.  A drag of a side anchor moves the two corners of its edge by the
    way of the pointer since the drag started, and leaves the two corners of
    the edge across where they were then. *)
Theorem warpSideDrag_moves_one_edge (self : EntityId) (key : WarpSide)
    (start p1 p2 : Coordinate.t) (corners : WarpCorners.t) (g : Gestures.t) (w : World) :
  warpCorners (transformers w self) = Some corners ->
  let drag :=
    g1 <- onWarpSideDragStart self (Some key) (Some start) g ;;
    g2 <- onWarpSideDragMove self (Some p1) g1 ;;
    onWarpSideDragMove self (Some p2) g2 in
  let dx := Coordinate.x p2 - Coordinate.x start in
  let dy := Coordinate.y p2 - Coordinate.y start in
  exists c,
    warpCorners (transformers (snd (drag w)) self) = Some c
    /\ oppositeEdge key c = oppositeEdge key corners
    /\ draggedEdge key c
       = (translate dx dy (fst (draggedEdge key corners)),
          translate dx dy (snd (draggedEdge key corners))).
Proof.
  intros Hcorners drag dx dy. subst drag dx dy.
  pose proof (runs_world self _ _ w _ _ eq_refl eq_refl
                (warpSideDrag_runs self key start p1 p2 corners g (transformingAdapter w)
                   (transformers w self) Hcorners)) as H.
  cbv beta in H. revert H.
  match goal with
  | |- context [transformers (snd ?r) self] => generalize r
  end.
  intros [o w'] (_ & H). cbn [snd] in *.
  eexists. split; [exact H|].
  destruct key; split; reflexivity.
Qed.

Lemma warpSideDrag_moves_one_edge_witness :
  let corners := WarpCorners.mk (Coordinate.mk 0 0) (Coordinate.mk 8 0)
                   (Coordinate.mk 8 8) (Coordinate.mk 0 8) in
  let w := warpedWorld corners in
  let drag :=
    g1 <- onWarpSideDragStart layerA (Some mr) (Some (Coordinate.mk 8 4)) Gestures.initial ;;
    g2 <- onWarpSideDragMove layerA (Some (Coordinate.mk 9 9)) g1 ;;
    onWarpSideDragMove layerA (Some (Coordinate.mk 12 4)) g2 in
  exists c,
    warpCorners (transformers (snd (drag w)) layerA) = Some c
    /\ oppositeEdge mr c = (Coordinate.mk 0 0, Coordinate.mk 0 8).
Proof.
  intros corners w drag.
  destruct (warpSideDrag_moves_one_edge layerA mr (Coordinate.mk 8 4) (Coordinate.mk 9 9)
              (Coordinate.mk 12 4) corners Gestures.initial w) as (c & Hc & Hopp & _).
  - reflexivity.
  - exists c. split; [exact Hc | exact Hopp].
Defined.



End GestureWorld.

(** ** The stage rect of an adapter *)

Module StageRectLaws.
Import Spec Laws ExtractMaskedArea.

Lemma floor_le (x : Q) : floor x <= x.
Proof. apply Qfloor_le. Qed.

Lemma le_ceil (x : Q) : x <= JS.ceil x.
Proof. apply Qle_ceiling. Qed.

Lemma floor_whole (z : Z) : floor (inject_Z z) = inject_Z z.
Proof. unfold floor. now rewrite Qfloor_Z. Qed.

Lemma max_whole (a b : Z) : Qmax (inject_Z a) (inject_Z b) == inject_Z (Z.max a b).
Proof.
  destruct (Z.le_ge_cases a b) as [H|H].
  - rewrite Z.max_r by exact H. apply Q.max_r. now rewrite <- Zle_Qle.
  - rewrite Z.max_l by exact H. apply Q.max_l. now rewrite <- Zle_Qle.
Qed.

(** The extent along one axis: whole, not negative, and reaching the ceiling
    of the far end. *)
Lemma extent_whole (lo len : Q) :
  Qmax 0 (JS.ceil (lo + len) - floor lo)
  == inject_Z (Z.max 0 (Qceiling (lo + len) - Qfloor lo)).
Proof.
  unfold JS.ceil, floor.
  change 0 with (inject_Z 0) at 1.
  rewrite <- max_whole. apply Q.max_compat; [reflexivity|].
  unfold Z.sub. rewrite inject_Z_plus, inject_Z_opp. reflexivity.
Qed.

Lemma axis_covers (lo len : Q) :
  covers (floor lo) (Qmax 0 (JS.ceil (lo + len) - floor lo)) lo len.
Proof.
  unfold covers. split; [apply floor_le|].
  pose proof (le_ceil (lo + len)).
  pose proof (Q.le_max_r 0 (JS.ceil (lo + len) - floor lo)).
  lra.
Qed.

Lemma axis_again (lo len : Q) :
  let lo' := floor lo in
  let len' := Qmax 0 (JS.ceil (lo + len) - floor lo) in
  floor lo' == lo' /\ Qmax 0 (JS.ceil (lo' + len') - floor lo') == len'.
Proof.
  intros lo' len'.
  assert (Hlen : len' == inject_Z (Z.max 0 (Qceiling (lo + len) - Qfloor lo)))
    by apply extent_whole.
  assert (Hpos : 0 <= len') by apply Q.le_max_l.
  assert (Hlo : floor lo' = lo') by apply floor_whole.
  rewrite Hlo. split; [reflexivity|].
  assert (Hsum : lo' + len'
                 == inject_Z (Qfloor lo + Z.max 0 (Qceiling (lo + len) - Qfloor lo))).
  { rewrite Hlen. unfold lo', floor. now rewrite inject_Z_plus. }
  unfold JS.ceil. rewrite Hsum, Qceiling_Z, <- Hsum.
  setoid_replace (lo' + len' - lo') with len' by ring.
  now apply Q.max_r.
Qed.

(** X29.  [normalizeRect] gives a rect of whole numbers and of no negative
    size that covers the rect it is given along both axes, and a rect that
    it has made it makes again. *)
Theorem normalizeRect_covers (rect : Rect.t) :
  let n := normalizeRect rect in
  integral n
  /\ 0 <= Rect.width n /\ 0 <= Rect.height n
  /\ covers (Rect.x n) (Rect.width n) (Rect.x rect) (Rect.width rect)
  /\ covers (Rect.y n) (Rect.height n) (Rect.y rect) (Rect.height rect)
  /\ rect_eq (normalizeRect n) n.
Proof.
  intros n. subst n. unfold normalizeRect. cbv zeta.
  cbn [Rect.x Rect.y Rect.width Rect.height].
  split.
  { exists (Qfloor (Rect.x rect)), (Qfloor (Rect.y rect)),
      (Z.max 0 (Qceiling (Rect.x rect + Rect.width rect) - Qfloor (Rect.x rect))),
      (Z.max 0 (Qceiling (Rect.y rect + Rect.height rect) - Qfloor (Rect.y rect))).
    cbn [Rect.x Rect.y Rect.width Rect.height].
    repeat split; try reflexivity; apply extent_whole. }
  split; [apply Q.le_max_l|]. split; [apply Q.le_max_l|].
  split; [apply axis_covers|]. split; [apply axis_covers|].
  unfold rect_eq. cbn [Rect.x Rect.y Rect.width Rect.height].
  destruct (axis_again (Rect.x rect) (Rect.width rect)) as [Hx Hw].
  destruct (axis_again (Rect.y rect) (Rect.height rect)) as [Hy Hh].
  repeat split; assumption.
Qed.

(** X30.  [getAdapterStageRect] answers no rect exactly when the pixel rect
    has no width or no height; the rect it answers otherwise covers the
    pixel rect at the position of the entity and is at least one pixel wide
    and one pixel high. *)
Theorem getAdapterStageRect_some (env : Transformer.Env) (me : Transformer.t) :
  let pixelRect := Transformer.pixelRect me in
  let position := Transformer.position env in
  match getAdapterStageRect env me with
  | None => Rect.width pixelRect <= 0 \/ Rect.height pixelRect <= 0
  | Some r =>
      0 < Rect.width pixelRect /\ 0 < Rect.height pixelRect
      /\ covers (Rect.x r) (Rect.width r)
           (Coordinate.x position + Rect.x pixelRect) (Rect.width pixelRect)
      /\ covers (Rect.y r) (Rect.height r)
           (Coordinate.y position + Rect.y pixelRect) (Rect.height pixelRect)
      /\ 1 <= Rect.width r /\ 1 <= Rect.height r
  end.
Proof.
  intros pixelRect position. subst pixelRect position.
  unfold getAdapterStageRect. cbv zeta.
  destruct (Qle_bool (Rect.width (Transformer.pixelRect me)) 0) eqn:Hw.
  { left. now apply Qle_bool_iff. }
  destruct (Qle_bool (Rect.height (Transformer.pixelRect me)) 0) eqn:Hh.
  { right. now apply Qle_bool_iff. }
  cbn [orb].
  assert (Hw' : 0 < Rect.width (Transformer.pixelRect me)).
  { apply Qnot_le_lt. intros H. apply Qle_bool_iff in H. congruence. }
  assert (Hh' : 0 < Rect.height (Transformer.pixelRect me)).
  { apply Qnot_le_lt. intros H. apply Qle_bool_iff in H. congruence. }
  unfold normalizeRect. cbv zeta. cbn [Rect.x Rect.y Rect.width Rect.height].
  split; [exact Hw'|]. split; [exact Hh'|].
  split; [apply axis_covers|]. split; [apply axis_covers|].
  assert (Hone : forall lo len, 0 < len ->
            1 <= Qmax 0 (JS.ceil (lo + len) - floor lo)).
  { intros lo len Hlen. rewrite extent_whole.
    change 1 with (inject_Z 1). rewrite <- Zle_Qle.
    assert (Qfloor lo < Qceiling (lo + len))%Z.
    { rewrite Zlt_Qlt.
      pose proof (Qfloor_le lo). pose proof (Qle_ceiling (lo + len)). lra. }
    lia. }
  split; apply Hone; assumption.
Qed.

End StageRectLaws.
